(** * ChatSpeed front end: state store, notification queue, reconnecting
    channel client, optimistic post pipeline and media selection.

  A shallow embedding of the manager classes of [script.js].  Every
  class becomes a record holding its instance fields; every method
  becomes a function from the record (and the records of the singletons
  it calls into) to the updated record.  Timers armed with [setTimeout]
  / [setInterval] are kept as explicit pending entries; promise
  continuations are split at their [await]. *)

From Stdlib Require Import ZArith List String Ascii Bool Lia Permutation.
From Stdlib Require Import DecimalString.
From stdpp Require Import gmap strings.
Import ListNotations.

Local Open Scope string_scope.
Local Open Scope Z_scope.

(** ** Global configuration ([CONFIG]) *)

Module CONFIG.
Definition MAX_FILE_SIZE : Z := 10 * 1024 * 1024.
Definition SUPPORTED_FORMATS : list string :=
  ["jpg"; "jpeg"; "png"; "gif"; "mp4"; "webm"].
Definition NOTIFICATION_TIMEOUT : Z := 5000.
End CONFIG.

(** Identifiers drawn by [generateUUID].  The function fills a template
  with [Math.random] digits; it is modelled as a generator that never
  repeats a value: the generator state is the next unused index. *)
Definition uuid := nat.

Definition generateUUID (seed : nat) : uuid * nat := (seed, S seed).

(** The delay of a timer.  [setTimeout] takes its delay as a 32-bit
  signed integer: the number is reduced modulo [2^32] into
  [-2^31 .. 2^31 - 1], and a negative result counts as 0. *)
Definition toInt32 (z : Z) : Z := (z + 2 ^ 31) mod 2 ^ 32 - 2 ^ 31.

Definition timer_delay (delay : Z) : Z := Z.max 0 (toInt32 delay).

(** ** State store ([StateManager]) *)

Module Store.

(** JavaScript values kept in the store.  Objects (arrays, sets, the
    user record) are references; [VObjectPrototype] is
    [Object.prototype] and [VBuiltin name] its method [name].
    [VInherited o key] names what the object [o] hands down under [key]
    once it has been made the prototype of the state object: the store
    cannot know it.  A reference never denotes the state object itself,
    and an object made the prototype is taken to be an ordinary object
    above [Object.prototype] whose properties are writable data
    properties. *)
Inductive value :=
| VUndefined
| VNull
| VBool (b : bool)
| VNum (n : Z)
| VStr (s : string)
| VRef (r : nat)
| VObjectPrototype
| VBuiltin (name : string)
| VInherited (o : value) (key : string).

(** The prototype of the state object: [Object.prototype] (as the
    object literal of the constructor gives it), [null], or another
    object. *)
Inductive prototype :=
| ObjectPrototype
| NullPrototype
| Host (o : value).

(** A callback is a function object; the listener [Set] compares
    function objects by identity, which is all the store ever uses. *)
Definition callback := nat.

(** One run of [callback(newValue, oldValue)] made by
    [notifyListeners] for [key]. *)
Record invocation := Invocation {
  inv_key : string;
  inv_cb : callback;
  inv_new : value;
  inv_old : value
}.

(** [state] holds the own properties of the plain object [this.state]
    and [proto] its prototype; [listeners] is the [Map] from key to a
    [Set] of callbacks; a [Set] iterates in insertion order, so it is a
    duplicate-free list.  [calls] is the trace of callback invocations,
    oldest first: callbacks are observers that return normally and do
    not call back into the store. *)
Record StateManager := {
  state : gmap string value;
  proto : prototype;
  listeners : gmap string (list callback);
  calls : list invocation
}.

(** [new StateManager()] *)
Definition constructor : StateManager := {|
  state :=
    <["user" := VNull]>
    (<["theme" := VStr "light"]>
    (<["notifications" := VRef 0]>
    (<["posts" := VRef 1]>
    (<["currentPage" := VNum 1]>
    (<["isLoading" := VBool false]>
    (<["websocket" := VNull]>
    (<["typingUsers" := VRef 2]>
    (<["onlineUsers" := VRef 3]> ∅))))))));
  proto := ObjectPrototype;
  listeners := ∅;
  calls := []
|}.

(** The data properties of [Object.prototype], all of them methods. *)
Definition members : list string :=
  ["constructor"; "__defineGetter__"; "__defineSetter__"; "hasOwnProperty";
   "__lookupGetter__"; "__lookupSetter__"; "isPrototypeOf";
   "propertyIsEnumerable"; "toString"; "valueOf"; "toLocaleString"].

(** What the prototype chain hands down under [key]: the getter of
    [Object.prototype.__proto__] returns the prototype of the state
    object. *)
Definition inherited (p : prototype) (key : string) : value :=
  match p with
  | ObjectPrototype =>
      if String.eqb key "__proto__" then VObjectPrototype
      else if existsb (String.eqb key) members then VBuiltin key
      else VUndefined
  | NullPrototype => VUndefined
  | Host o => if String.eqb key "__proto__" then o else VInherited o key
  end.

(** What the setter of [Object.prototype.__proto__] makes of the value
    assigned: [null] and objects become the prototype, everything else
    is ignored.  An inherited value is taken to be a primitive. *)
Definition setPrototypeOf (v : value) (p : prototype) : prototype :=
  match v with
  | VNull => NullPrototype
  | VObjectPrototype => ObjectPrototype
  | VRef _ | VBuiltin _ => Host v
  | _ => p
  end.

(** [Set.prototype.add] *)
Definition set_add (cb : callback) (l : list callback) : list callback :=
  if existsb (Nat.eqb cb) l then l else l ++ [cb].

(** [Set.prototype.delete] *)
Definition set_delete (cb : callback) (l : list callback) : list callback :=
  List.filter (fun c => negb (Nat.eqb cb c)) l.

(** [this.state[key]]: the own property, else what is inherited. *)
Definition getState (key : string) (s : StateManager) : value :=
  match state s !! key with
  | Some v => v
  | None => inherited (proto s) key
  end.

Definition notifyListeners (key : string) (newValue oldValue : value)
    (s : StateManager) : StateManager :=
  match listeners s !! key with
  | Some l =>
      {| state := state s;
         proto := proto s;
         listeners := listeners s;
         calls := calls s ++
                  map (fun cb => Invocation key cb newValue oldValue) l |}
  | None => s
  end.

(** [this.state[key] = value].  An own property is overwritten.  For
    a key the object does not own, the assignment goes to the setter of
    [Object.prototype.__proto__] when the key is ["__proto__"] and the
    chain has [Object.prototype] in it, and creates an own property in
    every other case. *)
Definition assign (key : string) (v : value) (s : StateManager)
    : StateManager :=
  let write := {| state := <[key := v]> (state s);
                  proto := proto s;
                  listeners := listeners s;
                  calls := calls s |} in
  match state s !! key, proto s with
  | Some _, _ => write
  | None, NullPrototype => write
  | None, p =>
      if String.eqb key "__proto__"
      then {| state := state s;
              proto := setPrototypeOf v p;
              listeners := listeners s;
              calls := calls s |}
      else write
  end.

Definition setState (key : string) (v : value) (s : StateManager)
    : StateManager :=
  let oldValue := getState key s in
  notifyListeners key v oldValue (assign key v s).

Definition subscribe (key : string) (cb : callback) (s : StateManager)
    : StateManager :=
  let ls := match listeners s !! key with
            | Some _ => listeners s
            | None => <[key := []]> (listeners s)
            end in
  {| state := state s;
     proto := proto s;
     listeners := <[key := set_add cb (default [] (ls !! key))]> ls;
     calls := calls s |}.

Definition unsubscribe (key : string) (cb : callback) (s : StateManager)
    : StateManager :=
  match listeners s !! key with
  | Some l =>
      {| state := state s;
         proto := proto s;
         listeners := <[key := set_delete cb l]> (listeners s);
         calls := calls s |}
  | None => s
  end.

(** The callbacks currently subscribed to [key], in subscription order. *)
Definition subscribers (key : string) (s : StateManager) : list callback :=
  default [] (listeners s !! key).

(** Listener sets hold no callback twice. *)
Definition wf (s : StateManager) : Prop :=
  forall k l, listeners s !! k = Some l -> NoDup l.

(** The state object has [Object.prototype] or [null] as its prototype:
    no object has been put in their place. *)
Definition ordinary (s : StateManager) : Prop :=
  proto s = ObjectPrototype \/ proto s = NullPrototype.

(** A run of [setState(k, v1); setState(k, v2); ...]. *)
Definition setStates (k : string) (vs : list value) (s : StateManager)
    : StateManager :=
  fold_left (fun acc v => setState k v acc) vs s.

(** A run of [setState] calls on arbitrary keys. *)
Definition setMany (kvs : list (string * value)) (s : StateManager)
    : StateManager :=
  fold_left (fun acc kv => setState (fst kv) (snd kv) acc) kvs s.

(** The invocations one [setState(k, v)] owes to the subscribers. *)
Definition owed (k : string) (subs : list callback) (vo : value * value)
    : list invocation :=
  map (fun cb => Invocation k cb (fst vo) (snd vo)) subs.

End Store.

(** ** Notification queue ([NotificationManager]) *)

Module Notif.

(** What a timer armed by the manager does when it fires. *)
Inductive action :=
| AddShow (id : uuid)    (* [notification.classList.add('show')] *)
| Remove (id : uuid)     (* [this.remove(id)], the auto-dismiss timer *)
| Finalize (id : uuid).  (* the closure armed by [remove] *)

Record timer := Timer { due : Z; act : action }.

(** An entry [{ id, element }] of [this.notifications]; the element is
    the toast node created by [createNotification], of which the model
    keeps the [data-id], the sanitized message and the [text-bg-] type. *)
Record toast := Toast {
  toast_id : uuid;
  toast_msg : string;
  toast_type : string
}.

(** The manager together with the page state it acts on: the children
    of [#toastContainer] (the page has one), the toasts that carry the
    class [show], the clock and the timeouts armed so far, and the UUID
    generator.  A toast node is named by its [data-id].  [removals] is a
    trace: one entry per executed [removeChild]. *)
Record NotificationManager := {
  notifications : list toast;
  container : list uuid;
  shown : list uuid;
  now : Z;
  timers : list timer;
  seed : nat;
  removals : list uuid
}.

Definition constructor : NotificationManager := {|
  notifications := [];
  container := [];
  shown := [];
  now := 0;
  timers := [];
  seed := 0;
  removals := []
|}.

(** [setTimeout(f, delay)]: the timer is due after [timer_delay delay]. *)
Definition setTimeout (a : action) (delay : Z) (s : NotificationManager)
    : NotificationManager :=
  {| notifications := notifications s;
     container := container s;
     shown := shown s;
     now := now s;
     timers := timers s ++ [Timer (now s + timer_delay delay) a];
     seed := seed s;
     removals := removals s |}.

Definition has_id (id : uuid) (l : list uuid) : bool :=
  existsb (Nat.eqb id) l.

Definition drop_id (id : uuid) (l : list uuid) : list uuid :=
  List.filter (fun x => negb (Nat.eqb id x)) l.

(** [this.notifications.find(n => n.id === id)] *)
Definition find_toast (id : uuid) (s : NotificationManager) : option toast :=
  List.find (fun n => Nat.eqb (toast_id n) id) (notifications s).

(** [show(message, type = 'info', duration = NOTIFICATION_TIMEOUT)];
    returns the id together with the new state. *)
Definition show (message type : string) (duration : Z)
    (s : NotificationManager) : uuid * NotificationManager :=
  let '(id, seed') := generateUUID (seed s) in
  let s1 := {| notifications := notifications s ++ [Toast id message type];
               container := container s ++ [id];
               shown := shown s;
               now := now s;
               timers := timers s;
               seed := seed';
               removals := removals s |} in
  let s2 := setTimeout (AddShow id) 100 s1 in
  let s3 := if 0 <? duration then setTimeout (Remove id) duration s2
            else s2 in
  (id, s3).

(** A call of [generateUUID] by another manager of the page. *)
Definition draw (s : NotificationManager) : uuid * NotificationManager :=
  let '(id, seed') := generateUUID (seed s) in
  (id, {| notifications := notifications s;
          container := container s;
          shown := shown s;
          now := now s;
          timers := timers s;
          seed := seed';
          removals := removals s |}).

(** [show] with the default duration. *)
Definition show_default (message type : string) (s : NotificationManager)
    : uuid * NotificationManager :=
  show message type CONFIG.NOTIFICATION_TIMEOUT s.

(** [remove(id)] *)
Definition remove (id : uuid) (s : NotificationManager)
    : NotificationManager :=
  match find_toast id s with
  | Some n =>
      let s1 := {| notifications := notifications s;
                   container := container s;
                   shown := drop_id (toast_id n) (shown s);
                   now := now s;
                   timers := timers s;
                   seed := seed s;
                   removals := removals s |} in
      setTimeout (Finalize id) 300 s1
  | None => s
  end.

(** The closure armed by [remove]: detach the element when it still has
    a parent, then drop the entries with this id. *)
Definition finalize (id : uuid) (s : NotificationManager)
    : NotificationManager :=
  let attached := has_id id (container s) in
  {| notifications :=
       List.filter (fun n => negb (Nat.eqb (toast_id n) id))
                   (notifications s);
     container := if attached then drop_id id (container s)
                  else container s;
     shown := shown s;
     now := now s;
     timers := timers s;
     seed := seed s;
     removals := if attached then removals s ++ [id] else removals s |}.

(** [clear()]: [forEach] over the list as it is when the call starts. *)
Definition clear (s : NotificationManager) : NotificationManager :=
  fold_left (fun acc n => remove (toast_id n) acc) (notifications s) s.

(** The callback of a timer. *)
Definition run_action (a : action) (s : NotificationManager)
    : NotificationManager :=
  match a with
  | AddShow id =>
      {| notifications := notifications s;
         container := container s;
         shown := if has_id id (shown s) then shown s else shown s ++ [id];
         now := now s;
         timers := timers s;
         seed := seed s;
         removals := removals s |}
  | Remove id => remove id s
  | Finalize id => finalize id s
  end.

(** The pending timer that fires next: the earliest due one, the one
    armed first among equals. *)
Fixpoint extract_min (ts : list timer) : option (timer * list timer) :=
  match ts with
  | [] => None
  | t :: rest =>
      match extract_min rest with
      | None => Some (t, [])
      | Some (m, rest') =>
          if due t <=? due m then Some (t, rest) else Some (m, t :: rest')
      end
  end.

(** The state in which the callback of [m] starts: the clock has moved
    to its due time and [rest] is still pending. *)
Definition fired (m : timer) (rest : list timer) (s : NotificationManager)
    : NotificationManager :=
  {| notifications := notifications s;
     container := container s;
     shown := shown s;
     now := Z.max (now s) (due m);
     timers := rest;
     seed := seed s;
     removals := removals s |}.

(** Fire the next timer if it is due by time [t]. *)
Definition tick (t : Z) (s : NotificationManager)
    : option NotificationManager :=
  match extract_min (timers s) with
  | Some (m, rest) =>
      if due m <=? t then Some (run_action (act m) (fired m rest s))
      else None
  | None => None
  end.

Fixpoint run (fuel : nat) (t : Z) (s : NotificationManager)
    : NotificationManager :=
  match fuel with
  | O => s
  | S fuel' =>
      match tick t s with
      | Some s' => run fuel' t s'
      | None => s
      end
  end.

(** An auto-dismiss timer may arm one more timer, the others none. *)
Definition cost (x : timer) : nat :=
  match act x with Remove _ => 2 | _ => 1 end.

Definition weight (ts : list timer) : nat := list_sum (map cost ts).

(** Let the clock reach [t]: every timer due by then fires, in order. *)
Definition advance_to (t : Z) (s : NotificationManager)
    : NotificationManager :=
  let s' := run (weight (timers s)) t s in
  {| notifications := notifications s';
     container := container s';
     shown := shown s';
     now := Z.max (now s') t;
     timers := timers s';
     seed := seed s';
     removals := removals s' |}.

(** A notification is present while its entry is tracked. *)
Definition tracked (id : uuid) (s : NotificationManager) : bool :=
  existsb (fun n => Nat.eqb (toast_id n) id) (notifications s).

(** The id of a timer's action. *)
Definition target (a : action) : uuid :=
  match a with AddShow id | Remove id | Finalize id => id end.

(** No pending timer would dismiss [id]. *)
Definition undisturbed (id : uuid) (s : NotificationManager) : bool :=
  forallb (fun x => match act x with
                    | AddShow _ => true
                    | Remove i | Finalize i => negb (Nat.eqb i id)
                    end) (timers s).

(** What the page and its user do to the queue. *)
Inductive op :=
| ShowToast (message type : string) (duration : Z)
| Dismiss (id : uuid)      (* the close button, or any [remove(id)] *)
| Clear
| Elapse (t : Z).          (* the clock reaches [t] *)

Definition step (o : op) (s : NotificationManager) : NotificationManager :=
  match o with
  | ShowToast m ty d => snd (show m ty d s)
  | Dismiss id => remove id s
  | Clear => clear s
  | Elapse t => advance_to t s
  end.

Definition steps (os : list op) (s : NotificationManager)
    : NotificationManager :=
  fold_left (fun acc o => step o acc) os s.

(** The operations that are not a manual removal. *)
Definition keeps (o : op) : bool :=
  match o with
  | ShowToast _ _ _ | Elapse _ => true
  | Dismiss _ | Clear => false
  end.

Definition ids (s : NotificationManager) : list uuid :=
  map toast_id (notifications s).

(** The tracked entries are the attached toasts, no toast is attached
    or detached twice, and every id in use was drawn from the
    generator. *)
Definition wf (s : NotificationManager) : Prop :=
  ids s = container s /\
  List.NoDup (container s) /\
  List.NoDup (removals s) /\
  (forall i, In i (container s) -> (i < seed s)%nat) /\
  (forall i, In i (removals s) -> (i < seed s)%nat /\ ~ In i (container s)) /\
  (forall x, In x (timers s) -> (target (act x) < seed s)%nat).

(** The toast [id] is gone by [deadline]: it is untracked already, or
    its removal is pending and due in time, or its auto-dismiss timer
    is pending and due early enough for the removal that follows. *)
Definition doomed (id : uuid) (deadline : Z) (s : NotificationManager)
    : Prop :=
  (id < seed s)%nat /\
  (tracked id s = false \/
   (exists x, In x (timers s) /\ act x = Finalize id /\ due x <= deadline) \/
   (now s <= deadline - 300 /\
    exists x, In x (timers s) /\ act x = Remove id /\
              due x <= deadline - 300)).

(** The toast [id] is tracked and nothing pending will dismiss it. *)
Definition safe (id : uuid) (s : NotificationManager) : Prop :=
  tracked id s = true /\ undisturbed id s = true /\ (id < seed s)%nat.

(** The toast [id] is attached or has been detached. *)
Definition kept (id : uuid) (s : NotificationManager) : Prop :=
  In id (container s) \/ In id (removals s).

(** Every id drawn so far belongs to a toast. *)
Definition accounted (s : NotificationManager) : Prop :=
  forall i, (i < seed s)%nat -> kept i s.

End Notif.

(** ** Reconnecting channel client ([WebSocketManager]) *)

Module Channel.

(** [WebSocket.readyState] *)
Inductive readyState := CONNECTING | OPEN | CLOSING | CLOSED.

(** Envelopes passed to [send]. *)
Inductive outbound :=
| OPing
| ONewPost (post : uuid)
| OTyping (type : string).

(** Envelopes handled by [handleMessage]: the [notification] type goes
    to the notification queue; the other types touch the presence sets
    of the state store or the live-updates banner, or are ignored, and
    leave the channel client as it is. *)
Inductive inbound :=
| INotification (message type : string)
| IOther (type : string).

(** [reconnectAttempts], [heartbeatInterval] and [ws] are the instance
    fields that change; [sockets] holds the [readyState] of every
    [WebSocket] object created so far ([ws] is an index into it),
    [intervals] the live [setInterval] handles with their periods,
    [timeouts] the pending reconnect timeouts with their delays.  Timer handles are positive,
    so the truthiness test of [stopHeartbeat] is a test for [Some].
    [scheduled], [sent] and [lost] are traces: the delays passed to
    [setTimeout] by [handleReconnect], the envelopes handed to
    [ws.send], and the ids of the notifications shown once the retries
    are used up. *)
Record WebSocketManager := {
  ws : option nat;
  reconnectAttempts : Z;
  heartbeatInterval : option nat;
  sockets : list readyState;
  intervals : list (nat * Z);
  timeouts : list (nat * Z);
  next_handle : nat;
  scheduled : list Z;
  sent : list (nat * outbound);
  lost : list uuid
}.

(** Assigned once, in the constructor. *)
Definition maxReconnectAttempts : Z := 5.
Definition reconnectDelay : Z := 1000.
Definition heartbeatPeriod : Z := 30000.

Definition constructor : WebSocketManager := {|
  ws := None;
  reconnectAttempts := 0;
  heartbeatInterval := None;
  sockets := [];
  intervals := [];
  timeouts := [];
  next_handle := 1;
  scheduled := [];
  sent := [];
  lost := []
|}.

(** The client and the notification queue it reports to. *)
Definition world : Type := WebSocketManager * Notif.NotificationManager.

Definition set_socket (i : nat) (r : readyState) (w : WebSocketManager)
    : WebSocketManager :=
  {| ws := ws w;
     reconnectAttempts := reconnectAttempts w;
     heartbeatInterval := heartbeatInterval w;
     sockets := <[i := r]> (sockets w);
     intervals := intervals w;
     timeouts := timeouts w;
     next_handle := next_handle w;
     scheduled := scheduled w;
     sent := sent w;
     lost := lost w |}.

(** [handleReconnect()] *)
Definition handleReconnect (x : world) : world :=
  let '(w, n) := x in
  if reconnectAttempts w <? maxReconnectAttempts then
    let delay := reconnectDelay * 2 ^ reconnectAttempts w in
    ({| ws := ws w;
        reconnectAttempts := reconnectAttempts w;
        heartbeatInterval := heartbeatInterval w;
        sockets := sockets w;
        intervals := intervals w;
        timeouts := timeouts w ++ [(next_handle w, delay)];
        next_handle := S (next_handle w);
        scheduled := scheduled w ++ [delay];
        sent := sent w;
        lost := lost w |}, n)
  else
    let '(id, n') :=
      Notif.show "Connection lost. Please refresh the page." "danger" 0 n in
    ({| ws := ws w;
        reconnectAttempts := reconnectAttempts w;
        heartbeatInterval := heartbeatInterval w;
        sockets := sockets w;
        intervals := intervals w;
        timeouts := timeouts w;
        next_handle := next_handle w;
        scheduled := scheduled w;
        sent := sent w;
        lost := lost w ++ [id] |}, n').

(** [connect()]; [throws] tells whether [new WebSocket(url)] raises. *)
Definition connect (throws : bool) (x : world) : world :=
  let '(w, n) := x in
  if throws then handleReconnect (w, n)
  else
    ({| ws := Some (length (sockets w));
        reconnectAttempts := reconnectAttempts w;
        heartbeatInterval := heartbeatInterval w;
        sockets := sockets w ++ [CONNECTING];
        intervals := intervals w;
        timeouts := timeouts w;
        next_handle := next_handle w;
        scheduled := scheduled w;
        sent := sent w;
        lost := lost w |}, n).

(** The callback armed by [handleReconnect]. *)
Definition reconnect_callback (throws : bool) (x : world) : world :=
  let '(w, n) := x in
  connect throws
    ({| ws := ws w;
        reconnectAttempts := reconnectAttempts w + 1;
        heartbeatInterval := heartbeatInterval w;
        sockets := sockets w;
        intervals := intervals w;
        timeouts := timeouts w;
        next_handle := next_handle w;
        scheduled := scheduled w;
        sent := sent w;
        lost := lost w |}, n).

(** [startHeartbeat()] *)
Definition startHeartbeat (w : WebSocketManager) : WebSocketManager :=
  {| ws := ws w;
     reconnectAttempts := reconnectAttempts w;
     heartbeatInterval := Some (next_handle w);
     sockets := sockets w;
     intervals := intervals w ++ [(next_handle w, heartbeatPeriod)];
     timeouts := timeouts w;
     next_handle := S (next_handle w);
     scheduled := scheduled w;
     sent := sent w;
     lost := lost w |}.

(** [stopHeartbeat()] *)
Definition stopHeartbeat (w : WebSocketManager) : WebSocketManager :=
  match heartbeatInterval w with
  | Some h =>
      {| ws := ws w;
         reconnectAttempts := reconnectAttempts w;
         heartbeatInterval := None;
         sockets := sockets w;
         intervals :=
           List.filter (fun p => negb (Nat.eqb h (fst p))) (intervals w);
         timeouts := timeouts w;
         next_handle := next_handle w;
         scheduled := scheduled w;
         sent := sent w;
         lost := lost w |}
  | None => w
  end.

(** [send(data)] *)
Definition send (data : outbound) (w : WebSocketManager) : WebSocketManager :=
  match ws w with
  | Some i =>
      match sockets w !! i with
      | Some OPEN =>
          {| ws := ws w;
             reconnectAttempts := reconnectAttempts w;
             heartbeatInterval := heartbeatInterval w;
             sockets := sockets w;
             intervals := intervals w;
             timeouts := timeouts w;
             next_handle := next_handle w;
             scheduled := scheduled w;
             sent := sent w ++ [(i, data)];
             lost := lost w |}
      | _ => w
      end
  | None => w
  end.

(** [ws.onopen] *)
Definition onopen (x : world) : world :=
  let '(w, n) := x in
  let w1 := {| ws := ws w;
               reconnectAttempts := 0;
               heartbeatInterval := heartbeatInterval w;
               sockets := sockets w;
               intervals := intervals w;
               timeouts := timeouts w;
               next_handle := next_handle w;
               scheduled := scheduled w;
               sent := sent w;
               lost := lost w |} in
  (startHeartbeat w1,
   snd (Notif.show_default "Connected to ChatSpeed" "success" n)).

(** [handleMessage(data)] *)
Definition handleMessage (data : inbound) (x : world) : world :=
  let '(w, n) := x in
  match data with
  | INotification message type => (w, snd (Notif.show_default message type n))
  | IOther _ => (w, n)
  end.

(** [ws.onclose] *)
Definition onclose (x : world) : world :=
  let '(w, n) := x in
  handleReconnect (stopHeartbeat w, n).

(** [ws.onerror]: the handler only logs. *)
Definition onerror (x : world) : world := x.

(** [disconnect()]; [ws.close()] moves a socket that is connecting or
    open to [CLOSING] and does nothing otherwise. *)
Definition disconnect (w : WebSocketManager) : WebSocketManager :=
  let w1 := stopHeartbeat w in
  match ws w1 with
  | Some i =>
      match sockets w1 !! i with
      | Some CONNECTING | Some OPEN => set_socket i CLOSING w1
      | _ => w1
      end
  | None => w1
  end.

(** What happens to the client.  The transport delivers [open] to a
    connecting socket, [message] to an open one, and ends a socket that
    is not yet closed either cleanly ([close]) or by failing it, in
    which case the browser sets [readyState] to [CLOSED] and fires
    [error] and then [close] in the same task.  The timers fire
    ([Timeout], [Interval]); the page calls [send], [disconnect] and
    [connect]; the clock of the notification queue advances. *)
Inductive event :=
| EvOpen (i : nat)
| EvMessage (i : nat) (data : inbound)
| EvClose (i : nat)
| EvError (i : nat)
| EvTimeout (h : nat) (throws : bool)
| EvInterval (h : nat)
| EvSend (data : outbound)
| EvDisconnect
| EvConnect (throws : bool)
| EvElapse (t : Z).

Definition take_timeout (h : nat) (w : WebSocketManager) : WebSocketManager :=
  {| ws := ws w;
     reconnectAttempts := reconnectAttempts w;
     heartbeatInterval := heartbeatInterval w;
     sockets := sockets w;
     intervals := intervals w;
     timeouts := List.filter (fun p => negb (Nat.eqb h (fst p))) (timeouts w);
     next_handle := next_handle w;
     scheduled := scheduled w;
     sent := sent w;
     lost := lost w |}.

(** One event; [None] when the event cannot happen in this state. *)
Definition exec (e : event) (x : world) : option world :=
  let '(w, n) := x in
  match e with
  | EvOpen i =>
      match sockets w !! i with
      | Some CONNECTING => Some (onopen (set_socket i OPEN w, n))
      | _ => None
      end
  | EvMessage i data =>
      match sockets w !! i with
      | Some OPEN => Some (handleMessage data (w, n))
      | _ => None
      end
  | EvClose i =>
      match sockets w !! i with
      | Some CLOSED | None => None
      | Some _ => Some (onclose (set_socket i CLOSED w, n))
      end
  | EvError i =>
      match sockets w !! i with
      | Some CLOSED | None => None
      | Some _ => Some (onclose (onerror (set_socket i CLOSED w, n)))
      end
  | EvTimeout h throws =>
      if existsb (fun p => Nat.eqb h (fst p)) (timeouts w)
      then Some (reconnect_callback throws (take_timeout h w, n))
      else None
  | EvInterval h =>
      if existsb (fun p => Nat.eqb h (fst p)) (intervals w)
      then Some (send OPing w, n)
      else None
  | EvSend data => Some (send data w, n)
  | EvDisconnect => Some (disconnect w, n)
  | EvConnect throws => Some (connect throws (w, n))
  | EvElapse t => Some (w, Notif.advance_to t n)
  end.

Fixpoint execs (es : list event) (x : world) : option world :=
  match es with
  | [] => Some x
  | e :: es' =>
      match exec e x with
      | Some x' => execs es' x'
      | None => None
      end
  end.

(** Everything but a further call of [connect] by the page. *)
Definition automatic (e : event) : bool :=
  match e with
  | EvConnect _ => false
  | _ => true
  end.

Definition start : world := (constructor, Notif.constructor).

(** The states the client passes through after [connect()]. *)
Definition reachable (x : world) : Prop :=
  exists throws es,
    forallb automatic es = true /\
    execs es (connect throws start) = Some x.

(** How a connection attempt fails at once. *)
Inductive failure := ByThrow | ByClose | ByError.

(** The failure of the attempt under way: the constructor has raised
    (nothing more to deliver), or the transport ends the newest socket. *)
Definition fail_event (f : failure) (w : WebSocketManager) : list event :=
  match f with
  | ByThrow => []
  | ByClose => [EvClose (length (sockets w) - 1)%nat]
  | ByError => [EvError (length (sockets w) - 1)%nat]
  end.

Definition throws (f : failure) : bool :=
  match f with ByThrow => true | _ => false end.

(** The pending reconnect timeout fires and the new attempt fails. *)
Definition retry_and_fail (f : failure) (x : world) : option world :=
  match timeouts (fst x) with
  | (h, _) :: _ =>
      match exec (EvTimeout h (throws f)) x with
      | Some x' => execs (fail_event f (fst x')) x'
      | None => None
      end
  | [] => None
  end.

Fixpoint retries (fs : list failure) (x : world) : option world :=
  match fs with
  | [] => Some x
  | f :: fs' =>
      match retry_and_fail f x with
      | Some x' => retries fs' x'
      | None => None
      end
  end.

(** [connect()] and then [f :: fs], one failure after the other. *)
Definition failures (f : failure) (fs : list failure) : option world :=
  let x := connect (throws f) start in
  match execs (fail_event f (fst x)) x with
  | Some x' => retries fs x'
  | None => None
  end.

(** The backoff schedule [base * 2^(n-1)] for attempts [1..n]. *)
Definition backoff (n : nat) : list Z :=
  map (fun i => reconnectDelay * 2 ^ Z.of_nat i) (seq 0 n).

Definition all_closed (w : WebSocketManager) : Prop :=
  forall i r, sockets w !! i = Some r -> r = CLOSED.

(** The heartbeat is off, or it is the one interval alive and the
    current socket is open. *)
Definition heartbeat_ok (w : WebSocketManager) : Prop :=
  (heartbeatInterval w = None /\ intervals w = []) \/
  (exists h i,
     heartbeatInterval w = Some h /\
     intervals w = [(h, heartbeatPeriod)] /\
     ws w = Some i /\ sockets w !! i = Some OPEN).

(** The heartbeat handle and the live intervals agree. *)
Definition heartbeat_shape (w : WebSocketManager) : Prop :=
  (heartbeatInterval w = None /\ intervals w = []) \/
  (exists h, heartbeatInterval w = Some h /\
             intervals w = [(h, heartbeatPeriod)]).

(** What holds of the client after [connect()]: at most one thing is
    under way, a socket that is not closed (then it is the current one)
    or one pending reconnect; once the retries are used up nothing is,
    and the notifications shown then stay. *)
Definition inv (x : world) : Prop :=
  let '(w, n) := x in
  heartbeat_ok w /\
  (forall i r, sockets w !! i = Some r -> r <> CLOSED ->
               ws w = Some i /\ timeouts w = []) /\
  (length (timeouts w) <= 1)%nat /\
  (lost w <> [] ->
   timeouts w = [] /\ all_closed w /\
   maxReconnectAttempts <= reconnectAttempts w) /\
  Notif.wf n /\
  (forall id, In id (lost w) -> Notif.safe id n).

(** The client between two attempts: nothing is under way. *)
Definition idle (x : world) : Prop :=
  let '(w, n) := x in
  heartbeatInterval w = None /\ intervals w = [] /\
  all_closed w /\ timeouts w = [] /\
  (lost w <> [] -> maxReconnectAttempts <= reconnectAttempts w) /\
  Notif.wf n /\
  (forall id, In id (lost w) -> Notif.safe id n).

(** The client after [j + 1] failures in a row: the reconnect with
    delay [base * 2^j] is pending. *)
Definition backing_off (j : nat) (x : world) : Prop :=
  let '(w, n) := x in
  reconnectAttempts w = Z.of_nat j /\
  (exists h, timeouts w = [(h, reconnectDelay * 2 ^ Z.of_nat j)]) /\
  scheduled w = backoff (S j) /\
  all_closed w /\
  heartbeatInterval w = None /\
  lost w = [] /\
  n = Notif.constructor.

(** The client once a failure has found the retries used up. *)
Definition given_up (x : world) : Prop :=
  let '(w, n) := x in
  scheduled w = backoff 5 /\
  timeouts w = [] /\
  all_closed w /\
  lost w = [0%nat] /\
  n = snd (Notif.show "Connection lost. Please refresh the page."
                      "danger" 0 Notif.constructor).

End Channel.

(** ** Optimistic post pipeline ([PostManager]) *)

Module Posts.

(** A post record; [media], [timestamp] and [author] are carried along
    untouched by the pipeline and are left out.  The counts are numbers
    of the code, which are exact for integers up to [2^53]; the model
    keeps them as integers. *)
Record post := Post {
  post_id : uuid;
  content : string;
  privacy : string;
  likes : Z;
  comments : Z;
  shares : Z
}.

(** The rendered [article] of a post: its [data-post-id], whether its
    reaction button carries the class [active], and the number behind
    the text of its [.reaction-count]. *)
Record article := Article {
  data_post_id : uuid;
  active : bool;
  reaction_count : Z
}.

(** [posts] is [this.posts]; [articles] are the children of
    [#postsContainer] in document order. *)
Record PostManager := {
  posts : list post;
  articles : list article
}.

Definition constructor : PostManager := {| posts := []; articles := [] |}.

(** How the promise of [sendToServer] settles: it resolves with a
    response object or rejects with a network error. *)
Inductive settled := Resolved (success : bool) | Rejected.

(** [sendToServer(endpoint, data)]; [lucky] is [Math.random() > 0.1]. *)
Definition sendToServer (lucky : bool) : settled :=
  if lucky then Resolved true else Rejected.

(** The serialisation of a text node, [sanitizeHTML]. *)
Fixpoint sanitizeHTML (s : string) : string :=
  match s with
  | EmptyString => EmptyString
  | String c rest =>
      (if Ascii.eqb c "&" then "&amp;"
       else if Ascii.eqb c "<" then "&lt;"
       else if Ascii.eqb c ">" then "&gt;"
       else String c EmptyString) ++ sanitizeHTML rest
  end.

(** [renderPost(post, true)]: the article goes in front. *)
Definition renderPost_prepend (p : post) (m : PostManager) : PostManager :=
  {| posts := posts m;
     articles := Article (post_id p) false (likes p) :: articles m |}.

(** [createPost] up to its [await]: the record is built, put in front
    of [this.posts] and rendered; the request is then under way. *)
Definition createPost_begin (text priv : string)
    (x : PostManager * Notif.NotificationManager)
    : post * (PostManager * Notif.NotificationManager) :=
  let '(m, n) := x in
  let '(id, n1) := Notif.draw n in
  let postData := Post id (sanitizeHTML text) priv 0 0 0 in
  let m1 := {| posts := postData :: posts m; articles := articles m |} in
  (postData, (renderPost_prepend postData m1, n1)).

(** [document.querySelector('[data-post-id=...]')?.remove()] *)
Fixpoint remove_first_article (id : uuid) (l : list article) : list article :=
  match l with
  | [] => []
  | a :: rest =>
      if Nat.eqb (data_post_id a) id then rest
      else a :: remove_first_article id rest
  end.

(** [createPost] from its [await] on, once the request has settled. *)
Definition createPost_settle (postData : post) (r : settled)
    (x : PostManager * Notif.NotificationManager * Channel.WebSocketManager)
    : PostManager * Notif.NotificationManager * Channel.WebSocketManager :=
  let '(m, n, w) := x in
  match r with
  | Resolved true =>
      let n1 := snd (Notif.show_default "Post created successfully!"
                                        "success" n) in
      (m, n1, Channel.send (Channel.ONewPost (post_id postData)) w)
  | Resolved false => (m, n, w)
  | Rejected =>
      let n1 := snd (Notif.show_default
                       "Failed to create post. Please try again."
                       "danger" n) in
      ({| posts := List.filter
                     (fun p => negb (Nat.eqb (post_id p) (post_id postData)))
                     (posts m);
          articles := remove_first_article (post_id postData) (articles m) |},
       n1, w)
  end.

(** [this.posts.find(p => p.id === postId)] *)
Definition find_post (id : uuid) (m : PostManager) : option post :=
  List.find (fun p => Nat.eqb (post_id p) id) (posts m).

(** Assignment to [post.likes] of the object returned by [find]. *)
Fixpoint set_likes (id : uuid) (v : Z) (l : list post) : list post :=
  match l with
  | [] => []
  | p :: rest =>
      if Nat.eqb (post_id p) id
      then Post (post_id p) (content p) (privacy p) v (comments p) (shares p)
           :: rest
      else p :: set_likes id v rest
  end.

(** The first article with this id, as [querySelector] finds it. *)
Definition find_article (id : uuid) (m : PostManager) : option article :=
  List.find (fun a => Nat.eqb (data_post_id a) id) (articles m).

Fixpoint set_article (id : uuid) (act : bool) (count : Z)
    (l : list article) : list article :=
  match l with
  | [] => []
  | a :: rest =>
      if Nat.eqb (data_post_id a) id then Article id act count :: rest
      else a :: set_article id act count rest
  end.

(** How [toggleReaction] gets to its [await]: it returns at once when
    the post is unknown, raises when the post has no article (the
    button is [null]), and otherwise has applied the toggle. *)
Inductive started :=
| NotFound
| Raised
| Awaiting (isActive : bool) (m : PostManager).

Definition toggleReaction_begin (postId : uuid) (reactionType : string)
    (m : PostManager) : started :=
  match find_post postId m with
  | None => NotFound
  | Some p =>
      match find_article postId m with
      | None => Raised
      | Some button =>
          let isActive := active button in
          let likes' := if isActive then Z.max 0 (likes p - 1)
                        else likes p + 1 in
          Awaiting isActive
            {| posts := set_likes postId likes' (posts m);
               articles := set_article postId (negb isActive) likes'
                             (articles m) |}
      end
  end.

(** [toggleReaction] from its [await] on: a rejection is logged. *)
Definition toggleReaction_settle (r : settled)
    (x : PostManager * Notif.NotificationManager)
    : PostManager * Notif.NotificationManager :=
  match r with
  | Resolved _ => x
  | Rejected => x
  end.

Definition likes_of (id : uuid) (m : PostManager) : option Z :=
  option_map likes (find_post id m).

Definition has_post (id : uuid) (m : PostManager) : bool :=
  existsb (fun p => Nat.eqb (post_id p) id) (posts m).

End Posts.

(** ** Media selection ([MediaManager]) *)

Module Media.

(** A [File]: name, size in bytes and MIME type. *)
Record file := File {
  name : string;
  size : Z;
  type : string
}.

(** A preview element of [#mediaPreview]: its [data-file-name] and
    whether it holds an [img] or [video] child. *)
Record preview := Preview {
  data_file_name : string;
  has_media : bool
}.

(** [mediaPreview] is [None] when the page has no [#mediaPreview]. *)
Record MediaManager := {
  selectedFiles : list file;
  mediaPreview : option (list preview)
}.

Definition maxFiles : nat := 10.

Definition constructor (page_has_preview : bool) : MediaManager := {|
  selectedFiles := [];
  mediaPreview := if page_has_preview then Some [] else None
|}.

(** [s.split('.')] *)
Fixpoint split_dot (s : string) : list string :=
  match s with
  | EmptyString => [EmptyString]
  | String c rest =>
      if Ascii.eqb c "." then EmptyString :: split_dot rest
      else match split_dot rest with
           | [] => [String c EmptyString]
           | h :: t => String c h :: t
           end
  end.

(** [Array.prototype.pop] on the pieces. *)
Definition pop (l : list string) : string := List.last l EmptyString.

Definition lower (c : ascii) : ascii :=
  let n := nat_of_ascii c in
  if andb (Nat.leb 65 n) (Nat.leb n 90) then ascii_of_nat (n + 32) else c.

(** [toLowerCase] on the code units of the name. *)
Fixpoint toLowerCase (s : string) : string :=
  match s with
  | EmptyString => EmptyString
  | String c rest => String (lower c) (toLowerCase rest)
  end.

Definition extension (f : file) : string :=
  toLowerCase (pop (split_dot (name f))).

(** [CONFIG.SUPPORTED_FORMATS.includes(extension)] *)
Definition supported (ext : string) : bool :=
  existsb (String.eqb ext) CONFIG.SUPPORTED_FORMATS.

(** The two checks of [validateFile] without the notifications. *)
Definition acceptable (f : file) : bool :=
  negb (CONFIG.MAX_FILE_SIZE <? size f) && supported (extension f).

(** [validateFile(file)] *)
Definition validateFile (f : file) (n : Notif.NotificationManager)
    : bool * Notif.NotificationManager :=
  if CONFIG.MAX_FILE_SIZE <? size f then
    (false,
     snd (Notif.show_default
            ("File " ++ name f ++ " is too large (max 10MB)") "danger" n))
  else if negb (supported (extension f)) then
    (false,
     snd (Notif.show_default
            ("File type " ++ extension f ++ " not supported") "danger" n))
  else (true, n).

(** [files.filter(file => this.validateFile(file))] *)
Fixpoint filter_valid (files : list file) (n : Notif.NotificationManager)
    : list file * Notif.NotificationManager :=
  match files with
  | [] => ([], n)
  | f :: rest =>
      let '(ok, n1) := validateFile f n in
      let '(valid, n2) := filter_valid rest n1 in
      (if ok then f :: valid else valid, n2)
  end.

Definition starts_with (p s : string) : bool := String.prefix p s.

(** [createPreview(file)] *)
Definition createPreview (f : file) (m : MediaManager) : MediaManager :=
  match mediaPreview m with
  | None => m
  | Some children =>
      let media := starts_with "image/" (type f)
                   || starts_with "video/" (type f) in
      {| selectedFiles := selectedFiles m;
         mediaPreview := Some (children ++ [Preview (name f) media])%list |}
  end.

Definition push (f : file) (m : MediaManager) : MediaManager :=
  {| selectedFiles := selectedFiles m ++ [f];
     mediaPreview := mediaPreview m |}.

(** [processFiles(files)] *)
Definition processFiles (files : list file)
    (x : MediaManager * Notif.NotificationManager)
    : MediaManager * Notif.NotificationManager :=
  let '(m, n) := x in
  let '(validFiles, n1) := filter_valid files n in
  if Nat.eqb (length validFiles) 0 then
    (m, snd (Notif.show_default "No valid files selected" "warning" n1))
  else if Nat.ltb maxFiles (length (selectedFiles m) + length validFiles) then
    (m, snd (Notif.show_default "Maximum 10 files allowed" "warning" n1))
  else
    (fold_left (fun acc f => createPreview f (push f acc)) validFiles m, n1).

(** A method either returns or raises, with the fields as they are at
    that point. *)
Inductive outcome := Returned (m : MediaManager) | Threw (m : MediaManager).

Definition after (o : outcome) : MediaManager :=
  match o with Returned m | Threw m => m end.

Fixpoint remove_first_preview (fileName : string) (l : list preview)
    : list preview :=
  match l with
  | [] => []
  | p :: rest =>
      if String.eqb (data_file_name p) fileName then rest
      else p :: remove_first_preview fileName rest
  end.

(** [removeFile(fileName)]: reading [.src] of a preview without an
    [img] or [video] child raises, after the list has been filtered.
    The preview is looked up with the selector
    [[data-file-name="fileName"]], which finds the first preview of
    that name when the name can stand between the quotes as it is
    ([MediaMore.selector_safe]); with a quote, a backslash or a line
    break in the name the selector is another one, or none. *)
Definition removeFile (fileName : string) (m : MediaManager) : outcome :=
  let kept := List.filter (fun f => negb (String.eqb (name f) fileName))
                          (selectedFiles m) in
  match mediaPreview m with
  | None => Returned {| selectedFiles := kept; mediaPreview := None |}
  | Some children =>
      match List.find (fun p => String.eqb (data_file_name p) fileName)
                      children with
      | None => Returned {| selectedFiles := kept;
                            mediaPreview := Some children |}
      | Some p =>
          if has_media p then
            Returned {| selectedFiles := kept;
                        mediaPreview :=
                          Some (remove_first_preview fileName children) |}
          else Threw {| selectedFiles := kept;
                        mediaPreview := Some children |}
      end
  end.

(** [clearAll()], for a selection whose names can stand in a selector
    as they are: the loop over the files only revokes object URLs. *)
Definition clearAll (m : MediaManager) : MediaManager :=
  {| selectedFiles := [];
     mediaPreview := match mediaPreview m with
                     | Some _ => Some []
                     | None => None
                     end |}.

(** [uploadFiles()] reads the list and leaves it as it is. *)
Definition uploadFiles (m : MediaManager) : MediaManager := m.

(** The operations of the manager; file inputs and drops both end in
    [processFiles]. *)
Inductive op :=
| ProcessFiles (files : list file)
| RemoveFile (fileName : string)
| ClearAll
| UploadFiles.

Definition step (o : op) (x : MediaManager * Notif.NotificationManager)
    : MediaManager * Notif.NotificationManager :=
  match o with
  | ProcessFiles files => processFiles files x
  | RemoveFile fileName => (after (removeFile fileName (fst x)), snd x)
  | ClearAll => (clearAll (fst x), snd x)
  | UploadFiles => (uploadFiles (fst x), snd x)
  end.

Definition steps (os : list op) (x : MediaManager * Notif.NotificationManager)
    : MediaManager * Notif.NotificationManager :=
  fold_left (fun acc o => step o acc) os x.

(** What the user reads on a toast: its message and its type. *)
Definition describe (t : Notif.toast) : string * string :=
  (Notif.toast_msg t, Notif.toast_type t).

(** The toast [validateFile] owes to a file it rejects. *)
Definition rejection (f : file) : string * string :=
  if CONFIG.MAX_FILE_SIZE <? size f
  then ("File " ++ name f ++ " is too large (max 10MB)", "danger")
  else ("File type " ++ extension f ++ " not supported", "danger").

End Media.

(** ** Further notions for the notification queue and the channel client *)

Module NotifMore.
Import Notif.

(** The toast [id] is tracked and no pending timer dismisses it before
    [start]: its auto-dismiss timers are due at [start] or later, its
    removal closures 300 ms after that. *)
Definition lasting (id : uuid) (start : Z) (s : NotificationManager) : Prop :=
  tracked id s = true /\
  forall x, In x (timers s) ->
            (act x = Remove id -> start <= due x) /\
            (act x = Finalize id -> start + 300 <= due x).

End NotifMore.

Module ChannelMore.
Import Channel.

(** The pending reconnect fires, the new socket opens and is closed
    again by the transport. *)
Definition recover (x : world) : option world :=
  match timeouts (fst x) with
  | (h, _) :: _ =>
      let i := length (sockets (fst x)) in
      execs [EvTimeout h false; EvOpen i; EvClose i] x
  | [] => None
  end.

(** The current socket, when it is open. *)
Definition open_socket (w : WebSocketManager) : option nat :=
  match ws w with
  | Some i =>
      match sockets w !! i with
      | Some OPEN => Some i
      | _ => None
      end
  | None => None
  end.

(** While the current socket is open the retry counter is 0. *)
Definition fresh_while_open (w : WebSocketManager) : Prop :=
  forall i, ws w = Some i -> sockets w !! i = Some OPEN ->
            reconnectAttempts w = 0.

End ChannelMore.

(** ** Further notions for the media selection and the post pipeline *)

Module MediaMore.
Import Media.

(** The string has no dot. *)
Fixpoint dotless (s : string) : bool :=
  match s with
  | EmptyString => true
  | String c rest => negb (Ascii.eqb c ".") && dotless rest
  end.

(** How many selected files, and how many previews, carry a name. *)
Definition files_named (n : string) (l : list file) : nat :=
  length (List.filter (fun f => String.eqb (name f) n) l).

Definition previews_named (n : string) (l : list preview) : nat :=
  length (List.filter (fun p => String.eqb (data_file_name p) n) l).

Definition previews (m : MediaManager) : list preview :=
  match mediaPreview m with Some l => l | None => [] end.

(** The string can stand between the quotes of the selector
    [[data-file-name="..."]] as it is: it has no quote, no backslash,
    no line break (line feed, form feed, carriage return) and no null
    character. *)
Fixpoint selector_safe (s : string) : bool :=
  match s with
  | EmptyString => true
  | String c rest =>
      negb (existsb (Nat.eqb (nat_of_ascii c)) [0; 10; 12; 13; 34; 92]%nat)
      && selector_safe rest
  end.

End MediaMore.

Module PostsMore.
Import Posts.

(** What the page does to the feed: a post is created, its request
    settles, a reaction is toggled. *)
Inductive op :=
| Create (text priv : string)
| Settle (postData : post) (r : settled)
| Toggle (postId : uuid) (reactionType : string).

Definition feed : Type :=
  PostManager * Notif.NotificationManager * Channel.WebSocketManager.

Definition step (o : op) (x : feed) : feed :=
  let '(m, n, w) := x in
  match o with
  | Create text priv =>
      let '(_, (m1, n1)) := createPost_begin text priv (m, n) in (m1, n1, w)
  | Settle postData r => createPost_settle postData r x
  | Toggle postId reactionType =>
      match toggleReaction_begin postId reactionType m with
      | Awaiting _ m1 => (m1, n, w)
      | _ => x
      end
  end.

Definition steps (os : list op) (x : feed) : feed :=
  fold_left (fun acc o => step o acc) os x.

Definition start : feed :=
  (constructor, Notif.constructor, Channel.constructor).

End PostsMore.

(** ** Utility functions ([debounce], [throttle], [timeAgo]) *)

Module Debounce.
Section Closure.
Variable A : Type.

(** The closure returned by [debounce(func, wait, immediate)] and the
    page state it acts on.  [timeout] is the closure variable; [pending]
    holds the timeouts armed and neither fired nor cleared, each with its
    handle, its due time and the arguments of the call that armed it, in
    the order they were armed (which is the order they fire in, the
    delay being the same for all); [calls] is the trace of
    [func(...args)], with the time of each call. *)
Record debounced := {
  timeout : option nat;
  pending : list (nat * (Z * A));
  next_handle : nat;
  now : Z;
  calls : list (Z * A)
}.

Definition create : debounced := {|
  timeout := None;
  pending := [];
  next_handle := 1;
  now := 0;
  calls := []
|}.

(** [clearTimeout(timeout)] *)
Definition clearTimeout (h : option nat) (l : list (nat * (Z * A)))
    : list (nat * (Z * A)) :=
  match h with
  | Some h => List.filter (fun p => negb (Nat.eqb h (fst p))) l
  | None => l
  end.

(** [executedFunction(...args)] *)
Definition executedFunction (wait : Z) (immediate : bool) (args : A)
    (s : debounced) : debounced :=
  let callNow := immediate &&
                 match timeout s with Some _ => false | None => true end in
  {| timeout := Some (next_handle s);
     pending := clearTimeout (timeout s) (pending s) ++
                [(next_handle s, (now s + timer_delay wait, args))];
     next_handle := S (next_handle s);
     now := now s;
     calls := if callNow then calls s ++ [(now s, args)] else calls s |}.

(** [later], the callback of a timeout, run at the due time. *)
Definition later (immediate : bool) (p : nat * (Z * A)) (s : debounced)
    : debounced :=
  let t := Z.max (now s) (fst (snd p)) in
  {| timeout := None;
     pending := pending s;
     next_handle := next_handle s;
     now := t;
     calls := if immediate then calls s else calls s ++ [(t, snd (snd p))] |}.

(** The clock reaches [t]: the timeouts due by then fire. *)
Definition elapse (immediate : bool) (t : Z) (s : debounced) : debounced :=
  let due := List.filter (fun p => fst (snd p) <=? t) (pending s) in
  let rest := List.filter (fun p => negb (fst (snd p) <=? t)) (pending s) in
  let s1 := fold_left (fun acc p => later immediate p acc) due
              {| timeout := timeout s;
                 pending := rest;
                 next_handle := next_handle s;
                 now := now s;
                 calls := calls s |} in
  {| timeout := timeout s1;
     pending := pending s1;
     next_handle := next_handle s1;
     now := Z.max (now s1) t;
     calls := calls s1 |}.

(** A call of the debounced function at time [t]. *)
Definition call (wait : Z) (immediate : bool) (c : Z * A) (s : debounced)
    : debounced :=
  executedFunction wait immediate (snd c) (elapse immediate (fst c) s).

Definition run (wait : Z) (immediate : bool) (cs : list (Z * A))
    (s : debounced) : debounced :=
  fold_left (fun acc c => call wait immediate c acc) cs s.

(** Calls that follow [t] with less than [wait] between one and the
    next. *)
Fixpoint burst (wait : Z) (t : Z) (cs : list (Z * A)) : Prop :=
  match cs with
  | [] => True
  | c :: rest => t <= fst c /\ fst c < t + wait /\ burst wait (fst c) rest
  end.

(** Nothing is armed. *)
Definition idle (s : debounced) : Prop :=
  timeout s = None /\ pending s = [].

(** The last call of a burst that starts with [c]. *)
Definition final (c : Z * A) (cs : list (Z * A)) : Z * A := List.last cs c.

(** The timeout armed by the call [c] is the one pending. *)
Definition armed (wait : Z) (c : Z * A) (s : debounced) : Prop :=
  exists h,
    timeout s = Some h /\
    pending s = [(h, (fst c + wait, snd c))] /\
    now s = fst c.

End Closure.
End Debounce.

Module Throttle.
Section Closure.
Variable A : Type.

(** The closure returned by [throttle(func, limit)]: the flag
    [inThrottle], the due times of the timeouts that reset it, the clock
    and the trace of [func.apply(this, args)]. *)
Record throttled := {
  inThrottle : bool;
  releases : list Z;
  now : Z;
  calls : list (Z * A)
}.

Definition create : throttled := {|
  inThrottle := false;
  releases := [];
  now := 0;
  calls := []
|}.

(** The function returned by [throttle]. *)
Definition invoke (limit : Z) (args : A) (s : throttled) : throttled :=
  if inThrottle s then s
  else {| inThrottle := true;
          releases := releases s ++ [now s + timer_delay limit];
          now := now s;
          calls := calls s ++ [(now s, args)] |}.

(** The clock reaches [t]: the timeouts due by then reset the flag. *)
Definition elapse (t : Z) (s : throttled) : throttled :=
  {| inThrottle := if existsb (fun d => d <=? t) (releases s) then false
                   else inThrottle s;
     releases := List.filter (fun d => negb (d <=? t)) (releases s);
     now := Z.max (now s) t;
     calls := calls s |}.

Definition call (limit : Z) (c : Z * A) (s : throttled) : throttled :=
  invoke limit (snd c) (elapse (fst c) s).

Definition run (limit : Z) (cs : list (Z * A)) (s : throttled) : throttled :=
  fold_left (fun acc c => call limit c acc) cs s.




(** The state between calls, [last] being the time of the last call
    that got through. *)
Definition settled (limit : Z) (last : option Z) (s : throttled) : Prop :=
  match last with
  | None => inThrottle s = false /\ releases s = []
  | Some l =>
      (inThrottle s = true /\ releases s = [l + limit]) \/
      (inThrottle s = false /\ releases s = [] /\ l + limit <= now s)
  end.

End Closure.
End Throttle.

Module TimeAgo.

(** The units of [timeAgo], largest first, with their seconds. *)
Definition intervals : list (string * Z) :=
  [("year", 31536000); ("month", 2592000); ("week", 604800);
   ("day", 86400); ("hour", 3600); ("minute", 60)].

(** A count as the template literal prints it. *)
Definition number (n : Z) : string := NilZero.string_of_int (Z.to_int n).

(** The template literal of [timeAgo]. *)
Definition phrase (count : Z) (label : string) : string :=
  number count ++ " " ++ label ++ (if 1 <? count then "s" else "") ++ " ago".

(** The loop over the units. *)
Fixpoint scan (diffInSeconds : Z) (l : list (string * Z)) : string :=
  match l with
  | [] => "Just now"
  | (label, seconds) :: rest =>
      let count := diffInSeconds / seconds in
      if 1 <=? count then phrase count label else scan diffInSeconds rest
  end.

(** [timeAgo(date)]; [now] and [date] are the two instants in
    milliseconds since the epoch. *)
Definition timeAgo (now date : Z) : string :=
  scan ((now - date) / 1000) intervals.

End TimeAgo.

(** ** Theme ([ThemeManager]) *)

Module Theme.

(** [currentTheme] is the instance field; the rest is the page state the
    manager acts on: the item stored under [THEME_STORAGE_KEY], the
    [data-bs-theme] attribute of the document element, the class of the
    icon inside [#themeToggle] ([None] when the page has no such icon)
    and the class of the body. *)
Record ThemeManager := {
  currentTheme : string;
  stored : option string;
  data_bs_theme : option string;
  icon : option string;
  body_class : string
}.

(** The page before the manager is built. *)
Definition page (item : option string) (has_icon : bool) : ThemeManager := {|
  currentTheme := "";
  stored := item;
  data_bs_theme := None;
  icon := if has_icon then Some "" else None;
  body_class := ""
|}.

(** [applyTheme(theme)] *)
Definition applyTheme (theme : string)
    (x : ThemeManager * Store.StateManager)
    : ThemeManager * Store.StateManager :=
  let '(tm, st) := x in
  ({| currentTheme := currentTheme tm;
      stored := stored tm;
      data_bs_theme := Some theme;
      icon := match icon tm with
              | Some _ => Some (if String.eqb theme "light"
                                then "bi bi-moon-stars" else "bi bi-sun")
              | None => None
              end;
      body_class := body_class tm |},
   Store.setState "theme" (Store.VStr theme) st).

(** [localStorage.getItem(key) || 'light'] *)
Definition preference (item : option string) : string :=
  match item with
  | Some s => if String.eqb s "" then "light" else s
  | None => "light"
  end.

(** [new ThemeManager()] on a page. *)
Definition constructor (x : ThemeManager * Store.StateManager)
    : ThemeManager * Store.StateManager :=
  let '(tm, st) := x in
  let theme := preference (stored tm) in
  applyTheme theme
    ({| currentTheme := theme;
        stored := stored tm;
        data_bs_theme := data_bs_theme tm;
        icon := icon tm;
        body_class := body_class tm |}, st).

(** [saveTheme()] *)
Definition saveTheme (tm : ThemeManager) : ThemeManager :=
  {| currentTheme := currentTheme tm;
     stored := Some (currentTheme tm);
     data_bs_theme := data_bs_theme tm;
     icon := icon tm;
     body_class := body_class tm |}.

(** [toggleTheme()] *)
Definition toggleTheme (x : ThemeManager * Store.StateManager)
    : ThemeManager * Store.StateManager :=
  let '(tm, st) := x in
  let theme := if String.eqb (currentTheme tm) "light" then "dark"
               else "light" in
  let '(tm1, st1) :=
    applyTheme theme
      ({| currentTheme := theme;
          stored := stored tm;
          data_bs_theme := data_bs_theme tm;
          icon := icon tm;
          body_class := body_class tm |}, st) in
  (saveTheme tm1, st1).

(** [setCustomTheme(themeName)] *)
Definition setCustomTheme (themeName : string) (tm : ThemeManager)
    : ThemeManager :=
  saveTheme {| currentTheme := currentTheme tm;
               stored := stored tm;
               data_bs_theme := data_bs_theme tm;
               icon := icon tm;
               body_class := "theme-" ++ themeName |}.

(** The page after a reload: the stored item survives, the rest is
    built anew. *)
Definition reload (tm : ThemeManager) (st : Store.StateManager)
    : ThemeManager * Store.StateManager :=
  constructor (page (stored tm)
                    (match icon tm with Some _ => true | None => false end),
               st).

End Theme.

(** ** Loading further posts ([PostManager.loadMore]) *)

Module Feed.

Definition POSTS_PER_PAGE : nat := 10.

(** What [Math.random] decides for one demo post. *)
Record demo := Demo {
  demo_content : string;
  demo_likes : Z;
  demo_comments : Z;
  demo_shares : Z
}.

(** [generateDemoPosts(count)]: post [i] draws its id and then the id of
    its author from [generateUUID]; [random i] stands for the random
    choices of post [i].  A demo post has no [privacy]. *)
Fixpoint generateDemoPosts (count : nat) (random : nat -> demo) (i : nat)
    (n : Notif.NotificationManager)
    : list Posts.post * Notif.NotificationManager :=
  match count with
  | O => ([], n)
  | S count' =>
      let '(id, n1) := Notif.draw n in
      let '(_, n2) := Notif.draw n1 in
      let d := random i in
      let '(rest, n3) := generateDemoPosts count' random (S i) n2 in
      (Posts.Post id (demo_content d) "" (demo_likes d) (demo_comments d)
                  (demo_shares d) :: rest, n3)
  end.

(** [renderPost(post)]: the article goes last. *)
Definition renderPost (p : Posts.post) (m : Posts.PostManager)
    : Posts.PostManager :=
  {| Posts.posts := Posts.posts m;
     Posts.articles := (Posts.articles m ++
                        [Posts.Article (Posts.post_id p) false
                                       (Posts.likes p)])%list |}.

(** The [#loadMore] button: [spinner] is [None] when the button has no
    [.spinner-border] child and otherwise tells whether the spinner
    carries the class [d-none]. *)
Record Button := {
  disabled : bool;
  textContent : string;
  spinner : option bool
}.

(** The page around [loadMore]: the feed, the fields [currentPage],
    [isLoading] and [hasMore] of the [PostManager], the button if the
    page has one, the number of [loadMore] calls waiting at their
    [await], and the ids of the posts rendered by [loadMore] so far. *)
Record FeedState := {
  world : PostsMore.feed;
  currentPage : Z;
  isLoading : bool;
  hasMore : bool;
  loadMoreBtn : option Button;
  suspended : nat;
  loaded : list uuid
}.

(** [new PostManager()] on a fresh page. *)
Definition constructor (button : option Button) : FeedState := {|
  world := PostsMore.start;
  currentPage := 1;
  isLoading := false;
  hasMore := true;
  loadMoreBtn := button;
  suspended := 0;
  loaded := []
|}.

(** How [loadMore] gets to its [await]: it returns at once, raises a
    [TypeError] on a missing button or spinner, or waits. *)
Inductive began := Skipped | Threw | Waiting.

(** [loadMore()] up to its [await]. *)
Definition loadMore_begin (f : FeedState) : began * FeedState :=
  if isLoading f || negb (hasMore f) then (Skipped, f)
  else
    let busy (btn : option Button) (k : nat) :=
      {| world := world f;
         currentPage := currentPage f;
         isLoading := true;
         hasMore := hasMore f;
         loadMoreBtn := btn;
         suspended := k;
         loaded := loaded f |} in
    match loadMoreBtn f with
    | None => (Threw, busy None (suspended f))
    | Some b =>
        match spinner b with
        | None => (Threw, busy (Some b) (suspended f))
        | Some _ =>
            (Waiting,
             busy (Some {| disabled := true;
                           textContent := textContent b;
                           spinner := Some false |})
                  (S (suspended f)))
        end
    end.

(** [loadMore()] from its [await] on, the [finally] block included.
    Nothing in the [try] block raises on a page with a
    [#postsContainer], which [Posts] assumes. *)
Definition loadMore_resume (random : nat -> demo) (f : FeedState)
    : FeedState :=
  let '(m, n, w) := world f in
  let '(newPosts, n') := generateDemoPosts POSTS_PER_PAGE random 0 n in
  let page := currentPage f + 1 in
  {| world := (fold_left (fun m p => renderPost p m) newPosts m, n', w);
     currentPage := page;
     isLoading := false;
     hasMore := if 3 <? page then false else hasMore f;
     loadMoreBtn :=
       option_map
         (fun b => {| disabled := false;
                      textContent := if 3 <? page then "No more posts"
                                     else textContent b;
                      spinner := option_map (fun _ => true) (spinner b) |})
         (loadMoreBtn f);
     suspended := pred (suspended f);
     loaded := (loaded f ++ map Posts.post_id newPosts)%list |}.

(** What happens on the page: the button is clicked or the page is
    scrolled near its end, the second of simulated loading of a waiting
    call is over, or the feed is used otherwise. *)
Inductive event :=
| Call
| Loaded (random : nat -> demo)
| Page (o : PostsMore.op).

Definition exec (e : event) (f : FeedState) : option FeedState :=
  match e with
  | Call => Some (snd (loadMore_begin f))
  | Loaded random =>
      match suspended f with
      | O => None
      | S _ => Some (loadMore_resume random f)
      end
  | Page o =>
      Some {| world := PostsMore.step o (world f);
              currentPage := currentPage f;
              isLoading := isLoading f;
              hasMore := hasMore f;
              loadMoreBtn := loadMoreBtn f;
              suspended := suspended f;
              loaded := loaded f |}
  end.

Fixpoint execs (es : list event) (f : FeedState) : option FeedState :=
  match es with
  | [] => Some f
  | e :: es' =>
      match exec e f with
      | Some f' => execs es' f'
      | None => None
      end
  end.

Definition manager (f : FeedState) : Posts.PostManager := fst (fst (world f)).

Definition notifier (f : FeedState) : Notif.NotificationManager :=
  snd (fst (world f)).

(** The button can be used by [loadMore]. *)
Definition usable (button : option Button) : bool :=
  match button with
  | Some b => match spinner b with Some _ => true | None => false end
  | None => false
  end.


Definition fresh (f : FeedState) : Prop :=
  (forall p, In p (Posts.posts (manager f)) ->
             (Posts.post_id p < Notif.seed (notifier f))%nat) /\
  (forall id, In id (loaded f) ->
              (id < Notif.seed (notifier f))%nat /\
              ~ In id (map Posts.post_id (Posts.posts (manager f)))).

End Feed.

(** ** Presence messages ([WebSocketManager.handleMessage]) *)

Module Presence.

(** The [Set] objects of the page, by reference, next to the store that
    holds the references. *)
Record page := {
  store : Store.StateManager;
  sets : gmap nat (gset string)
}.

(** The page after [new StateManager()]. *)
Definition start : page := {|
  store := Store.constructor;
  sets := <[2%nat := ∅]> (<[3%nat := ∅]> ∅)
|}.

(** The presence envelopes, with their [payload.userId]. *)
Inductive presence :=
| user_online (userId : string)
| user_offline (userId : string)
| typing_start (userId : string)
| typing_stop (userId : string).

(** [appState.getState(key).add(userId)] and [.delete(userId)], [f]
    being what the method does to the set.  When the value under [key]
    is not a [Set] the call raises a [TypeError], which [onmessage]
    catches and logs. *)
Definition update (key : string) (f : gset string -> gset string)
    (p : page) : page :=
  match Store.getState key (store p) with
  | Store.VRef r =>
      match sets p !! r with
      | Some s => {| store := store p; sets := <[r := f s]> (sets p) |}
      | None => p
      end
  | _ => p
  end.

(** The presence cases of [handleMessage(data)]. *)
Definition handleMessage (data : presence) (p : page) : page :=
  match data with
  | user_online u => update "onlineUsers" (fun s => s ∪ {[u]}) p
  | user_offline u => update "onlineUsers" (fun s => s ∖ {[u]}) p
  | typing_start u => update "typingUsers" (fun s => s ∪ {[u]}) p
  | typing_stop u => update "typingUsers" (fun s => s ∖ {[u]}) p
  end.

Definition handleMessages (ms : list presence) (p : page) : page :=
  fold_left (fun acc m => handleMessage m acc) ms p.

(** [appState.getState(key).has(userId)] *)
Definition has (key : string) (u : string) (p : page) : bool :=
  match Store.getState key (store p) with
  | Store.VRef r =>
      match sets p !! r with
      | Some s => bool_decide (u ∈ s)
      | None => false
      end
  | _ => false
  end.

(** What the messages say about [u], going by the last one that names
    [u]; [before] when none does. *)
Fixpoint online (u : string) (ms : list presence) (before : bool) : bool :=
  match ms with
  | [] => before
  | user_online v :: rest =>
      online u rest (if String.eqb u v then true else before)
  | user_offline v :: rest =>
      online u rest (if String.eqb u v then false else before)
  | _ :: rest => online u rest before
  end.

Fixpoint typing (u : string) (ms : list presence) (before : bool) : bool :=
  match ms with
  | [] => before
  | typing_start v :: rest =>
      typing u rest (if String.eqb u v then true else before)
  | typing_stop v :: rest =>
      typing u rest (if String.eqb u v then false else before)
  | _ :: rest => typing u rest before
  end.

(** The two keys hold references to two different [Set] objects. *)
Definition wired (p : page) : Prop :=
  exists a b,
    Store.getState "onlineUsers" (store p) = Store.VRef a /\
    Store.getState "typingUsers" (store p) = Store.VRef b /\
    a <> b /\ is_Some (sets p !! a) /\ is_Some (sets p !! b).

End Presence.

(** ** Submitting the post form (the global [createPost]) *)

Module Submit.

(** The post form: the value of [#postTextarea], the [disabled] flag and
    the text of [#submitPost], and the text and class of [#charCount]
    ([None] on a page without the counter).  The page has the textarea
    and the button; without them the function raises at once. *)
Record Form := {
  value : string;
  disabled : bool;
  textContent : string;
  charCount : option (Z * string)
}.

Record page := {
  form : Form;
  media : Media.MediaManager;
  world : PostsMore.feed
}.

(** [updateCharacterCount()] *)
Definition updateCharacterCount (f : Form) : Form :=
  match charCount f with
  | Some _ =>
      let remaining := 280 - Z.of_nat (String.length (value f)) in
      {| value := value f;
         disabled := disabled f;
         textContent := textContent f;
         charCount :=
           Some (remaining,
                 if remaining <? 20 then "text-danger"
                 else if remaining <? 50 then "text-warning"
                 else "text-muted") |}
  | None => f
  end.

Section Trim.

(** [String.prototype.trim] *)
Variable trim : string -> string.

(** How the global [createPost] gets to its first [await]: it has only
    warned, it waits for the upload, or it waits for
    [postManager.createPost], which has built and rendered [postData]. *)
Inductive begun :=
| Warned
| Uploading (content originalText : string)
| Posting (content originalText : string) (postData : Posts.post).

(** The call [postManager.createPost(content, media)], up to its
    [await]. *)
Definition post (content originalText : string) (x : page) : begun * page :=
  let '(m, n, w) := world x in
  let '(postData, (m1, n1)) :=
    Posts.createPost_begin content "public" (m, n) in
  (Posting content originalText postData,
   {| form := form x; media := media x; world := (m1, n1, w) |}).

(** [createPost()] up to its first [await]. *)
Definition createPost_begin (x : page) : begun * page :=
  let content := trim (value (form x)) in
  if String.eqb content "" &&
     Nat.eqb (length (Media.selectedFiles (media x))) 0
  then
    let '(m, n, w) := world x in
    (Warned,
     {| form := form x;
        media := media x;
        world := (m,
                  snd (Notif.show_default
                         "Please enter some content or select media"
                         "warning" n),
                  w) |})
  else
    let originalText := textContent (form x) in
    let x1 := {| form := {| value := value (form x);
                            disabled := true;
                            textContent := "Posting...";
                            charCount := charCount (form x) |};
                 media := media x;
                 world := world x |} in
    if Nat.ltb 0 (length (Media.selectedFiles (media x)))
    then (Uploading content originalText, x1)
    else post content originalText x1.

(** [createPost()] once [uploadFiles] has resolved. *)
Definition createPost_uploaded (content originalText : string) (x : page)
    : begun * page :=
  post content originalText
       {| form := form x;
          media := Media.uploadFiles (media x);
          world := world x |}.

(** [createPost()] once the request of [postManager.createPost] has
    settled: that call ends, the form is cleared and the [finally] block
    runs. *)
Definition createPost_finish (originalText : string) (postData : Posts.post)
    (r : Posts.settled) (x : page) : page :=
  let counted :=
    updateCharacterCount {| value := "";
                            disabled := disabled (form x);
                            textContent := textContent (form x);
                            charCount := charCount (form x) |} in
  {| form := {| value := value counted;
                disabled := false;
                textContent := originalText;
                charCount := charCount counted |};
     media := Media.clearAll (media x);
     world := Posts.createPost_settle postData r (world x) |}.

(** One submission from start to end with nothing else happening in
    between; [r] is how the request settles. *)
Definition submit (r : Posts.settled) (x : page) : page :=
  match createPost_begin x with
  | (Warned, x1) => x1
  | (Uploading content originalText, x1) =>
      match createPost_uploaded content originalText x1 with
      | (Posting _ originalText' postData, x2) =>
          createPost_finish originalText' postData r x2
      | (_, x2) => x2
      end
  | (Posting _ originalText postData, x1) =>
      createPost_finish originalText postData r x1
  end.

End Trim.

Definition manager (x : page) : Posts.PostManager := fst (fst (world x)).

Definition notifier (x : page) : Notif.NotificationManager :=
  snd (fst (world x)).

End Submit.

(** ** Loading screen ([LoadingManager]) *)

Module Loading.

(** [#loadingScreen]: its inline [style.display] ([None] while unset)
    and whether it carries the class [fade-out]. *)
Record screen := {
  display : option string;
  fade_out : bool
}.

(** [loadingScreen] is [None] on a page without the element; [timers]
    holds the due times of the timeouts armed by [hide] and not yet
    fired. *)
Record LoadingManager := {
  loadingScreen : option screen;
  isLoading : bool;
  timers : list Z;
  now : Z
}.

(** [new LoadingManager()] *)
Definition constructor (element : option screen) : LoadingManager := {|
  loadingScreen := element;
  isLoading := true;
  timers := [];
  now := 0
|}.

(** [hide()] *)
Definition hide (s : LoadingManager) : LoadingManager :=
  match loadingScreen s with
  | Some e =>
      if isLoading s then
        {| loadingScreen := Some {| display := display e; fade_out := true |};
           isLoading := isLoading s;
           timers := timers s ++ [now s + 500];
           now := now s |}
      else s
  | None => s
  end.

(** The callback of the timeout armed by [hide]; it runs only where
    [hide] has found the element. *)
Definition hidden (s : LoadingManager) : LoadingManager :=
  {| loadingScreen :=
       match loadingScreen s with
       | Some e => Some {| display := Some "none"; fade_out := fade_out e |}
       | None => None
       end;
     isLoading := false;
     timers := timers s;
     now := now s |}.

(** [show()] *)
Definition show (s : LoadingManager) : LoadingManager :=
  match loadingScreen s with
  | Some e =>
      {| loadingScreen := Some {| display := Some "flex"; fade_out := false |};
         isLoading := true;
         timers := timers s;
         now := now s |}
  | None => s
  end.

(** The clock reaches [t]: the timeouts due by then fire. *)
Definition elapse (t : Z) (s : LoadingManager) : LoadingManager :=
  let due := List.filter (fun d => d <=? t) (timers s) in
  let s1 := fold_left (fun acc _ => hidden acc) due
              {| loadingScreen := loadingScreen s;
                 isLoading := isLoading s;
                 timers := List.filter (fun d => negb (d <=? t)) (timers s);
                 now := now s |} in
  {| loadingScreen := loadingScreen s1;
     isLoading := isLoading s1;
     timers := timers s1;
     now := Z.max (now s1) t |}.

(** What is done to the manager, each call at its time; a timeout due
    at the time of a call fires before the call. *)
Inductive op := Hide (t : Z) | ShowScreen (t : Z) | Elapse (t : Z).

Definition step (o : op) (s : LoadingManager) : LoadingManager :=
  match o with
  | Hide t => hide (elapse t s)
  | ShowScreen t => show (elapse t s)
  | Elapse t => elapse t s
  end.

Definition steps (os : list op) (s : LoadingManager) : LoadingManager :=
  fold_left (fun acc o => step o acc) os s.

(** The screen is on view as far as the inline style goes. *)
Definition visible (s : LoadingManager) : bool :=
  match loadingScreen s with
  | Some e =>
      match display e with
      | Some d => negb (String.eqb d "none")
      | None => true
      end
  | None => false
  end.

End Loading.

(** ** Typing indicator ([ChatManager.sendTypingIndicator]) *)

Module Chat.

Definition TYPING_TIMEOUT : Z := 3000.

(** [typingTimeouts] is the [Map] from user id to timeout handle;
    [pending] holds the timeouts armed and neither fired nor cleared,
    each with its handle, its delay and the user id of its closure;
    [sends] is the trace of the calls of [wsManager.send], each with
    the [type] of the envelope and its [payload.userId]. *)
Record ChatManager := {
  typingTimeouts : gmap string nat;
  pending : list (nat * (Z * string));
  next_handle : nat;
  sends : list (string * string)
}.

(** [new ChatManager()]; timer handles are positive. *)
Definition constructor : ChatManager := {|
  typingTimeouts := ∅;
  pending := [];
  next_handle := 1;
  sends := []
|}.

(** [clearTimeout(handle)] *)
Definition clearTimeout (h : nat) (l : list (nat * (Z * string)))
    : list (nat * (Z * string)) :=
  List.filter (fun p => negb (Nat.eqb h (fst p))) l.

(** [sendTypingIndicator(userId)] *)
Definition sendTypingIndicator (userId : string) (s : ChatManager)
    : ChatManager :=
  let cleared := match typingTimeouts s !! userId with
                 | Some h => clearTimeout h (pending s)
                 | None => pending s
                 end in
  {| typingTimeouts := <[userId := next_handle s]> (typingTimeouts s);
     pending := cleared ++ [(next_handle s, (TYPING_TIMEOUT, userId))];
     next_handle := S (next_handle s);
     sends := sends s ++ [("typing_start", userId)] |}.

(** The callback of the timeout armed for [userId]. *)
Definition callback (userId : string) (s : ChatManager) : ChatManager :=
  {| typingTimeouts := delete userId (typingTimeouts s);
     pending := pending s;
     next_handle := next_handle s;
     sends := sends s ++ [("typing_stop", userId)] |}.

(** What happens to the manager: the indicator is sent for a user, or
    one of the pending timeouts fires. *)
Inductive event :=
| Typing (userId : string)
| Fires (h : nat).

(** One event; [None] when no timeout with this handle is pending. *)
Definition exec (e : event) (s : ChatManager) : option ChatManager :=
  match e with
  | Typing userId => Some (sendTypingIndicator userId s)
  | Fires h =>
      match List.find (fun p => Nat.eqb h (fst p)) (pending s) with
      | Some (_, (_, userId)) =>
          Some (callback userId
                  {| typingTimeouts := typingTimeouts s;
                     pending := clearTimeout h (pending s);
                     next_handle := next_handle s;
                     sends := sends s |})
      | None => None
      end
  end.

Fixpoint execs (es : list event) (s : ChatManager) : option ChatManager :=
  match es with
  | [] => Some s
  | e :: es' =>
      match exec e s with
      | Some s' => execs es' s'
      | None => None
      end
  end.

(** The last envelope sent about [userId] was [typing_start]. *)
Definition typing (userId : string) (l : list (string * string)) : bool :=
  fold_left (fun acc m => if String.eqb (snd m) userId
                          then String.eqb (fst m) "typing_start"
                          else acc) l false.

(** The map and the pending timeouts agree, handles are not reused, and
    a user counts as typing exactly while a timeout is held for them. *)
Definition inv (s : ChatManager) : Prop :=
  (forall u h, typingTimeouts s !! u = Some h <->
               In (h, (TYPING_TIMEOUT, u)) (pending s)) /\
  (forall h d u, In (h, (d, u)) (pending s) ->
                 (h < next_handle s)%nat /\ d = TYPING_TIMEOUT) /\
  (forall h d u d' u', In (h, (d, u)) (pending s) ->
                       In (h, (d', u')) (pending s) -> u = u') /\
  (forall u, typing u (sends s) = true <->
             is_Some (typingTimeouts s !! u)).

End Chat.

(** * Properties *)

(** ** State store *)

Section TimerFacts.

Lemma timer_delay_small (d : Z) : 0 <= d < 2 ^ 31 -> timer_delay d = d.
Proof.
  intros H. unfold timer_delay, toInt32.
  rewrite Z.mod_small by lia. lia.
Qed.

Lemma timer_delay_nonneg (d : Z) : 0 <= timer_delay d.
Proof. unfold timer_delay. lia. Qed.

Lemma timer_delay_le (d : Z) : 0 <= d -> timer_delay d <= d.
Proof.
  intros H. unfold timer_delay, toInt32.
  pose proof (Z.mod_le (d + 2 ^ 31) (2 ^ 32)). lia.
Qed.

End TimerFacts.

Section StoreFacts.
Import Store.

Lemma assign_frame (k : string) (v : value) (s : StateManager) :
  listeners (assign k v s) = listeners s /\
  calls (assign k v s) = calls s.
Proof.
  unfold assign.
  destruct (state s !! k), (proto s), (String.eqb k "__proto__"); now split.
Qed.

(** An assignment to a key other than ["__proto__"] writes an own
    property and leaves the prototype alone. *)
Lemma assign_plain (k : string) (v : value) (s : StateManager) :
  k <> "__proto__" ->
  state (assign k v s) = <[k := v]> (state s) /\
  proto (assign k v s) = proto s.
Proof.
  intros Hk. apply String.eqb_neq in Hk. unfold assign. rewrite Hk.
  destruct (state s !! k), (proto s); now split.
Qed.

Lemma notifyListeners_frame (k : string) (v o : value) (s : StateManager) :
  state (notifyListeners k v o s) = state s /\
  proto (notifyListeners k v o s) = proto s /\
  listeners (notifyListeners k v o s) = listeners s.
Proof. unfold notifyListeners. now destruct (listeners s !! k). Qed.

Lemma state_setState (k : string) (v : value) (s : StateManager) :
  k <> "__proto__" ->
  state (setState k v s) = <[k := v]> (state s) /\
  proto (setState k v s) = proto s.
Proof.
  intros Hk. unfold setState.
  destruct (notifyListeners_frame k v (getState k s) (assign k v s))
    as (-> & -> & _).
  now apply assign_plain.
Qed.

Lemma getState_setState (k : string) (v : value) (s : StateManager) :
  k <> "__proto__" -> getState k (setState k v s) = v.
Proof.
  intros Hk. unfold getState.
  destruct (state_setState k v s Hk) as [-> _]. now rewrite lookup_insert_eq.
Qed.

Lemma listeners_setState (k : string) (v : value) (s : StateManager) :
  listeners (setState k v s) = listeners s.
Proof.
  unfold setState.
  destruct (notifyListeners_frame k v (getState k s) (assign k v s))
    as (_ & _ & ->).
  apply assign_frame.
Qed.

Lemma calls_setState (k : string) (v : value) (s : StateManager) :
  calls (setState k v s) =
  (calls s ++ owed k (subscribers k s) (v, getState k s))%list.
Proof.
  unfold setState, notifyListeners, subscribers, owed.
  destruct (assign_frame k v s) as [-> Hc].
  destruct (listeners s !! k); simpl; rewrite Hc;
    [reflexivity | now rewrite app_nil_r].
Qed.

Lemma subscribers_setState (k k' : string) (v : value) (s : StateManager) :
  subscribers k (setState k' v s) = subscribers k s.
Proof. unfold subscribers. now rewrite listeners_setState. Qed.

Lemma last_cons_default (A : Type) (x d : A) (l : list A) :
  List.last (x :: l) d = List.last l x.
Proof.
  revert x d. induction l as [|y l IH]; intros x d; [reflexivity|].
  change (List.last (x :: y :: l) d) with (List.last (y :: l) d).
  now rewrite !IH.
Qed.

Lemma setStates_spec (k : string) (vs : list value) :
  k <> "__proto__" ->
  forall s : StateManager,
    getState k (setStates k vs s) = List.last vs (getState k s) /\
    listeners (setStates k vs s) = listeners s /\
    calls (setStates k vs s) =
    (calls s ++ flat_map (owed k (subscribers k s))
                         (combine vs (getState k s :: vs)))%list.
Proof.
  intros Hk. induction vs as [|v vs IH]; intros s.
  - simpl. now rewrite app_nil_r.
  - destruct (IH (setState k v s)) as (Hg & Hl & Hc).
    change (setStates k (v :: vs) s) with (setStates k vs (setState k v s)).
    rewrite Hg, Hl, Hc, getState_setState, listeners_setState by exact Hk.
    rewrite calls_setState, subscribers_setState, last_cons_default.
    repeat split. simpl. now rewrite <- app_assoc.
Qed.

Lemma set_delete_absent (cb : callback) (l : list callback) :
  ~ In cb l -> set_delete cb l = l.
Proof.
  unfold set_delete. induction l as [|c l IH]; intros Hn; [reflexivity|].
  simpl. destruct (Nat.eqb_spec cb c) as [->|Hne].
  - exfalso. apply Hn. now left.
  - simpl. f_equal. apply IH. intros Hin. apply Hn. now right.
Qed.

Lemma set_delete_gone (cb : callback) (l : list callback) :
  ~ In cb (set_delete cb l).
Proof.
  unfold set_delete. rewrite filter_In. intros [_ H].
  now rewrite Nat.eqb_refl in H.
Qed.

Lemma subscribers_unsubscribe (k : string) (cb : callback)
    (s : StateManager) :
  ~ In cb (subscribers k (unsubscribe k cb s)).
Proof.
  unfold unsubscribe, subscribers.
  destruct (listeners s !! k) as [l|] eqn:E; simpl.
  - rewrite lookup_insert_eq. simpl. apply set_delete_gone.
  - rewrite E. simpl. tauto.
Qed.

Lemma setMany_quiet (k : string) (cb : callback)
    (kvs : list (string * value)) :
  forall s : StateManager,
    ~ In cb (subscribers k s) ->
    exists extra,
      calls (setMany kvs s) = (calls s ++ extra)%list /\
      Forall (fun i => ~ (inv_key i = k /\ inv_cb i = cb)) extra.
Proof.
  induction kvs as [|[k' v] kvs IH]; intros s Hn.
  - exists []. simpl. rewrite app_nil_r. split; [reflexivity | constructor].
  - change (setMany ((k', v) :: kvs) s)
      with (setMany kvs (setState k' v s)).
    destruct (IH (setState k' v s)) as (extra & Hc & Hf).
    { now rewrite subscribers_setState. }
    exists (owed k' (subscribers k' s) (v, getState k' s) ++ extra)%list.
    split.
    + rewrite Hc, calls_setState. now rewrite <- app_assoc.
    + apply Forall_app. split; [|exact Hf].
      unfold owed. apply List.Forall_forall. intros i Hi.
      apply in_map_iff in Hi. destruct Hi as (c & <- & Hin). simpl.
      intros [-> ->]. now apply Hn.
Qed.

Lemma store_wf_constructor : wf constructor.
Proof. intros k l H. simpl in H. now rewrite lookup_empty in H. Qed.

Lemma set_add_NoDup (cb : callback) (l : list callback) :
  NoDup l -> NoDup (set_add cb l).
Proof.
  intros Hl. unfold set_add.
  destruct (existsb (Nat.eqb cb) l) eqn:E; [exact Hl|].
  apply NoDup_app. split; [exact Hl|]. split; [|apply NoDup_singleton].
  intros x Hx Hx'. apply list_elem_of_In in Hx, Hx'.
  destruct Hx' as [<-|[]].
  assert (existsb (Nat.eqb cb) l = true); [|congruence].
  apply existsb_exists. exists cb. split; [exact Hx | apply Nat.eqb_refl].
Qed.

Lemma store_wf_subscribe (k : string) (cb : callback) (s : StateManager) :
  wf s -> wf (subscribe k cb s).
Proof.
  intros Hwf k' l'. unfold subscribe. simpl.
  destruct (decide (k = k')) as [->|Hne].
  - rewrite lookup_insert_eq. intros [= <-].
    apply set_add_NoDup.
    destruct (listeners s !! k') as [l|] eqn:E.
    + rewrite E. simpl. eapply Hwf, E.
    + rewrite lookup_insert_eq. simpl. constructor.
  - rewrite lookup_insert_ne by exact Hne.
    destruct (listeners s !! k) eqn:E.
    + apply Hwf.
    + rewrite lookup_insert_ne by exact Hne. apply Hwf.
Qed.

Lemma store_wf_unsubscribe (k : string) (cb : callback) (s : StateManager) :
  wf s -> wf (unsubscribe k cb s).
Proof.
  intros Hwf k' l'. unfold unsubscribe.
  destruct (listeners s !! k) as [l|] eqn:E; [|apply Hwf]. simpl.
  destruct (decide (k = k')) as [->|Hne].
  - rewrite lookup_insert_eq. intros [= <-].
    unfold set_delete. apply NoDup_ListNoDup, List.NoDup_filter.
    apply NoDup_ListNoDup. eapply Hwf, E.
  - rewrite lookup_insert_ne by exact Hne. apply Hwf.
Qed.

Lemma store_wf_setState (k : string) (v : value) (s : StateManager) :
  wf s -> wf (setState k v s).
Proof. intros Hwf k' l'. rewrite listeners_setState. apply Hwf. Qed.

(** C4, as amended.  For every key [k] other than ["__proto__"], on a
    store whose state object has [Object.prototype] or [null] as its
    prototype: after [setState(k, v1); ...; setState(k, vn)] the store
    holds the last value written under [k]; the listener sets are as
    before; and the trace of callback invocations has grown by exactly
    one run per call, made before the call returns: in call [i] every
    callback subscribed to [k], in subscription order and each once (the
    listener set has no duplicates), receives [(vi, old)] where [old] is
    the value held just before that call (the initial value for the
    first call, [v(i-1)] afterwards). *)
Theorem setState_last_write_and_notifications
    (s : StateManager) (k : string) (vs : list value) :
  wf s -> ordinary s -> k <> "__proto__" ->
  getState k (setStates k vs s) = List.last vs (getState k s) /\
  subscribers k (setStates k vs s) = subscribers k s /\
  NoDup (subscribers k s) /\
  calls (setStates k vs s) =
  (calls s ++ flat_map (owed k (subscribers k s))
                       (combine vs (getState k s :: vs)))%list.
Proof.
  intros Hwf _ Hk. destruct (setStates_spec k vs Hk s) as (Hg & Hl & Hc).
  repeat split; try assumption.
  - unfold subscribers. now rewrite Hl.
  - unfold subscribers. destruct (listeners s !! k) as [l|] eqn:E; simpl.
    + eapply Hwf, E.
    + constructor.
Qed.

(** C4 as stated fails at the key ["__proto__"]: on a new store,
    [setState("__proto__", 5)] reaches the setter of
    [Object.prototype.__proto__], which ignores a number, so that
    [getState("__proto__")] afterwards is [Object.prototype] and not the
    value written. *)
Lemma setState_proto_is_not_stored :
  wf constructor /\
  getState "__proto__" (setStates "__proto__" [VNum 5] constructor) =
  VObjectPrototype /\
  getState "__proto__" (setStates "__proto__" [VNum 5] constructor) <>
  List.last [VNum 5] (getState "__proto__" constructor).
Proof.
  split; [exact store_wf_constructor|].
  assert (E : getState "__proto__"
                (setStates "__proto__" [VNum 5] constructor) =
              VObjectPrototype) by (vm_compute; reflexivity).
  split; [exact E|]. rewrite E. discriminate.
Qed.

(** C5.  After [unsubscribe(k, cb)] no later [setState], on any key and
    starting at once, invokes [cb] for [k]; and unsubscribing a
    callback that is not subscribed to [k] (in particular when [k] has
    no listener set) returns the store unchanged. *)
Theorem unsubscribe_stops_notifications
    (s : StateManager) (k : string) (cb : callback)
    (kvs : list (string * value)) :
  (exists extra,
     calls (setMany kvs (unsubscribe k cb s)) = (calls s ++ extra)%list /\
     Forall (fun i => ~ (inv_key i = k /\ inv_cb i = cb)) extra) /\
  (~ In cb (subscribers k s) -> unsubscribe k cb s = s).
Proof.
  split.
  - destruct (setMany_quiet k cb kvs (unsubscribe k cb s)) as (extra & Hc & Hf).
    { apply subscribers_unsubscribe. }
    exists extra. split; [|exact Hf]. rewrite Hc. f_equal.
    unfold unsubscribe. now destruct (listeners s !! k).
  - intros Hn. unfold unsubscribe, subscribers in *.
    destruct (listeners s !! k) as [l|] eqn:E; [|reflexivity].
    simpl in Hn. rewrite set_delete_absent by exact Hn.
    rewrite insert_id by exact E. now destruct s.
Qed.

End StoreFacts.

(** ** Notification queue *)

Section NotifFacts.
Import Notif.

(** *** The timer queue *)

Lemma extract_min_In (ts : list timer) (m : timer) (r : list timer) :
  extract_min ts = Some (m, r) ->
  forall x, In x ts <-> x = m \/ In x r.
Proof.
  revert m r. induction ts as [|t ts IH]; intros m r H x; [discriminate|].
  simpl in H. destruct (extract_min ts) as [[m' r']|] eqn:E.
  - specialize (IH m' r' eq_refl).
    destruct (due t <=? due m'); injection H as <- <-; simpl.
    + intuition.
    + rewrite (IH x). intuition.
  - injection H as <- <-. destruct ts as [|t' ts'].
    + simpl. intuition.
    + simpl in E. destruct (extract_min ts') as [[? ?]|];
        [destruct (due t' <=? due t0)|]; discriminate.
Qed.

Lemma extract_min_least (ts : list timer) (m : timer) (r : list timer) :
  extract_min ts = Some (m, r) ->
  forall x, In x ts -> due m <= due x.
Proof.
  revert m r. induction ts as [|t ts IH]; intros m r H x Hx; [discriminate|].
  simpl in H. destruct (extract_min ts) as [[m' r']|] eqn:E.
  - specialize (IH m' r' eq_refl).
    destruct (Z.leb_spec (due t) (due m')); injection H as <- <-.
    + destruct Hx as [<-|Hx]; [lia|]. specialize (IH x Hx). lia.
    + destruct Hx as [<-|Hx]; [lia|]. now apply IH.
  - injection H as <- <-. destruct ts as [|t' ts'].
    + destruct Hx as [<-|[]]. lia.
    + simpl in E. destruct (extract_min ts') as [[? ?]|];
        [destruct (due t' <=? due t0)|]; discriminate.
Qed.

Lemma extract_min_None (ts : list timer) :
  extract_min ts = None -> ts = [].
Proof.
  destruct ts as [|t ts]; [reflexivity|]. simpl.
  destruct (extract_min ts) as [[m r]|]; [destruct (due t <=? due m)|];
    discriminate.
Qed.

Lemma cost_pos (x : timer) : (1 <= cost x)%nat.
Proof. unfold cost. destruct (act x); lia. Qed.

Lemma weight_cons (x : timer) (ts : list timer) :
  weight (x :: ts) = (cost x + weight ts)%nat.
Proof. reflexivity. Qed.

Lemma weight_app (ts us : list timer) :
  weight (ts ++ us) = (weight ts + weight us)%nat.
Proof.
  induction ts as [|x ts IH]; [reflexivity|].
  rewrite <- app_comm_cons, !weight_cons, IH. lia.
Qed.

Lemma extract_min_weight (ts : list timer) (m : timer) (r : list timer) :
  extract_min ts = Some (m, r) ->
  weight ts = (cost m + weight r)%nat.
Proof.
  revert m r. induction ts as [|t ts IH]; intros m r H; [discriminate|].
  simpl in H. destruct (extract_min ts) as [[m' r']|] eqn:E.
  - specialize (IH m' r' eq_refl).
    destruct (due t <=? due m'); injection H as <- <-.
    + reflexivity.
    + rewrite !weight_cons, IH. lia.
  - injection H as <- <-. apply extract_min_None in E. now subst ts.
Qed.

Lemma tick_Some (t : Z) (s s' : NotificationManager) :
  tick t s = Some s' ->
  exists m r,
    extract_min (timers s) = Some (m, r) /\ due m <= t /\
    s' = run_action (act m) (fired m r s).
Proof.
  unfold tick. destruct (extract_min (timers s)) as [[m r]|]; [|discriminate].
  destruct (Z.leb_spec (due m) t); [|discriminate].
  intros [= <-]. now exists m, r.
Qed.

Lemma tick_None (t : Z) (s : NotificationManager) :
  tick t s = None -> forall x, In x (timers s) -> t < due x.
Proof.
  unfold tick. destruct (extract_min (timers s)) as [[m r]|] eqn:E.
  - destruct (Z.leb_spec (due m) t); [discriminate|].
    intros _ x Hx. pose proof (extract_min_least _ _ _ E x Hx). lia.
  - intros _ x Hx. apply extract_min_None in E. rewrite E in Hx. destruct Hx.
Qed.

Lemma timers_run_action (a : action) (s : NotificationManager) :
  timers (run_action a s) = timers s \/
  exists id,
    a = Remove id /\
    timers (run_action a s) = (timers s ++ [Timer (now s + 300) (Finalize id)])%list.
Proof.
  destruct a as [id|id|id]; simpl; auto.
  unfold remove. destruct (find_toast id s); [|now left].
  right. now exists id.
Qed.

Lemma tick_weight (t : Z) (s s' : NotificationManager) :
  tick t s = Some s' -> (weight (timers s') < weight (timers s))%nat.
Proof.
  intros H. apply tick_Some in H. destruct H as (m & r & E & _ & ->).
  rewrite (extract_min_weight _ _ _ E).
  destruct (timers_run_action (act m) (fired m r s)) as [->|(id & Ha & ->)].
  - change (timers (fired m r s)) with r. pose proof (cost_pos m). lia.
  - rewrite weight_app. change (timers (fired m r s)) with r.
    unfold cost at 1. rewrite Ha.
    change (weight [Timer (now (fired m r s) + 300) (Finalize id)])
      with 1%nat.
    lia.
Qed.

(** The fuel of [advance_to] is enough: when [run] stops, no pending
    timer is due. *)
Lemma run_quiescent (t : Z) (fuel : nat) :
  forall s : NotificationManager,
    (weight (timers s) <= fuel)%nat -> tick t (run fuel t s) = None.
Proof.
  induction fuel as [|fuel IH]; intros s Hw; simpl.
  - destruct (timers s) as [|x ts] eqn:E.
    + unfold tick. now rewrite E.
    + rewrite weight_cons in Hw. pose proof (cost_pos x). lia.
  - destruct (tick t s) as [s'|] eqn:E; [|exact E].
    apply IH. apply tick_weight in E. lia.
Qed.

Lemma advance_to_quiescent (t : Z) (s : NotificationManager) :
  forall x, In x (timers (advance_to t s)) -> t < due x.
Proof.
  unfold advance_to. simpl.
  apply tick_None, run_quiescent. lia.
Qed.

(** An invariant of [tick] is an invariant of [run]. *)
Lemma run_invariant (P : NotificationManager -> Prop) (t : Z) :
  (forall s s', P s -> tick t s = Some s' -> P s') ->
  forall fuel s, P s -> P (run fuel t s).
Proof.
  intros Hstep. induction fuel as [|fuel IH]; intros s Hs; simpl; [exact Hs|].
  destruct (tick t s) as [s'|] eqn:E; [|exact Hs].
  apply IH. eapply Hstep; eassumption.
Qed.

End NotifFacts.

Section NotifInvariants.
Import Notif.

(** *** Membership helpers *)

Lemma has_id_In (id : uuid) (l : list uuid) :
  has_id id l = true <-> In id l.
Proof.
  unfold has_id. rewrite existsb_exists. split.
  - intros (x & Hx & E). apply Nat.eqb_eq in E. now subst x.
  - intros H. exists id. split; [exact H | apply Nat.eqb_refl].
Qed.

Lemma In_drop_id (id x : uuid) (l : list uuid) :
  In x (drop_id id l) <-> In x l /\ x <> id.
Proof.
  unfold drop_id. rewrite filter_In, negb_true_iff, Nat.eqb_neq.
  intuition congruence.
Qed.

Lemma drop_id_absent (id : uuid) (l : list uuid) :
  ~ In id l -> drop_id id l = l.
Proof.
  unfold drop_id. induction l as [|x l IH]; intros Hn; [reflexivity|].
  simpl. destruct (Nat.eqb_spec id x) as [->|Hne].
  - exfalso. apply Hn. now left.
  - simpl. f_equal. apply IH. intros H. apply Hn. now right.
Qed.

Lemma ids_filter (id : uuid) (ns : list toast) :
  map toast_id (List.filter (fun n => negb (Nat.eqb (toast_id n) id)) ns) =
  drop_id id (map toast_id ns).
Proof.
  unfold drop_id. induction ns as [|n ns IH]; [reflexivity|].
  simpl. rewrite (Nat.eqb_sym id (toast_id n)).
  destruct (Nat.eqb (toast_id n) id); simpl; now rewrite IH.
Qed.

Lemma tracked_In (id : uuid) (s : NotificationManager) :
  tracked id s = true <-> In id (ids s).
Proof.
  unfold tracked, ids. rewrite existsb_exists, in_map_iff. split.
  - intros (n & Hn & E). apply Nat.eqb_eq in E. now exists n.
  - intros (n & E & Hn). exists n. split; [exact Hn | now apply Nat.eqb_eq].
Qed.

Lemma find_toast_Some (id : uuid) (s : NotificationManager) (n : toast) :
  find_toast id s = Some n -> toast_id n = id /\ In id (ids s).
Proof.
  unfold find_toast. intros H. apply find_some in H. destruct H as [Hin E].
  apply Nat.eqb_eq in E. split; [exact E|].
  unfold ids. apply in_map_iff. now exists n.
Qed.

Lemma find_toast_None (id : uuid) (s : NotificationManager) :
  find_toast id s = None <-> tracked id s = false.
Proof.
  unfold find_toast, tracked. split; intros H.
  - apply not_true_is_false. intros Ht. apply existsb_exists in Ht.
    destruct Ht as (n & Hn & E).
    now rewrite (find_none _ _ H n Hn) in E.
  - destruct (List.find _ _) as [n|] eqn:E; [|reflexivity].
    apply find_some in E. destruct E as [Hin E].
    assert (existsb (fun n => Nat.eqb (toast_id n) id) (notifications s) = true).
    { apply existsb_exists. now exists n. }
    congruence.
Qed.

Lemma NoDup_snoc (A : Type) (x : A) (l : list A) :
  List.NoDup l -> ~ In x l -> List.NoDup (l ++ [x]).
Proof.
  intros Hl Hx.
  apply (Permutation_NoDup (Permutation_cons_append l x)).
  now constructor.
Qed.

(** *** What each method does to the fields *)

Lemma tracked_remove (id i : uuid) (s : NotificationManager) :
  tracked id (remove i s) = tracked id s.
Proof. unfold remove. now destruct (find_toast i s). Qed.

Lemma tracked_finalize (id i : uuid) (s : NotificationManager) :
  tracked id (finalize i s) = tracked id s && negb (Nat.eqb id i).
Proof.
  unfold tracked, finalize. simpl.
  induction (notifications s) as [|n ns IH]; [reflexivity|].
  simpl. destruct (Nat.eqb_spec (toast_id n) i) as [E|E]; simpl.
  - rewrite IH. destruct (Nat.eqb_spec (toast_id n) id) as [E'|E']; simpl.
    + assert (id = i) as -> by congruence. rewrite Nat.eqb_refl. simpl.
      now rewrite andb_false_r.
    + reflexivity.
  - rewrite IH. destruct (Nat.eqb_spec (toast_id n) id) as [E'|E']; simpl.
    + destruct (Nat.eqb_spec id i); [congruence | reflexivity].
    + reflexivity.
Qed.

Lemma tracked_show (id : uuid) (m ty : string) (d : Z)
    (s : NotificationManager) :
  tracked id (snd (show m ty d s)) = tracked id s || Nat.eqb (seed s) id.
Proof.
  unfold show, tracked. simpl.
  destruct (0 <? d); simpl; rewrite existsb_app; simpl;
    now rewrite orb_false_r.
Qed.

Lemma tracked_run_action_false (id : uuid) (a : action)
    (s : NotificationManager) :
  tracked id s = false -> tracked id (run_action a s) = false.
Proof.
  intros H. destruct a as [i|i|i]; simpl.
  - exact H.
  - now rewrite tracked_remove.
  - now rewrite tracked_finalize, H.
Qed.

Lemma now_run_action (a : action) (s : NotificationManager) :
  now (run_action a s) = now s.
Proof.
  destruct a as [i|i|i]; simpl; try reflexivity.
  unfold remove. now destruct (find_toast i s).
Qed.

Lemma seed_run_action (a : action) (s : NotificationManager) :
  seed (run_action a s) = seed s.
Proof.
  destruct a as [i|i|i]; simpl; try reflexivity.
  unfold remove. now destruct (find_toast i s).
Qed.

Lemma timers_run_action_incl (a : action) (s : NotificationManager) :
  forall x, In x (timers s) -> In x (timers (run_action a s)).
Proof.
  intros x Hx.
  destruct (timers_run_action a s) as [->|(id & _ & ->)]; [exact Hx|].
  apply in_or_app. now left.
Qed.

Lemma timers_remove (i : uuid) (s : NotificationManager) :
  timers (remove i s) =
  if tracked i s then (timers s ++ [Timer (now s + 300) (Finalize i)])%list
  else timers s.
Proof.
  unfold remove. destruct (find_toast i s) as [n|] eqn:E.
  - assert (tracked i s = true) as ->; [|reflexivity].
    apply not_false_is_true. intros Hf.
    apply find_toast_None in Hf. congruence.
  - apply find_toast_None in E. now rewrite E.
Qed.

(** *** Well-formedness is kept by every operation *)

Ltac wf_split :=
  unfold wf, ids in *; simpl;
  split; [|split; [|split; [|split; [|split]]]].

Lemma wf_constructor : wf constructor.
Proof.
  wf_split.
  - reflexivity.
  - constructor.
  - constructor.
  - intros ? [].
  - intros ? [].
  - intros ? [].
Qed.

Lemma wf_setTimeout (a : action) (d : Z) (s : NotificationManager) :
  wf s -> (target a < seed s)%nat -> wf (setTimeout a d s).
Proof.
  intros (H1 & H2 & H3 & H4 & H5 & H6) Ha. wf_split; try assumption.
  intros x Hx. apply in_app_or in Hx. destruct Hx as [Hx|[<-|[]]]; auto.
Qed.

Lemma wf_show (m ty : string) (d : Z) (s : NotificationManager) :
  wf s -> wf (snd (show m ty d s)).
Proof.
  intros (H1 & H2 & H3 & H4 & H5 & H6).
  assert (Hfresh : ~ In (seed s) (container s)).
  { intros H. apply H4 in H. lia. }
  assert (wf {| notifications := (notifications s ++ [Toast (seed s) m ty])%list;
                container := (container s ++ [seed s])%list;
                shown := shown s;
                now := now s;
                timers := timers s;
                seed := S (seed s);
                removals := removals s |}) as Hwf.
  { wf_split.
    - rewrite map_app. simpl. now rewrite H1.
    - now apply NoDup_snoc.
    - exact H3.
    - intros i Hi. apply in_app_or in Hi.
      destruct Hi as [Hi|[<-|[]]]; [apply H4 in Hi|]; lia.
    - intros i Hi. destruct (H5 i Hi) as [Hlt Hn]. split; [lia|].
      intros Hc. apply in_app_or in Hc.
      destruct Hc as [Hc|[<-|[]]]; [now apply Hn | lia].
    - intros x Hx. apply H6 in Hx. lia. }
  unfold show. simpl.
  destruct (0 <? d).
  - apply wf_setTimeout; [apply wf_setTimeout|]; simpl;
      [exact Hwf | lia | lia].
  - apply wf_setTimeout; simpl; [exact Hwf | lia].
Qed.

Lemma wf_remove (i : uuid) (s : NotificationManager) :
  wf s -> wf (remove i s).
Proof.
  intros Hwf. unfold remove.
  destruct (find_toast i s) as [n|] eqn:E; [|exact Hwf].
  apply find_toast_Some in E. destruct E as [_ Hin].
  destruct Hwf as (H1 & H2 & H3 & H4 & H5 & H6).
  apply wf_setTimeout.
  - wf_split; assumption.
  - simpl. apply H4. now rewrite <- H1.
Qed.

Lemma wf_finalize (i : uuid) (s : NotificationManager) :
  wf s -> wf (finalize i s).
Proof.
  intros (H1 & H2 & H3 & H4 & H5 & H6).
  unfold wf, ids, finalize in *. simpl.
  rewrite ids_filter, H1.
  destruct (has_id i (container s)) eqn:E.
  - apply has_id_In in E.
    split; [reflexivity|]. split; [|split; [|split; [|split]]].
    + unfold drop_id. now apply List.NoDup_filter.
    + apply NoDup_snoc; [exact H3|]. intros Hr. now apply (H5 i).
    + intros j Hj. apply In_drop_id in Hj. now apply H4.
    + intros j Hj. apply in_app_or in Hj. destruct Hj as [Hj|[<-|[]]].
      * destruct (H5 j Hj) as [Hlt Hn]. split; [exact Hlt|].
        intros Hd. apply In_drop_id in Hd. now apply Hn.
      * split; [now apply H4|]. intros Hd. apply In_drop_id in Hd. tauto.
    + exact H6.
  - assert (~ In i (container s)) as Hn.
    { intros Hin. apply has_id_In in Hin. congruence. }
    rewrite drop_id_absent by exact Hn.
    split; [reflexivity|]. tauto.
Qed.

Lemma wf_fired (m : timer) (r : list timer) (s : NotificationManager) :
  wf s -> (forall x, In x r -> In x (timers s)) -> wf (fired m r s).
Proof.
  intros (H1 & H2 & H3 & H4 & H5 & H6) Hr. wf_split; auto.
Qed.

Lemma wf_run_action (a : action) (s : NotificationManager) :
  wf s -> wf (run_action a s).
Proof.
  intros Hwf. destruct a as [i|i|i]; simpl.
  - destruct Hwf as (H1 & H2 & H3 & H4 & H5 & H6). wf_split; assumption.
  - now apply wf_remove.
  - now apply wf_finalize.
Qed.

Lemma wf_tick (t : Z) (s s' : NotificationManager) :
  wf s -> tick t s = Some s' -> wf s'.
Proof.
  intros Hwf H. apply tick_Some in H. destruct H as (m & r & E & _ & ->).
  apply wf_run_action, wf_fired; [exact Hwf|].
  intros x Hx. apply (extract_min_In _ _ _ E). now right.
Qed.

Lemma wf_advance_to (t : Z) (s : NotificationManager) :
  wf s -> wf (advance_to t s).
Proof.
  intros Hwf.
  pose proof (run_invariant wf t (fun a b => wf_tick t a b)
                (weight (timers s)) s Hwf) as (H1 & H2 & H3 & H4 & H5 & H6).
  unfold advance_to. wf_split; assumption.
Qed.

(** [clear] is a run of [remove] calls. *)
Lemma clear_invariant (P : NotificationManager -> Prop) :
  (forall i s, P s -> P (remove i s)) ->
  forall s, P s -> P (clear s).
Proof.
  intros Hrem s. unfold clear.
  generalize (notifications s) as ns. intros ns. revert s.
  induction ns as [|n ns IH]; intros s Hs; simpl; [exact Hs|].
  apply IH, Hrem, Hs.
Qed.

Lemma wf_step (o : op) (s : NotificationManager) : wf s -> wf (step o s).
Proof.
  intros Hwf. destruct o as [m ty d|i| |t]; simpl.
  - now apply wf_show.
  - now apply wf_remove.
  - apply clear_invariant; [intros; now apply wf_remove | exact Hwf].
  - now apply wf_advance_to.
Qed.

Lemma steps_invariant (P : NotificationManager -> Prop) (os : list op) :
  (forall o s, In o os -> P s -> P (step o s)) ->
  forall s, P s -> P (steps os s).
Proof.
  unfold steps. induction os as [|o os IH]; intros Hstep s Hs; [exact Hs|].
  simpl. apply IH.
  - intros o' s' Hin. apply Hstep. now right.
  - apply Hstep; [now left | exact Hs].
Qed.

Lemma wf_steps (os : list op) (s : NotificationManager) :
  wf s -> wf (steps os s).
Proof. apply steps_invariant. intros o s' _. apply wf_step. Qed.

(** *** A dismissed toast is gone by its deadline *)

Lemma doomed_remove (id : uuid) (D : Z) (i : uuid)
    (s : NotificationManager) :
  doomed id D s -> doomed id D (remove i s).
Proof.
  intros (Hlt & H). unfold doomed.
  assert (Hin : forall x, In x (timers s) -> In x (timers (remove i s))).
  { intros x Hx. rewrite timers_remove.
    destruct (tracked i s); [apply in_or_app; now left | exact Hx]. }
  assert (Hnow : now (remove i s) = now s).
  { exact (now_run_action (Remove i) s). }
  assert (Hseed : seed (remove i s) = seed s).
  { exact (seed_run_action (Remove i) s). }
  rewrite tracked_remove, Hnow, Hseed. split; [exact Hlt|].
  destruct H as [H|[(x & Hx & Ha & Hd)|(Hn & x & Hx & Ha & Hd)]].
  - now left.
  - right. left. exists x. auto.
  - right. right. split; [exact Hn|]. exists x. auto.
Qed.

Lemma doomed_show (id : uuid) (D : Z) (m ty : string) (d : Z)
    (s : NotificationManager) :
  doomed id D s -> doomed id D (snd (show m ty d s)).
Proof.
  intros (Hlt & H). unfold doomed. rewrite tracked_show.
  assert (Nat.eqb (seed s) id = false) as -> by (apply Nat.eqb_neq; lia).
  rewrite orb_false_r.
  assert (Hin : forall x, In x (timers s) ->
                          In x (timers (snd (show m ty d s)))).
  { intros x Hx. unfold show. simpl.
    destruct (0 <? d); simpl; repeat (apply in_or_app; left); exact Hx. }
  assert (Hnow : now (snd (show m ty d s)) = now s).
  { unfold show. simpl. now destruct (0 <? d). }
  assert (Hseed : seed (snd (show m ty d s)) = S (seed s)).
  { unfold show. simpl. now destruct (0 <? d). }
  rewrite Hnow, Hseed. split; [lia|].
  destruct H as [H|[(x & Hx & Ha & Hd)|(Hn & x & Hx & Ha & Hd)]].
  - now left.
  - right. left. exists x. auto.
  - right. right. split; [exact Hn|]. exists x. auto.
Qed.

Lemma doomed_tick (id : uuid) (D t : Z) (s s' : NotificationManager) :
  doomed id D s -> tick t s = Some s' -> doomed id D s'.
Proof.
  intros (Hlt & H) Ht. apply tick_Some in Ht.
  destruct Ht as (m & r & E & _ & ->).
  pose proof (extract_min_In _ _ _ E) as Hsplit.
  pose proof (extract_min_least _ _ _ E) as Hleast.
  unfold doomed. rewrite seed_run_action, now_run_action.
  split; [exact Hlt|].
  destruct H as [H|[(x & Hx & Ha & Hd)|(Hn & x & Hx & Ha & Hd)]].
  - left. now apply tracked_run_action_false.
  - apply Hsplit in Hx. destruct Hx as [->|Hx].
    + left. rewrite Ha. simpl. rewrite tracked_finalize, Nat.eqb_refl.
      apply andb_false_r.
    + right. left. exists x. split; [|auto].
      now apply timers_run_action_incl.
  - pose proof (Hleast x Hx) as Hle.
    assert (Hnow : Z.max (now s) (due m) <= D - 300) by lia.
    apply Hsplit in Hx. destruct Hx as [->|Hx].
    + rewrite Ha. simpl. rewrite tracked_remove, timers_remove.
      fold (tracked id s).
      change (tracked id (fired m r s)) with (tracked id s).
      destruct (tracked id s) eqn:Et; [|now left].
      right. left. exists (Timer (Z.max (now s) (due m) + 300) (Finalize id)).
      split; [apply in_or_app; right; now left|].
      split; [reflexivity|]. simpl. lia.
    + right. right. split; [exact Hnow|]. exists x. split; [|auto].
      now apply timers_run_action_incl.
Qed.

Lemma doomed_advance_to (id : uuid) (D t : Z) (s : NotificationManager) :
  doomed id D s -> doomed id D (advance_to t s).
Proof.
  intros Hd.
  pose proof (run_invariant (doomed id D) t
                (fun a b => doomed_tick id D t a b)
                (weight (timers s)) s Hd) as (Hlt & H).
  pose proof (advance_to_quiescent t s) as Hq.
  unfold advance_to, doomed, tracked in *. simpl in *.
  split; [exact Hlt|].
  destruct H as [H|[H|(Hn & x & Hx & Ha & Hdue)]]; auto.
  right. right. split; [|now exists x].
  specialize (Hq x Hx). lia.
Qed.

Lemma doomed_step (id : uuid) (D : Z) (o : op) (s : NotificationManager) :
  doomed id D s -> doomed id D (step o s).
Proof.
  intros Hd. destruct o as [m ty d|i| |t]; simpl.
  - now apply doomed_show.
  - now apply doomed_remove.
  - apply clear_invariant; [intros; now apply doomed_remove | exact Hd].
  - now apply doomed_advance_to.
Qed.

Lemma doomed_steps (id : uuid) (D : Z) (os : list op)
    (s : NotificationManager) :
  doomed id D s -> doomed id D (steps os s).
Proof. apply steps_invariant. intros o s' _. apply doomed_step. Qed.

(** Once the clock has passed the deadline the toast is untracked. *)
Lemma doomed_gone (id : uuid) (D t : Z) (s : NotificationManager) :
  doomed id D s -> D <= t -> tracked id (advance_to t s) = false.
Proof.
  intros Hd Ht.
  destruct (doomed_advance_to id D t s Hd)
    as (_ & [H|[(x & Hx & _ & Hdue)|(_ & x & Hx & _ & Hdue)]]).
  - exact H.
  - pose proof (advance_to_quiescent t s x Hx). lia.
  - pose proof (advance_to_quiescent t s x Hx). lia.
Qed.

Lemma doomed_after_show (m ty : string) (d : Z) (s : NotificationManager) :
  0 < d ->
  doomed (fst (show m ty d s)) (now s + d + 300) (snd (show m ty d s)).
Proof.
  intros Hd. pose proof (timer_delay_le d ltac:(lia)) as Hle.
  unfold show, doomed, setTimeout. cbn [generateUUID fst snd].
  apply Z.ltb_lt in Hd. rewrite Hd.
  cbn [seed tracked notifications container has_id existsb timers now].
  split; [lia|].
  right. right. split; [lia|].
  exists (Timer (now s + timer_delay d) (Remove (seed s))).
  split; [|split; [reflexivity | cbn [due]; lia]].
  apply in_or_app. right. now left.
Qed.

Lemma doomed_after_remove (id : uuid) (s : NotificationManager) :
  (id < seed s)%nat -> doomed id (now s + 300) (remove id s).
Proof.
  intros Hlt. unfold doomed.
  rewrite (seed_run_action (Remove id) s : seed (remove id s) = seed s).
  split; [exact Hlt|].
  rewrite tracked_remove, timers_remove.
  destruct (tracked id s); [|now left].
  right. left. exists (Timer (now s + 300) (Finalize id)).
  split; [apply in_or_app; right; now left|].
  split; [reflexivity | simpl; lia].
Qed.

(** *** A toast without an auto-dismiss timer stays *)

Lemma undisturbed_spec (id : uuid) (s : NotificationManager) :
  undisturbed id s = true <->
  forall x, In x (timers s) -> act x <> Remove id /\ act x <> Finalize id.
Proof.
  unfold undisturbed. rewrite forallb_forall. split; intros H x Hx.
  - specialize (H x Hx). destruct (act x) as [i|i|i]; split; try discriminate;
      intros [= ->]; now rewrite Nat.eqb_refl in H.
  - specialize (H x Hx). destruct (act x) as [i|i|i]; [reflexivity| |];
      apply negb_true_iff, Nat.eqb_neq; intros ->; tauto.
Qed.

Lemma safe_show (id : uuid) (m ty : string) (d : Z)
    (s : NotificationManager) :
  safe id s -> safe id (snd (show m ty d s)).
Proof.
  intros (Ht & Hu & Hlt). unfold safe. rewrite tracked_show, Ht.
  split; [reflexivity|]. split.
  - rewrite undisturbed_spec in *. unfold show. simpl.
    intros x Hx.
    assert (In x (timers s) \/ target (act x) = seed s) as [Hin|Hnew].
    { destruct (0 <? d); simpl in Hx;
        repeat (apply in_app_or in Hx; destruct Hx as [Hx|[<-|[]]]);
        auto. }
    + now apply Hu.
    + split; intros E; rewrite E in Hnew; simpl in Hnew; lia.
  - unfold show. simpl. destruct (0 <? d); simpl; lia.
Qed.

Lemma safe_tick (id : uuid) (t : Z) (s s' : NotificationManager) :
  safe id s -> tick t s = Some s' -> safe id s'.
Proof.
  intros (Ht & Hu & Hlt) H. apply tick_Some in H.
  destruct H as (m & r & E & _ & ->).
  pose proof (extract_min_In _ _ _ E) as Hsplit.
  rewrite undisturbed_spec in Hu.
  destruct (Hu m) as [Hm1 Hm2]; [apply Hsplit; now left|].
  assert (Hr : forall x, In x r ->
                         act x <> Remove id /\ act x <> Finalize id).
  { intros x Hx. apply Hu, Hsplit. now right. }
  unfold safe. rewrite seed_run_action. split; [|split; [|exact Hlt]].
  - destruct (act m) as [i|i|i]; simpl.
    + exact Ht.
    + rewrite tracked_remove. exact Ht.
    + rewrite tracked_finalize.
      change (tracked id (fired m r s)) with (tracked id s). rewrite Ht.
      simpl. apply negb_true_iff, Nat.eqb_neq. intros ->. now apply Hm2.
  - apply undisturbed_spec. intros x Hx.
    destruct (timers_run_action (act m) (fired m r s))
      as [Eq|(i & Ha & Eq)]; rewrite Eq in Hx.
    + now apply Hr.
    + apply in_app_or in Hx. destruct Hx as [Hx|[<-|[]]]; [now apply Hr|].
      simpl. split; [discriminate|]. intros [= ->]. now apply Hm1.
Qed.

Lemma safe_advance_to (id : uuid) (t : Z) (s : NotificationManager) :
  safe id s -> safe id (advance_to t s).
Proof.
  intros Hs.
  pose proof (run_invariant (safe id) t (fun a b => safe_tick id t a b)
                (weight (timers s)) s Hs) as H.
  exact H.
Qed.

Lemma safe_steps (id : uuid) (os : list op) (s : NotificationManager) :
  forallb keeps os = true -> safe id s -> safe id (steps os s).
Proof.
  intros Hk. apply steps_invariant. intros o s' Hin Hs.
  rewrite forallb_forall in Hk. specialize (Hk o Hin).
  destruct o as [m ty d|i| |t]; simpl in *; try discriminate.
  - now apply safe_show.
  - now apply safe_advance_to.
Qed.

Lemma safe_after_show (m ty : string) (d : Z) (s : NotificationManager) :
  wf s -> d <= 0 ->
  snd (show m ty d s) = setTimeout (AddShow (seed s)) 100
      {| notifications := (notifications s ++ [Toast (seed s) m ty])%list;
         container := (container s ++ [seed s])%list;
         shown := shown s;
         now := now s;
         timers := timers s;
         seed := S (seed s);
         removals := removals s |} /\
  safe (fst (show m ty d s)) (snd (show m ty d s)).
Proof.
  intros (_ & _ & _ & _ & _ & H6) Hd.
  assert ((0 <? d) = false) as E by (apply Z.ltb_ge; lia).
  unfold show. simpl. rewrite E. split; [reflexivity|].
  unfold safe. simpl. split; [|split; [|lia]].
  - unfold tracked. simpl. rewrite existsb_app. simpl.
    now rewrite Nat.eqb_refl, orb_true_r.
  - apply undisturbed_spec. simpl. intros x Hx.
    apply in_app_or in Hx. destruct Hx as [Hx|[<-|[]]].
    + apply H6 in Hx. split; intros Ea; rewrite Ea in Hx; simpl in Hx; lia.
    + simpl. split; discriminate.
Qed.

(** *** Every toast is detached at most once *)

Lemma kept_remove (id i : uuid) (s : NotificationManager) :
  kept id s -> kept id (remove i s).
Proof. unfold kept, remove. now destruct (find_toast i s). Qed.

Lemma kept_finalize (id i : uuid) (s : NotificationManager) :
  kept id s -> kept id (finalize i s).
Proof.
  unfold kept, finalize. simpl. intros [H|H].
  - destruct (has_id i (container s)) eqn:E; [|now left].
    destruct (Nat.eq_dec id i) as [->|Hne].
    + right. apply in_or_app. right. now left.
    + left. now apply In_drop_id.
  - right. destruct (has_id i (container s)); [|exact H].
    apply in_or_app. now left.
Qed.

Lemma kept_tick (id : uuid) (t : Z) (s s' : NotificationManager) :
  kept id s -> tick t s = Some s' -> kept id s'.
Proof.
  intros Hk H. apply tick_Some in H. destruct H as (m & r & _ & _ & ->).
  destruct (act m) as [i|i|i]; simpl.
  - exact Hk.
  - now apply kept_remove.
  - now apply kept_finalize.
Qed.

Lemma kept_step (id : uuid) (o : op) (s : NotificationManager) :
  kept id s -> kept id (step o s).
Proof.
  intros Hk. destruct o as [m ty d|i| |t]; simpl.
  - unfold kept, show in *. simpl. destruct (0 <? d); simpl;
      (destruct Hk as [Hk|Hk]; [left; apply in_or_app; now left | now right]).
  - now apply kept_remove.
  - apply clear_invariant; [intros; now apply kept_remove | exact Hk].
  - exact (run_invariant (kept id) t (fun a b => kept_tick id t a b)
             (weight (timers s)) s Hk).
Qed.

Lemma kept_steps (id : uuid) (os : list op) (s : NotificationManager) :
  kept id s -> kept id (steps os s).
Proof. apply steps_invariant. intros o s' _. apply kept_step. Qed.

Lemma seed_step (o : op) (s : NotificationManager) :
  seed (step o s) = match o with ShowToast _ _ _ => S (seed s) | _ => seed s end.
Proof.
  destruct o as [m ty d|i| |t]; simpl.
  - unfold show. simpl. now destruct (0 <? d).
  - exact (seed_run_action (Remove i) s).
  - apply (clear_invariant (fun x => seed x = seed s)); [|reflexivity].
    intros i x <-. exact (seed_run_action (Remove i) x).
  - apply (run_invariant (fun x => seed x = seed s) t); [|reflexivity].
    intros a b <- H. apply tick_Some in H.
    destruct H as (m & r & _ & _ & ->). now rewrite seed_run_action.
Qed.

Lemma accounted_step (o : op) (s : NotificationManager) :
  accounted s -> accounted (step o s).
Proof.
  intros Ha i Hi. rewrite seed_step in Hi.
  destruct (Nat.lt_ge_cases i (seed s)) as [Hlt|Hge].
  - apply kept_step, Ha, Hlt.
  - destruct o as [m ty d|j| |t]; try lia.
    assert (i = seed s) as -> by lia.
    left. simpl. unfold show. simpl.
    destruct (0 <? d); simpl; apply in_or_app; right; now left.
Qed.

Lemma accounted_steps (os : list op) :
  accounted (steps os constructor).
Proof.
  apply steps_invariant.
  - intros o s _. apply accounted_step.
  - intros i Hi. simpl in Hi. lia.
Qed.

(** In a well-formed queue a toast is either attached and tracked, or
    detached exactly once and untracked. *)
Lemma kept_exactly_once (id : uuid) (s : NotificationManager) :
  wf s -> kept id s ->
  (tracked id s = true /\
   has_id id (container s) = true /\
   count_occ Nat.eq_dec (removals s) id = 0%nat) \/
  (tracked id s = false /\
   has_id id (container s) = false /\
   count_occ Nat.eq_dec (removals s) id = 1%nat).
Proof.
  intros (H1 & H2 & H3 & H4 & H5 & H6) [Hc|Hr].
  - left. split; [apply tracked_In; now rewrite H1|].
    split; [now apply has_id_In|].
    apply count_occ_not_In. intros Hr. now apply (H5 id).
  - right. destruct (H5 id Hr) as [_ Hn].
    split; [|split].
    + apply not_true_is_false. intros Ht. apply tracked_In in Ht.
      now rewrite H1 in Ht.
    + apply not_true_is_false. intros Ht. now apply has_id_In in Ht.
    + now apply NoDup_count_occ'.
Qed.

(** C6.  The toast created by [show(message, type, duration)] is
    tracked as soon as [show] returns.  When [duration > 0] it is no
    longer tracked once the clock has reached the creation time plus
    [duration] plus the 300 ms of the removal transition, whatever else
    the page did to the queue in between.  When [duration <= 0] the
    call arms the entry animation and nothing else, and the toast stays
    tracked as long as nobody removes it by hand (further toasts and
    the passing of time do not touch it). *)
Theorem show_presence_and_expiry
    (s : NotificationManager) (message type : string) (duration : Z)
    (os : list op) (t : Z) :
  let id := fst (show message type duration s) in
  let s1 := snd (show message type duration s) in
  tracked id s1 = true /\
  (0 < duration -> now s + duration + 300 <= t ->
   tracked id (advance_to t (steps os s1)) = false) /\
  (duration <= 0 -> wf s -> forallb keeps os = true ->
   timers s1 = (timers s ++ [Timer (now s + 100) (AddShow id)])%list /\
   tracked id (steps os s1) = true).
Proof.
  cbv zeta. split; [|split].
  - rewrite tracked_show. unfold show. simpl.
    now rewrite Nat.eqb_refl, orb_true_r.
  - intros Hd Ht. apply (doomed_gone _ (now s + duration + 300)); [|exact Ht].
    apply doomed_steps, doomed_after_show, Hd.
  - intros Hd Hwf Hk.
    destruct (safe_after_show message type duration s Hwf Hd) as [E Hs].
    split; [now rewrite E|].
    now destruct (safe_steps _ os _ Hk Hs).
Qed.

Lemma kept_advance_to (id : uuid) (t : Z) (s : NotificationManager) :
  kept id s -> kept id (advance_to t s).
Proof. exact (kept_step id (Elapse t) s). Qed.

(** C7.  [remove(id)] on an id that is not tracked (never shown, or
    already removed) returns the queue unchanged.  After [remove(id)]
    on a tracked toast, whatever follows (further [remove(id)] calls
    within the 300 ms window included), the toast is untracked and
    detached once the window has passed, and it has been detached
    exactly once.  In every run of the queue each toast shown so far is
    either still tracked and never detached, or untracked and detached
    exactly once. *)
Theorem remove_is_idempotent :
  (forall s id, tracked id s = false -> remove id s = s) /\
  (forall s id os t,
     wf s -> tracked id s = true -> now s + 300 <= t ->
     let s' := advance_to t (steps os (remove id s)) in
     tracked id s' = false /\
     has_id id (container s') = false /\
     count_occ Nat.eq_dec (removals s') id = 1%nat) /\
  (forall os id,
     let s := steps os constructor in
     (id < seed s)%nat ->
     (tracked id s = true /\
      count_occ Nat.eq_dec (removals s) id = 0%nat) \/
     (tracked id s = false /\
      count_occ Nat.eq_dec (removals s) id = 1%nat)).
Proof.
  split; [|split].
  - intros s id H. unfold remove.
    apply find_toast_None in H. now rewrite H.
  - intros s id os t Hwf Ht Hle s'.
    assert (Hin : In id (container s)).
    { destruct Hwf as (H1 & _). rewrite <- H1. now apply tracked_In. }
    assert (Hlt : (id < seed s)%nat).
    { destruct Hwf as (_ & _ & _ & H4 & _). now apply H4. }
    assert (Hgone : tracked id s' = false).
    { apply (doomed_gone _ (now s + 300)); [|exact Hle].
      apply doomed_steps, doomed_after_remove, Hlt. }
    assert (Hwf' : wf s').
    { apply wf_advance_to, wf_steps, wf_remove, Hwf. }
    assert (Hk : kept id s').
    { apply kept_advance_to, kept_steps, kept_remove. now left. }
    destruct (kept_exactly_once id s' Hwf' Hk) as [(H & _)|H];
      [congruence | exact H].
  - intros os id s Hlt.
    assert (Hwf : wf s) by apply wf_steps, wf_constructor.
    assert (Hk : kept id s) by now apply accounted_steps.
    destruct (kept_exactly_once id s Hwf Hk) as [(H & _ & H')|(H & _ & H')];
      auto.
Qed.

End NotifInvariants.

(** ** Reconnecting channel client *)

Section ChannelFacts.
Import Channel.

Local Arguments handleReconnect : simpl never.
Local Arguments Notif.show : simpl never.
Local Arguments Notif.advance_to : simpl never.
Local Arguments Z.pow : simpl never.
Local Arguments Z.mul : simpl never.
Local Arguments Z.add : simpl never.
Local Arguments Z.of_nat : simpl never.

(** *** The backoff schedule *)

Lemma backoff_S (n : nat) :
  backoff (S n) = (backoff n ++ [reconnectDelay * 2 ^ Z.of_nat n])%list.
Proof. unfold backoff. now rewrite seq_S, map_app. Qed.

Lemma all_closed_snoc (l : list readyState) :
  (forall i r, l !! i = Some r -> r = CLOSED) ->
  forall i r, (l ++ [CLOSED])%list !! i = Some r -> r = CLOSED.
Proof.
  intros Hl i r H. apply lookup_app_Some in H.
  destruct H as [H|[_ H]]; [now apply (Hl i)|].
  destruct (i - length l)%nat; simpl in H; [congruence | discriminate].
Qed.

(** [handleReconnect] below the limit arms the next delay. *)
Lemma handleReconnect_arms (w : WebSocketManager) (n : Notif.NotificationManager) :
  reconnectAttempts w < maxReconnectAttempts ->
  handleReconnect (w, n) =
  ({| ws := ws w;
      reconnectAttempts := reconnectAttempts w;
      heartbeatInterval := heartbeatInterval w;
      sockets := sockets w;
      intervals := intervals w;
      timeouts := timeouts w ++
                  [(next_handle w, reconnectDelay * 2 ^ reconnectAttempts w)];
      next_handle := S (next_handle w);
      scheduled := scheduled w ++ [reconnectDelay * 2 ^ reconnectAttempts w];
      sent := sent w;
      lost := lost w |}, n).
Proof.
  intros H. unfold handleReconnect. apply Z.ltb_lt in H. now rewrite H.
Qed.

(** [handleReconnect] at the limit arms nothing and shows the toast that
    never expires. *)
Lemma handleReconnect_gives_up (w : WebSocketManager)
    (n : Notif.NotificationManager) :
  maxReconnectAttempts <= reconnectAttempts w ->
  handleReconnect (w, n) =
  ({| ws := ws w;
      reconnectAttempts := reconnectAttempts w;
      heartbeatInterval := heartbeatInterval w;
      sockets := sockets w;
      intervals := intervals w;
      timeouts := timeouts w;
      next_handle := next_handle w;
      scheduled := scheduled w;
      sent := sent w;
      lost := lost w ++
              [fst (Notif.show "Connection lost. Please refresh the page."
                               "danger" 0 n)] |},
   snd (Notif.show "Connection lost. Please refresh the page." "danger" 0 n)).
Proof.
  intros H. unfold handleReconnect. apply Z.ltb_ge in H. rewrite H.
  now destruct (Notif.show _ _ 0 n).
Qed.

(** One more failure while the retries last. *)
Lemma retry_and_fail_backs_off (f : failure) (j : nat) (x : world) :
  backing_off j x -> (j < 4)%nat ->
  exists x', retry_and_fail f x = Some x' /\ backing_off (S j) x'.
Proof.
  destruct x as [w n]. intros (Ha & (h & Ht) & Hs & Hc & Hh & Hl & ->) Hj.
  unfold retry_and_fail. simpl fst. rewrite Ht.
  unfold exec. rewrite Ht. simpl existsb. rewrite Nat.eqb_refl. simpl.
  unfold reconnect_callback, take_timeout, connect. rewrite Ht. simpl.
  rewrite Nat.eqb_refl. simpl.
  assert (Hlt : reconnectAttempts w + 1 < maxReconnectAttempts).
  { rewrite Ha. unfold maxReconnectAttempts. lia. }
  assert (Hz : Z.of_nat (S j) = reconnectAttempts w + 1) by lia.
  destruct f; simpl.
  - rewrite handleReconnect_arms by exact Hlt. simpl.
    eexists. split; [reflexivity|]. simpl.
    rewrite Hz, Hs, (backoff_S (S j)), Hz.
    repeat split; eauto.
  - rewrite length_app. simpl.
    replace (length (sockets w) + 1 - 1)%nat with (length (sockets w) + 0)%nat
      by lia.
    rewrite lookup_app_r by lia.
    replace (length (sockets w) + 0 - length (sockets w))%nat with 0%nat by lia.
    simpl. unfold onclose, stopHeartbeat, set_socket. simpl. rewrite Hh.
    rewrite handleReconnect_arms by exact Hlt. simpl.
    eexists. split; [reflexivity|]. simpl.
    rewrite Hz, Hs, (backoff_S (S j)), Hz, insert_app_r.
    repeat split; eauto. unfold all_closed. simpl. now apply all_closed_snoc.
  - rewrite length_app. simpl.
    replace (length (sockets w) + 1 - 1)%nat with (length (sockets w) + 0)%nat
      by lia.
    rewrite lookup_app_r by lia.
    replace (length (sockets w) + 0 - length (sockets w))%nat with 0%nat by lia.
    simpl. unfold onclose, onerror, stopHeartbeat, set_socket. simpl.
    rewrite Hh. rewrite handleReconnect_arms by exact Hlt. simpl.
    eexists. split; [reflexivity|]. simpl.
    rewrite Hz, Hs, (backoff_S (S j)), Hz, insert_app_r.
    repeat split; eauto. unfold all_closed. simpl. now apply all_closed_snoc.
Qed.

(** The failure that finds the retries used up. *)
Lemma retry_and_fail_gives_up (f : failure) (x : world) :
  backing_off 4 x ->
  exists x', retry_and_fail f x = Some x' /\ given_up x'.
Proof.
  destruct x as [w n]. intros (Ha & (h & Ht) & Hs & Hc & Hh & Hl & ->).
  unfold retry_and_fail. simpl fst. rewrite Ht.
  unfold exec. rewrite Ht. simpl existsb. rewrite Nat.eqb_refl. simpl.
  unfold reconnect_callback, take_timeout, connect. rewrite Ht. simpl.
  rewrite Nat.eqb_refl. simpl.
  assert (Hge : maxReconnectAttempts <= reconnectAttempts w + 1).
  { rewrite Ha. unfold maxReconnectAttempts. lia. }
  destruct f; simpl.
  - rewrite handleReconnect_gives_up by exact Hge. simpl.
    eexists. split; [reflexivity|]. simpl. rewrite Hl. now repeat split.
  - rewrite length_app. simpl.
    replace (length (sockets w) + 1 - 1)%nat with (length (sockets w) + 0)%nat
      by lia.
    rewrite lookup_app_r by lia.
    replace (length (sockets w) + 0 - length (sockets w))%nat with 0%nat by lia.
    simpl. unfold onclose, stopHeartbeat, set_socket. simpl. rewrite Hh.
    rewrite handleReconnect_gives_up by exact Hge. simpl.
    eexists. split; [reflexivity|]. simpl. rewrite Hl, insert_app_r.
    repeat split; auto. unfold all_closed. simpl. now apply all_closed_snoc.
  - rewrite length_app. simpl.
    replace (length (sockets w) + 1 - 1)%nat with (length (sockets w) + 0)%nat
      by lia.
    rewrite lookup_app_r by lia.
    replace (length (sockets w) + 0 - length (sockets w))%nat with 0%nat by lia.
    simpl. unfold onclose, onerror, stopHeartbeat, set_socket. simpl.
    rewrite Hh. rewrite handleReconnect_gives_up by exact Hge. simpl.
    eexists. split; [reflexivity|]. simpl. rewrite Hl, insert_app_r.
    repeat split; auto. unfold all_closed. simpl. now apply all_closed_snoc.
Qed.

(** The first failure after [connect()]. *)
Lemma first_failure_backs_off (f : failure) :
  exists x,
    execs (fail_event f (fst (connect (throws f) start)))
          (connect (throws f) start) = Some x /\
    backing_off 0 x.
Proof.
  destruct f; eexists; (split; [reflexivity|]); simpl;
    (repeat split; eauto); intros i r H; destruct i as [|[|i]];
    simpl in H; congruence.
Qed.

Lemma retries_back_off (fs : list failure) :
  forall j x,
    backing_off j x -> (j + length fs <= 4)%nat ->
    exists x', retries fs x = Some x' /\ backing_off (j + length fs) x'.
Proof.
  induction fs as [|f fs IH]; intros j x Hx Hj; simpl in *.
  - exists x. rewrite Nat.add_0_r. now split.
  - destruct (retry_and_fail_backs_off f j x Hx) as (x1 & E1 & H1); [lia|].
    rewrite E1. destruct (IH (S j) x1 H1) as (x' & E' & H'); [lia|].
    exists x'. split; [exact E'|].
    now replace (j + S (length fs))%nat with (S j + length fs)%nat by lia.
Qed.

Lemma retries_snoc (fs : list failure) (f : failure) :
  forall x,
    retries (fs ++ [f]) x =
    match retries fs x with
    | Some x' => retry_and_fail f x'
    | None => None
    end.
Proof.
  induction fs as [|g fs IH]; intros x; simpl.
  - now destruct (retry_and_fail f x).
  - destruct (retry_and_fail g x) as [x1|]; [apply IH | reflexivity].
Qed.

Lemma failures_back_off (f : failure) (fs : list failure) :
  (length fs <= 4)%nat ->
  exists x, failures f fs = Some x /\ backing_off (length fs) x.
Proof.
  intros Hl. unfold failures.
  destruct (first_failure_backs_off f) as (x0 & E0 & H0). rewrite E0.
  exact (retries_back_off fs 0 x0 H0 Hl).
Qed.

Lemma failures_give_up (f : failure) (fs : list failure) :
  length fs = 5%nat ->
  exists x, failures f fs = Some x /\ given_up x.
Proof.
  intros Hl.
  destruct (exists_last (l := fs)) as (fs' & g & ->).
  { intros ->. discriminate. }
  rewrite length_app in Hl. simpl in Hl.
  destruct (failures_back_off f fs') as (x & E & Hx); [lia|].
  replace (length fs') with 4%nat in Hx by lia.
  destruct (retry_and_fail_gives_up g x Hx) as (x' & E' & Hx').
  exists x'. split; [|exact Hx'].
  unfold failures in *.
  destruct (execs _ (connect (throws f) start)) as [x0|]; [|discriminate].
  now rewrite retries_snoc, E.
Qed.

Lemma nth_error_backoff (k n : nat) :
  (1 <= n <= k)%nat ->
  nth_error (backoff k) (n - 1) =
  Some (reconnectDelay * 2 ^ (Z.of_nat n - 1)).
Proof.
  intros Hn. unfold backoff.
  rewrite nth_error_map, nth_error_seq.
  destruct (Nat.ltb_spec (n - 1) k) as [_|H]; [|lia].
  simpl. do 3 f_equal. lia.
Qed.

(** C2.  Whenever a failure finds the retry count below the limit,
    [handleReconnect] arms one reconnect with delay
    [reconnectDelay * 2^reconnectAttempts].  So after [connect()] and
    [k <= 5] failures in a row (the constructor raising, a close or an
    error), the delays armed so far are [1000 * 2^(n-1)] for
    [n = 1..k], the reconnect of attempt [k] is the one pending, and the
    five delays are 1000, 2000, 4000, 8000 and 16000 ms. *)
Theorem reconnect_backoff_schedule (f : failure) (fs : list failure) :
  (length fs < 5)%nat ->
  (forall w n,
     reconnectAttempts w < maxReconnectAttempts ->
     scheduled (fst (handleReconnect (w, n))) =
     (scheduled w ++ [reconnectDelay * 2 ^ reconnectAttempts w])%list) /\
  exists x,
    failures f fs = Some x /\
    scheduled (fst x) = backoff (S (length fs)) /\
    (forall n, (1 <= n <= S (length fs))%nat ->
               nth_error (scheduled (fst x)) (n - 1) =
               Some (1000 * 2 ^ (Z.of_nat n - 1))) /\
    (exists h,
       timeouts (fst x) = [(h, 1000 * 2 ^ Z.of_nat (length fs))]) /\
    backoff 5 = [1000; 2000; 4000; 8000; 16000].
Proof.
  intros Hl. split.
  { intros w n H. now rewrite handleReconnect_arms. }
  destruct (failures_back_off f fs) as (x & E & Hx); [lia|].
  exists x. destruct x as [w n].
  destruct Hx as (_ & Ht & Hs & _). simpl.
  repeat split; try assumption.
  intros k Hk. rewrite Hs. now apply nth_error_backoff.
Qed.

(** *** The invariant of the client *)

Lemma heartbeat_ok_shape (w : WebSocketManager) :
  heartbeat_ok w -> heartbeat_shape w.
Proof.
  intros [H|(h & i & Hh & Hi & _)]; [now left | right; now exists h].
Qed.

Lemma stopHeartbeat_off (w : WebSocketManager) :
  heartbeat_shape w ->
  stopHeartbeat w =
  {| ws := ws w;
     reconnectAttempts := reconnectAttempts w;
     heartbeatInterval := None;
     sockets := sockets w;
     intervals := [];
     timeouts := timeouts w;
     next_handle := next_handle w;
     scheduled := scheduled w;
     sent := sent w;
     lost := lost w |}.
Proof.
  unfold stopHeartbeat. intros [[Hh Hi]|(h & Hh & Hi)]; rewrite Hh.
  - destruct w. simpl in *. now subst.
  - rewrite Hi. simpl. now rewrite Nat.eqb_refl.
Qed.

Lemma idle_handleReconnect (w : WebSocketManager)
    (n : Notif.NotificationManager) :
  idle (w, n) -> inv (handleReconnect (w, n)).
Proof.
  intros (Hh & Hi & Hc & Ht & Hl & Hwf & Hs).
  destruct (Z.lt_ge_cases (reconnectAttempts w) maxReconnectAttempts) as [H|H].
  - rewrite handleReconnect_arms by exact H. unfold inv. simpl.
    split; [now left|]. split.
    { intros i r Hr Hne. now rewrite (Hc i r Hr) in Hne. }
    split; [rewrite Ht; simpl; lia|].
    split; [intros Hne; specialize (Hl Hne); lia|].
    now split.
  - rewrite handleReconnect_gives_up by exact H.
    pose proof (wf_show "Connection lost. Please refresh the page."
                  "danger" 0 n Hwf) as Hwf'.
    pose proof (fun id Hid =>
                  safe_show id "Connection lost. Please refresh the page."
                    "danger" 0 n (Hs id Hid)) as Hs'.
    destruct (safe_after_show "Connection lost. Please refresh the page."
                "danger" 0 n Hwf) as [_ Hnew]; [lia|].
    destruct (Notif.show _ _ 0 n) as [new n']. unfold inv. simpl in *.
    split; [now left|]. split.
    { intros i r Hr Hne. now rewrite (Hc i r Hr) in Hne. }
    split; [rewrite Ht; simpl; lia|].
    split; [intros _; now repeat split|].
    split; [exact Hwf'|].
    intros id Hid. apply in_app_or in Hid. destruct Hid as [Hid|[<-|[]]].
    + now apply Hs'.
    + exact Hnew.
Qed.

Lemma inv_connect_start (b : bool) : inv (connect b start).
Proof.
  destruct b.
  - change (connect true start) with (handleReconnect start).
    apply idle_handleReconnect. unfold idle, start. simpl.
    split; [reflexivity|]. split; [reflexivity|].
    split; [intros i r H; now destruct i|]. split; [reflexivity|].
    split; [intros H; now contradiction H|].
    split; [apply wf_constructor | intros ? []].
  - unfold inv. simpl. split; [now left|]. split.
    { intros i r H _. destruct i; simpl in H; [now split | discriminate]. }
    split; [simpl; lia|]. split; [intros H; now contradiction H|].
    split; [apply wf_constructor | intros ? []].
Qed.

Lemma closing_leaves_idle (i : nat) (r : readyState)
    (w : WebSocketManager) (n : Notif.NotificationManager) :
  inv (w, n) -> sockets w !! i = Some r -> r <> CLOSED ->
  idle (stopHeartbeat (set_socket i CLOSED w), n).
Proof.
  intros (Hb & H2 & H3 & H4 & Hwf & Hs) Hr Hne.
  destruct (H2 i r Hr Hne) as [Hws Ht].
  rewrite stopHeartbeat_off
    by (apply heartbeat_ok_shape in Hb; exact Hb).
  unfold idle. simpl. split; [reflexivity|]. split; [reflexivity|]. split.
  { intros j q Hq. unfold all_closed in *. simpl in Hq.
    apply list_lookup_insert_Some in Hq.
    destruct Hq as [(_ & <- & _)|(Hij & Hq)]; [reflexivity|].
    destruct q; try reflexivity;
      (destruct (H2 j _ Hq) as [Hws' _]; [discriminate | congruence]). }
  split; [exact Ht|]. split; [|now split].
  intros Hl. now apply H4.
Qed.

Lemma inv_send (data : outbound) (w : WebSocketManager)
    (n : Notif.NotificationManager) :
  inv (w, n) -> inv (send data w, n).
Proof.
  intros H. unfold send.
  destruct (ws w) as [j|] eqn:E; [|exact H].
  destruct (sockets w !! j) as [[| | |]|]; try exact H.
  rewrite <- E. exact H.
Qed.

Lemma inv_exec (e : event) (x x' : world) :
  inv x -> automatic e = true -> exec e x = Some x' -> inv x'.
Proof.
  destruct x as [w n]. intros Hinv Ha He.
  pose proof Hinv as (Hb & H2 & H3 & H4 & Hwf & Hs).
  destruct e as [i|i data|i|i|h b|h|data| |b|t]; unfold exec in He;
    try discriminate Ha.
  - (* open *)
    destruct (sockets w !! i) as [[| | |]|] eqn:Hr; try discriminate.
    injection He as <-.
    destruct (H2 i _ Hr) as [Hws Ht]; [discriminate|].
    assert (Hoff : heartbeatInterval w = None /\ intervals w = []).
    { destruct Hb as [Hb|(h & j & _ & _ & Hj & Hopen)]; [exact Hb|].
      congruence. }
    destruct Hoff as [Hh Hi].
    assert (Hnl : lost w = []).
    { destruct (lost w) eqn:El; [reflexivity|].
      destruct H4 as (_ & Hc & _); [discriminate|].
      now specialize (Hc i _ Hr). }
    unfold inv, onopen, startHeartbeat, set_socket. simpl.
    rewrite Hi, Hnl. simpl. split.
    { right. exists (next_handle w), i. repeat split; try assumption.
      apply list_lookup_insert_eq. now apply lookup_lt_Some in Hr. }
    split.
    { intros j q Hq Hne. apply list_lookup_insert_Some in Hq.
      destruct Hq as [(<- & _ & _)|(_ & Hq)]; [now split|].
      now apply (H2 j q). }
    split; [exact H3|]. split; [intros H; now contradiction H|].
    split; [|intros ? []].
    exact (wf_show "Connected to ChatSpeed" "success"
             CONFIG.NOTIFICATION_TIMEOUT n Hwf).
  - (* message *)
    destruct (sockets w !! i) as [[| | |]|] eqn:Hr; try discriminate.
    injection He as <-. destruct data as [m ty|ty]; [|exact Hinv].
    unfold inv, handleMessage. repeat (split; [assumption|]).
    split; [exact (wf_show m ty CONFIG.NOTIFICATION_TIMEOUT n Hwf)|].
    intros id Hid.
    exact (safe_show id m ty CONFIG.NOTIFICATION_TIMEOUT n (Hs id Hid)).
  - (* close *)
    destruct (sockets w !! i) as [r|] eqn:Hr; [|discriminate].
    assert (r <> CLOSED) as Hne by (intros ->; discriminate).
    assert (x' = onclose (set_socket i CLOSED w, n)) as ->
      by (destruct r; congruence).
    apply idle_handleReconnect. now apply (closing_leaves_idle i r).
  - (* error *)
    destruct (sockets w !! i) as [r|] eqn:Hr; [|discriminate].
    assert (r <> CLOSED) as Hne by (intros ->; discriminate).
    unfold onerror in He.
    assert (x' = onclose (set_socket i CLOSED w, n)) as ->
      by (destruct r; congruence).
    apply idle_handleReconnect. now apply (closing_leaves_idle i r).
  - (* reconnect timeout *)
    destruct (existsb _ (timeouts w)) eqn:Hex; [|discriminate].
    injection He as <-.
    assert (Hnone : List.filter (fun p => negb (Nat.eqb h (fst p)))
                                (timeouts w) = []).
    { destruct (timeouts w) as [|p [|q l]]; simpl in *; [discriminate| |lia].
      rewrite orb_false_r in Hex. now rewrite Hex. }
    assert (Hne : timeouts w <> []) by (intros E; now rewrite E in Hex).
    assert (Hc : all_closed w).
    { intros j q Hq. destruct q; try reflexivity;
        (destruct (H2 j _ Hq) as [_ Ht]; [discriminate | contradiction]). }
    assert (Hoff : heartbeatInterval w = None /\ intervals w = []).
    { destruct Hb as [Hb|(h' & j & _ & _ & _ & Hopen)]; [exact Hb|].
      now specialize (Hc j _ Hopen). }
    destruct Hoff as [Hh Hi].
    assert (Hnl : lost w = []).
    { destruct (lost w) eqn:El; [reflexivity|].
      destruct H4 as (Ht & _); [discriminate | contradiction]. }
    unfold reconnect_callback, take_timeout, connect. rewrite Hnone.
    destruct b.
    + apply idle_handleReconnect. unfold idle. simpl. rewrite Hnl.
      split; [exact Hh|]. split; [exact Hi|]. split; [exact Hc|].
      split; [reflexivity|]. split; [intros H; now contradiction H|].
      split; [exact Hwf | intros ? []].
    + unfold inv. simpl. rewrite Hnl. split; [now left|]. split.
      { intros j q Hq Hneq. apply lookup_app_Some in Hq.
        destruct Hq as [Hq|[Hge Hq]].
        - now rewrite (Hc j q Hq) in Hneq.
        - destruct (j - length (sockets w))%nat eqn:Ej; [|discriminate].
          split; [f_equal; lia | reflexivity]. }
      split; [simpl; lia|]. split; [intros H; now contradiction H|].
      split; [exact Hwf | intros ? []].
  - (* heartbeat interval *)
    destruct (existsb _ (intervals w)); [|discriminate].
    injection He as <-. now apply inv_send.
  - (* send *)
    injection He as <-. now apply inv_send.
  - (* disconnect *)
    injection He as <-. unfold disconnect.
    rewrite stopHeartbeat_off by (apply heartbeat_ok_shape in Hb; exact Hb).
    simpl.
    assert (Hquiet : inv
      ({| ws := ws w;
          reconnectAttempts := reconnectAttempts w;
          heartbeatInterval := None;
          sockets := sockets w;
          intervals := [];
          timeouts := timeouts w;
          next_handle := next_handle w;
          scheduled := scheduled w;
          sent := sent w;
          lost := lost w |}, n)).
    { unfold inv. simpl. split; [now left|].
      split; [exact H2|]. split; [exact H3|]. split; [exact H4|].
      split; [exact Hwf | exact Hs]. }
    destruct (ws w) as [j|] eqn:Hws; [|exact Hquiet].
    destruct (sockets w !! j) as [r|] eqn:Hr; [|exact Hquiet].
    assert (Hclosing : r <> CLOSED ->
      inv (set_socket j CLOSING
             {| ws := Some j;
                reconnectAttempts := reconnectAttempts w;
                heartbeatInterval := None;
                sockets := sockets w;
                intervals := [];
                timeouts := timeouts w;
                next_handle := next_handle w;
                scheduled := scheduled w;
                sent := sent w;
                lost := lost w |}, n)).
    { intros Hne. destruct (H2 j r Hr Hne) as [_ Ht].
      unfold inv, set_socket. simpl. split; [now left|]. split.
      { intros k q Hq Hneq. apply list_lookup_insert_Some in Hq.
        destruct Hq as [(<- & _ & _)|(_ & Hq)]; [now split|].
        destruct (H2 k q Hq Hneq) as [Hk _]. split; [|exact Ht].
        congruence. }
      split; [exact H3|]. split; [|now split].
      intros Hl. destruct (H4 Hl) as (_ & Hc & _).
      now specialize (Hc j r Hr). }
    destruct r; try exact Hquiet; apply Hclosing; discriminate.
  - (* the clock of the toasts *)
    injection He as <-. unfold inv. repeat (split; [assumption|]).
    split; [now apply wf_advance_to|].
    intros id Hid. now apply safe_advance_to, Hs.
Qed.

Lemma inv_execs (es : list event) :
  forall x x',
    inv x -> forallb automatic es = true -> execs es x = Some x' -> inv x'.
Proof.
  induction es as [|e es IH]; intros x x' Hinv Ha He; simpl in *.
  - now injection He as <-.
  - apply andb_true_iff in Ha. destruct Ha as [Ha Has].
    destruct (exec e x) as [x1|] eqn:E; [|discriminate].
    apply (IH x1); [|exact Has | exact He].
    now apply (inv_exec e x).
Qed.

Lemma inv_reachable (x : world) : reachable x -> inv x.
Proof.
  intros (b & es & Ha & He).
  exact (inv_execs es _ _ (inv_connect_start b) Ha He).
Qed.

(** Once the retries are used up no event touches the schedule. *)
Lemma exhausted_exec (e : event) (x x' : world) :
  inv x -> lost (fst x) <> [] -> automatic e = true ->
  exec e x = Some x' ->
  scheduled (fst x') = scheduled (fst x) /\ lost (fst x') = lost (fst x).
Proof.
  destruct x as [w n]. intros (Hb & H2 & H3 & H4 & Hwf & Hs) Hl Ha He.
  simpl in Hl. destruct (H4 Hl) as (Ht & Hc & _).
  assert (Hi : intervals w = []).
  { destruct Hb as [[_ Hi]|(h & j & _ & _ & _ & Hopen)]; [exact Hi|].
    now specialize (Hc j _ Hopen). }
  destruct e as [i|i data|i|i|h b|h|data| |b|t]; unfold exec in He;
    try discriminate Ha.
  - destruct (sockets w !! i) as [r|] eqn:Hr; [|discriminate].
    rewrite (Hc i r Hr) in He. discriminate.
  - destruct (sockets w !! i) as [r|] eqn:Hr; [|discriminate].
    rewrite (Hc i r Hr) in He. discriminate.
  - destruct (sockets w !! i) as [r|] eqn:Hr; [|discriminate].
    rewrite (Hc i r Hr) in He. discriminate.
  - destruct (sockets w !! i) as [r|] eqn:Hr; [|discriminate].
    rewrite (Hc i r Hr) in He. discriminate.
  - rewrite Ht in He. discriminate.
  - rewrite Hi in He. discriminate.
  - injection He as <-. unfold send. simpl.
    destruct (ws w) as [j|]; [|now split].
    destruct (sockets w !! j) as [[| | |]|]; now split.
  - injection He as <-. unfold disconnect, stopHeartbeat, set_socket. simpl.
    destruct (heartbeatInterval w); simpl;
      (destruct (ws w) as [j|]; [|now split]);
      (destruct (sockets w !! j) as [[| | |]|]; now split).
  - injection He as <-. now split.
Qed.

Lemma exhausted_execs (es : list event) :
  forall x x',
    inv x -> lost (fst x) <> [] -> forallb automatic es = true ->
    execs es x = Some x' ->
    scheduled (fst x') = scheduled (fst x) /\ lost (fst x') = lost (fst x).
Proof.
  induction es as [|e es IH]; intros x x' Hinv Hl Ha He; simpl in *.
  - injection He as <-. now split.
  - apply andb_true_iff in Ha. destruct Ha as [Ha Has].
    destruct (exec e x) as [x1|] eqn:E; [|discriminate].
    destruct (exhausted_exec e x x1 Hinv Hl Ha E) as [Hs1 Hl1].
    destruct (IH x1 x') as [Hs' Hl']; try assumption.
    + now apply (inv_exec e x).
    + now rewrite Hl1.
    + split; congruence.
Qed.

(** C3.  A failure that finds the retry count at the limit arms no
    reconnect and shows the notification with duration 0.  From then on,
    in every run of the client after [connect()], whatever the transport,
    the timers, [send] and [disconnect] do: no reconnect is armed (the
    schedule stays as it is, nothing is pending), no socket is connecting
    or open, and the notification stays tracked with no timer set to
    dismiss it.  In particular [connect()] followed by six failures in a
    row arms exactly the five reconnects 1000, 2000, 4000, 8000, 16000;
    the sixth failure arms none and leaves the one notification, whose
    only timer is its entry animation. *)
Theorem retries_exhausted_is_final :
  (forall w n,
     maxReconnectAttempts <= reconnectAttempts w ->
     scheduled (fst (handleReconnect (w, n))) = scheduled w /\
     timeouts (fst (handleReconnect (w, n))) = timeouts w /\
     snd (handleReconnect (w, n)) =
     snd (Notif.show "Connection lost. Please refresh the page."
                     "danger" 0 n)) /\
  (forall x es x',
     reachable x -> lost (fst x) <> [] ->
     forallb automatic es = true -> execs es x = Some x' ->
     scheduled (fst x') = scheduled (fst x) /\
     timeouts (fst x') = [] /\
     all_closed (fst x') /\
     forall id, In id (lost (fst x)) ->
                Notif.tracked id (snd x') = true /\
                Notif.undisturbed id (snd x') = true) /\
  (forall f fs,
     length fs = 5%nat ->
     exists x id,
       failures f fs = Some x /\
       scheduled (fst x) = [1000; 2000; 4000; 8000; 16000] /\
       timeouts (fst x) = [] /\
       lost (fst x) = [id] /\
       Notif.notifications (snd x) =
       [Notif.Toast id "Connection lost. Please refresh the page." "danger"] /\
       Notif.timers (snd x) = [Notif.Timer 100 (Notif.AddShow id)]).
Proof.
  split; [|split].
  - intros w n H. now rewrite handleReconnect_gives_up.
  - intros x es x' Hr Hl Ha He.
    pose proof (inv_reachable x Hr) as Hinv.
    destruct (exhausted_execs es x x' Hinv Hl Ha He) as [Hs' Hl'].
    pose proof (inv_execs es x x' Hinv Ha He) as Hinv'.
    destruct x' as [w' n']. destruct Hinv' as (_ & _ & _ & H4 & _ & Hsafe).
    simpl in *. rewrite <- Hl' in Hl. destruct (H4 Hl) as (Ht & Hc & _).
    repeat split; try assumption;
      rewrite <- Hl' in H; now destruct (Hsafe id H) as (? & ? & _).
  - intros f fs Hl.
    destruct (failures_give_up f fs Hl) as ([w n] & E & Hs & Ht & _ & Hlost & ->).
    exists (w, snd (Notif.show "Connection lost. Please refresh the page."
                               "danger" 0 Notif.constructor)), 0%nat.
    simpl in *. now repeat split.
Qed.

(** *** The heartbeat *)

Lemma sent_exec (e : event) (x x' : world) :
  exec e x = Some x' ->
  sent (fst x') = sent (fst x) \/
  exists i d,
    sent (fst x') = (sent (fst x) ++ [(i, d)])%list /\
    ws (fst x) = Some i /\ sockets (fst x) !! i = Some OPEN.
Proof.
  assert (Hsend : forall d w,
            sent (send d w) = sent w \/
            exists i d',
              sent (send d w) = (sent w ++ [(i, d')])%list /\
              ws w = Some i /\ sockets w !! i = Some OPEN).
  { intros d w. unfold send. destruct (ws w) as [j|] eqn:Ew; [|now left].
    destruct (sockets w !! j) as [[| | |]|] eqn:Es; try now left.
    right. now exists j, d. }
  assert (Hstop : forall w, sent (stopHeartbeat w) = sent w).
  { intros w. unfold stopHeartbeat. now destruct (heartbeatInterval w). }
  assert (Hrec : forall y, sent (fst (handleReconnect y)) = sent (fst y)).
  { intros [w n]. unfold handleReconnect.
    destruct (reconnectAttempts w <? maxReconnectAttempts); [reflexivity|].
    now destruct (Notif.show _ _ 0 n). }
  destruct x as [w n]. intros He.
  destruct e as [i|i data|i|i|h b|h|data| |b|t]; unfold exec in He.
  - destruct (sockets w !! i) as [[| | |]|]; try discriminate.
    injection He as <-. now left.
  - destruct (sockets w !! i) as [[| | |]|]; try discriminate.
    injection He as <-. left. now destruct data.
  - destruct (sockets w !! i) as [[| | |]|]; try discriminate;
      injection He as <-; left; unfold onclose; rewrite Hrec; simpl fst;
      now rewrite Hstop.
  - destruct (sockets w !! i) as [[| | |]|]; try discriminate;
      injection He as <-; left; unfold onclose, onerror; rewrite Hrec;
      simpl fst; now rewrite Hstop.
  - destruct (existsb _ (timeouts w)); [|discriminate].
    injection He as <-. left. unfold reconnect_callback, connect.
    destruct b; [now rewrite Hrec | reflexivity].
  - destruct (existsb _ (intervals w)); [|discriminate].
    injection He as <-. apply Hsend.
  - injection He as <-. apply Hsend.
  - injection He as <-. left. unfold disconnect.
    destruct (ws (stopHeartbeat w)) as [j|]; [|apply Hstop].
    destruct (sockets (stopHeartbeat w) !! j) as [[| | |]|]; apply Hstop.
  - injection He as <-. left. unfold connect.
    destruct b; [now rewrite Hrec | reflexivity].
  - injection He as <-. now left.
Qed.

Lemma heartbeat_handleReconnect (y : world) :
  heartbeatInterval (fst (handleReconnect y)) = heartbeatInterval (fst y) /\
  intervals (fst (handleReconnect y)) = intervals (fst y).
Proof.
  destruct y as [w n]. unfold handleReconnect.
  destruct (reconnectAttempts w <? maxReconnectAttempts); [now split|].
  now destruct (Notif.show _ _ 0 n).
Qed.

(** C8.  In every run of the client after [connect()]: the heartbeat is
    either off, or it is the single live interval (period 30000 ms) and
    the current socket is open, so an interval fires only while the
    current socket is open; the open event starts the heartbeat and sets
    the retry counter to 0; a transport close or error stops it at once,
    leaving no interval to fire; and an envelope (a ping included) is
    handed to the transport only while the current socket is open. *)
Theorem heartbeat_only_while_open (x : world) (e : event) (x' : world) :
  reachable x -> automatic e = true -> exec e x = Some x' ->
  heartbeat_ok (fst x) /\
  heartbeat_ok (fst x') /\
  (forall h, e = EvInterval h ->
             exists i, ws (fst x) = Some i /\
                       sockets (fst x) !! i = Some OPEN) /\
  (forall i, e = EvOpen i ->
             reconnectAttempts (fst x') = 0 /\
             exists h, heartbeatInterval (fst x') = Some h /\
                       intervals (fst x') = [(h, 30000)]) /\
  (forall i, e = EvClose i \/ e = EvError i ->
             heartbeatInterval (fst x') = None /\
             intervals (fst x') = [] /\
             forall h, exec (EvInterval h) x' = None) /\
  (sent (fst x') = sent (fst x) \/
   exists i d,
     sent (fst x') = (sent (fst x) ++ [(i, d)])%list /\
     ws (fst x) = Some i /\ sockets (fst x) !! i = Some OPEN).
Proof.
  intros Hr Ha He.
  pose proof (inv_reachable x Hr) as Hinv.
  pose proof (inv_exec e x x' Hinv Ha He) as Hinv'.
  assert (Hclose : forall i,
            exec (EvClose i) x = Some x' ->
            heartbeatInterval (fst x') = None /\
            intervals (fst x') = [] /\
            forall h, exec (EvInterval h) x' = None).
  { intros i Hc. destruct x as [w n]. unfold exec in Hc.
    destruct (sockets w !! i) as [r|] eqn:Hs; [|discriminate].
    assert (r <> CLOSED) as Hne by (intros ->; discriminate).
    assert (x' = onclose (set_socket i CLOSED w, n)) as ->
      by (destruct r; congruence).
    destruct (closing_leaves_idle i r w n Hinv Hs Hne) as (Hh & Hi & _).
    unfold onclose.
    destruct (heartbeat_handleReconnect
                (stopHeartbeat (set_socket i CLOSED w), n)) as [E1 E2].
    simpl fst in E1, E2. rewrite Hh in E1. rewrite Hi in E2.
    split; [exact E1|]. split; [exact E2|].
    intros h. destruct (handleReconnect _) as [w' n']. simpl in *.
    now rewrite E2. }
  split; [|split; [|split; [|split; [|split]]]].
  - destruct x as [w n]. now destruct Hinv.
  - destruct x' as [w' n']. now destruct Hinv'.
  - intros h ->. destruct x as [w n]. destruct Hinv as (Hb & _).
    unfold exec in He. simpl.
    destruct Hb as [[_ Hi]|(h' & i & _ & _ & Hw & Ho)].
    + rewrite Hi in He. discriminate.
    + now exists i.
  - intros i ->. destruct x as [w n]. unfold exec in He.
    destruct (sockets w !! i) as [[| | |]|] eqn:Hs; try discriminate.
    injection He as <-. simpl.
    destruct Hinv as (Hb & H2 & _).
    destruct (H2 i _ Hs) as [Hw _]; [discriminate|].
    split; [reflexivity|]. exists (next_handle w). split; [reflexivity|].
    destruct Hb as [[_ Hi]|(h' & j & _ & _ & Hj & Ho)].
    + now rewrite Hi.
    + congruence.
  - intros i [->| ->]; [now apply (Hclose i)|].
    apply (Hclose i). destruct x as [w n]. exact He.
  - now apply (sent_exec e).
Qed.

End ChannelFacts.

(** ** Optimistic post pipeline *)

Section PostFacts.
Import Posts.

Local Arguments Notif.show : simpl never.

(** [createPost] applies the change before the request is under way. *)
Lemma createPost_begin_applies (text priv : string) (m : PostManager)
    (n : Notif.NotificationManager) :
  let p := fst (createPost_begin text priv (m, n)) in
  let m1 := fst (snd (createPost_begin text priv (m, n))) in
  let n1 := snd (snd (createPost_begin text priv (m, n))) in
  post_id p = Notif.seed n /\
  posts m1 = p :: posts m /\
  articles m1 = Article (post_id p) false 0 :: articles m /\
  Notif.notifications n1 = Notif.notifications n.
Proof. unfold createPost_begin, Notif.draw. simpl. now repeat split. Qed.

Lemma has_post_filter (id : uuid) (l : list post) :
  existsb (fun p => Nat.eqb (post_id p) id)
          (List.filter (fun p => negb (Nat.eqb (post_id p) id)) l) = false.
Proof.
  induction l as [|p l IH]; [reflexivity|]. simpl.
  destruct (Nat.eqb (post_id p) id) eqn:E; simpl; [exact IH|].
  now rewrite E, IH.
Qed.

(** A rejected [createPost] removes the record by its id, leaves the
    other posts alone, and shows the failure. *)
Lemma createPost_rejected_rolls_back (p : post) (m : PostManager)
    (n : Notif.NotificationManager) (w : Channel.WebSocketManager) :
  let m' := fst (fst (createPost_settle p Rejected (m, n, w))) in
  let n' := snd (fst (createPost_settle p Rejected (m, n, w))) in
  has_post (post_id p) m' = false /\
  (forall q, In q (posts m') <-> In q (posts m) /\ post_id q <> post_id p) /\
  Notif.notifications n' =
  (Notif.notifications n ++
   [Notif.Toast (Notif.seed n) "Failed to create post. Please try again."
                "danger"])%list.
Proof.
  cbv zeta. unfold createPost_settle. cbn [fst snd posts articles].
  unfold has_post. cbn [posts]. split; [apply has_post_filter|]. split.
  - intros q. rewrite filter_In, negb_true_iff, Nat.eqb_neq. tauto.
  - unfold Notif.show_default, Notif.show. simpl.
    now destruct (0 <? CONFIG.NOTIFICATION_TIMEOUT).
Qed.

(** A confirmed [createPost] leaves the posts and their articles alone. *)
Lemma createPost_resolved_keeps (p : post) (success : bool)
    (m : PostManager) (n : Notif.NotificationManager)
    (w : Channel.WebSocketManager) :
  fst (fst (createPost_settle p (Resolved success) (m, n, w))) = m.
Proof. now destruct success. Qed.

(** C1.  [createPost] applies the change first, rolls it back by id and
    shows a failure toast when the request is rejected, and keeps it when
    the request is confirmed (the three lemmas above).  [toggleReaction]
    applies the change first as well, but whatever the outcome of the
    request its continuation returns the posts and the notification
    queue as they were after the toggle.  On a post with 0
    likes whose button is inactive, the toggle sets the likes to 1 and
    activates the button; when the request is then rejected the likes
    are still 1, the button is still active and no notification has
    been shown. *)
Theorem toggleReaction_rejection_is_not_rolled_back :
  (forall r x, toggleReaction_settle r x = x) /\
  let m := {| posts := [Post 7%nat "hello" "public" 0 0 0];
              articles := [Article 7%nat false 0] |} in
  let m1 := {| posts := [Post 7%nat "hello" "public" 1 0 0];
               articles := [Article 7%nat true 1] |} in
  likes_of 7%nat m = Some 0 /\
  toggleReaction_begin 7%nat "like" m = Awaiting false m1 /\
  sendToServer false = Rejected /\
  toggleReaction_settle (sendToServer false) (m1, Notif.constructor) =
  (m1, Notif.constructor) /\
  likes_of 7%nat m1 = Some 1 /\
  Notif.notifications Notif.constructor = [].
Proof.
  split; [intros r x; now destruct r|].
  cbv zeta. now repeat split.
Qed.

End PostFacts.

(** ** Media selection *)

Section MediaFacts.
Import Media.

Local Arguments Notif.show : simpl never.

Lemma notifications_show (m ty : string) (d : Z)
    (n : Notif.NotificationManager) :
  Notif.notifications (snd (Notif.show m ty d n)) =
  (Notif.notifications n ++ [Notif.Toast (Notif.seed n) m ty])%list.
Proof. unfold Notif.show. simpl. now destruct (0 <? d). Qed.

Lemma acceptable_spec (f : file) :
  acceptable f = false <->
  CONFIG.MAX_FILE_SIZE < size f \/
  ~ In (extension f) CONFIG.SUPPORTED_FORMATS.
Proof.
  unfold acceptable, supported.
  rewrite andb_false_iff, negb_false_iff, Z.ltb_lt.
  split; intros [H|H]; auto; right.
  - intros Hin. assert (existsb (String.eqb (extension f))
                                CONFIG.SUPPORTED_FORMATS = true); [|congruence].
    apply existsb_exists. exists (extension f).
    split; [exact Hin | apply String.eqb_refl].
  - apply not_true_is_false. intros Hex. apply H.
    apply existsb_exists in Hex. destruct Hex as (e & He & Heq).
    apply String.eqb_eq in Heq. now subst e.
Qed.

(** [validateFile] answers [acceptable] and owes a toast per rejection. *)
Lemma notifications_show_default (m ty : string)
    (n : Notif.NotificationManager) :
  Notif.notifications (snd (Notif.show_default m ty n)) =
  (Notif.notifications n ++ [Notif.Toast (Notif.seed n) m ty])%list.
Proof. apply notifications_show. Qed.

Lemma validateFile_spec (f : file) (n : Notif.NotificationManager) :
  fst (validateFile f n) = acceptable f /\
  exists ts,
    Notif.notifications (snd (validateFile f n)) =
    (Notif.notifications n ++ ts)%list /\
    map describe ts = if acceptable f then [] else [rejection f].
Proof.
  unfold validateFile, acceptable, rejection.
  destruct (CONFIG.MAX_FILE_SIZE <? size f); cbn [fst snd negb andb].
  - split; [reflexivity|]. eexists.
    rewrite notifications_show_default. split; reflexivity.
  - destruct (supported (extension f)); cbn [fst snd negb andb].
    + split; [reflexivity|]. exists []. now rewrite app_nil_r.
    + split; [reflexivity|]. eexists.
      rewrite notifications_show_default. split; reflexivity.
Qed.

Lemma filter_valid_spec (files : list file) :
  forall n : Notif.NotificationManager,
    fst (filter_valid files n) = List.filter acceptable files /\
    exists ts,
      Notif.notifications (snd (filter_valid files n)) =
      (Notif.notifications n ++ ts)%list /\
      map describe ts =
      map rejection (List.filter (fun f => negb (acceptable f)) files).
Proof.
  induction files as [|f files IH]; intros n; simpl.
  - split; [reflexivity|]. exists []. now rewrite app_nil_r.
  - destruct (validateFile_spec f n) as (Hok & ts1 & Hn1 & Hd1).
    destruct (validateFile f n) as [ok n1]. simpl in Hok, Hn1.
    destruct (IH n1) as (Hv & ts2 & Hn2 & Hd2).
    destruct (filter_valid files n1) as [valid n2]. simpl in Hv, Hn2. simpl.
    subst ok valid. split.
    + now destruct (acceptable f).
    + exists (ts1 ++ ts2)%list. split.
      * now rewrite Hn2, Hn1, app_assoc.
      * rewrite map_app, Hd1, Hd2. now destruct (acceptable f).
Qed.

Lemma selectedFiles_createPreview (f : file) (m : MediaManager) :
  selectedFiles (createPreview f m) = selectedFiles m.
Proof. unfold createPreview. now destruct (mediaPreview m). Qed.

Lemma selectedFiles_admit (fs : list file) :
  forall m : MediaManager,
    selectedFiles (fold_left (fun acc f => createPreview f (push f acc)) fs m)
    = (selectedFiles m ++ fs)%list.
Proof.
  induction fs as [|f fs IH]; intros m; simpl.
  - now rewrite app_nil_r.
  - rewrite IH, selectedFiles_createPreview. simpl. now rewrite <- app_assoc.
Qed.

(** What [processFiles] does, by cases. *)
Lemma processFiles_spec (files : list file) (m : MediaManager)
    (n : Notif.NotificationManager) :
  let valid := List.filter acceptable files in
  let invalid := List.filter (fun f => negb (acceptable f)) files in
  exists ts warning,
    Notif.notifications (snd (processFiles files (m, n))) =
    (Notif.notifications n ++ ts)%list /\
    map describe ts = (map rejection invalid ++ warning)%list /\
    ((valid = [] /\
      fst (processFiles files (m, n)) = m /\
      warning = [("No valid files selected", "warning")]) \/
     (valid <> [] /\
      (maxFiles < length (selectedFiles m) + length valid)%nat /\
      fst (processFiles files (m, n)) = m /\
      warning = [("Maximum 10 files allowed", "warning")]) \/
     (valid <> [] /\
      (length (selectedFiles m) + length valid <= maxFiles)%nat /\
      selectedFiles (fst (processFiles files (m, n))) =
      (selectedFiles m ++ valid)%list /\
      warning = [])).
Proof.
  intros valid invalid. unfold processFiles.
  destruct (filter_valid_spec files n) as (Hv & ts & Hn & Hd).
  destruct (filter_valid files n) as [validFiles n1]. simpl in Hv, Hn.
  subst validFiles. fold valid. fold invalid in Hd.
  destruct (Nat.eqb_spec (length valid) 0) as [E|E].
  - exists (ts ++ [Notif.Toast (Notif.seed n1) "No valid files selected"
                               "warning"])%list,
           [("No valid files selected", "warning")].
    cbn [fst snd]. rewrite notifications_show_default, Hn.
    split; [now rewrite app_assoc|]. split; [now rewrite map_app, Hd|].
    left. split; [now apply length_zero_iff_nil | now split].
  - assert (valid <> []) as Hne by (intros E'; now rewrite E' in E).
    destruct (Nat.ltb_spec maxFiles (length (selectedFiles m) + length valid))
      as [Hcap|Hcap].
    + exists (ts ++ [Notif.Toast (Notif.seed n1) "Maximum 10 files allowed"
                                 "warning"])%list,
             [("Maximum 10 files allowed", "warning")].
      cbn [fst snd]. rewrite notifications_show_default, Hn.
      split; [now rewrite app_assoc|]. split; [now rewrite map_app, Hd|].
      right. left. now repeat split.
    + exists ts, []. cbn [fst snd]. split; [exact Hn|].
      split; [now rewrite app_nil_r|].
      right. right. split; [exact Hne|]. split; [exact Hcap|].
      split; [apply selectedFiles_admit | reflexivity].
Qed.

(** C9.  A file is invalid exactly when it is larger than 10 MB or its
    extension (the lower-cased piece after the last dot) is not one of
    the supported formats.  Validation reads the batch alone; whatever
    [processFiles] adds to [selectedFiles] is a valid file of the batch,
    so an invalid file is never added, and a batch without a valid file
    leaves the manager as it is.  Every invalid file gets exactly one
    [danger] toast, in the order of the batch, followed by at most one
    warning; nothing else is shown, so nothing is tried again. *)
Theorem invalid_files_never_selected
    (files : list file) (m : MediaManager) (n : Notif.NotificationManager) :
  let m' := fst (processFiles files (m, n)) in
  let n' := snd (processFiles files (m, n)) in
  (forall f, acceptable f = false <->
             CONFIG.MAX_FILE_SIZE < size f \/
             ~ In (extension f) CONFIG.SUPPORTED_FORMATS) /\
  fst (filter_valid files n) = List.filter acceptable files /\
  (exists added,
     selectedFiles m' = (selectedFiles m ++ added)%list /\
     forall f, In f added -> In f files /\ acceptable f = true) /\
  ((forall f, In f files -> acceptable f = false) -> m' = m) /\
  (exists ts warning,
     Notif.notifications n' = (Notif.notifications n ++ ts)%list /\
     map describe ts =
     (map rejection (List.filter (fun f => negb (acceptable f)) files)
      ++ warning)%list /\
     (length warning <= 1)%nat) /\
  (forall f, snd (rejection f) = "danger").
Proof.
  cbv zeta.
  destruct (processFiles_spec files m n) as (ts & warning & Hn & Hd & Hcase).
  split; [exact acceptable_spec|].
  split; [apply filter_valid_spec|].
  split; [|split; [|split]].
  - destruct Hcase as [(_ & Hm & _)|[(_ & _ & Hm & _)|(_ & _ & Hm & _)]].
    + exists []. rewrite Hm, app_nil_r. split; [reflexivity | intros ? []].
    + exists []. rewrite Hm, app_nil_r. split; [reflexivity | intros ? []].
    + exists (List.filter acceptable files). split; [exact Hm|].
      intros f Hf. now apply filter_In in Hf.
  - intros Hall.
    destruct Hcase as [(_ & Hm & _)|[(Hne & _)|(Hne & _)]]; [exact Hm| |];
      exfalso; apply Hne;
      (destruct (List.filter acceptable files) as [|f l] eqn:E;
       [reflexivity|]);
      (assert (In f (List.filter acceptable files)) as Hf
         by (rewrite E; now left));
      apply filter_In in Hf; destruct Hf as [Hin Hok];
      rewrite (Hall f Hin) in Hok; discriminate.
  - exists ts, warning. split; [exact Hn|]. split; [exact Hd|].
    destruct Hcase as [(_ & _ & ->)|[(_ & _ & _ & ->)|(_ & _ & _ & ->)]];
      simpl; lia.
  - intros f. unfold rejection. now destruct (CONFIG.MAX_FILE_SIZE <? size f).
Qed.

Lemma selectedFiles_removeFile (fileName : string) (m : MediaManager) :
  selectedFiles (after (removeFile fileName m)) =
  List.filter (fun f => negb (String.eqb (name f) fileName)) (selectedFiles m).
Proof.
  unfold removeFile. destruct (mediaPreview m) as [children|]; [|reflexivity].
  destruct (List.find _ children) as [p|]; [|reflexivity].
  now destruct (has_media p).
Qed.

Lemma step_keeps_cap (o : op)
    (x : MediaManager * Notif.NotificationManager) :
  (length (selectedFiles (fst x)) <= maxFiles)%nat ->
  (length (selectedFiles (fst (step o x))) <= maxFiles)%nat.
Proof.
  destruct x as [m n]. intros Hcap.
  destruct o as [files|fileName| |]; unfold step; cbn [fst snd].
  - destruct (processFiles_spec files m n)
      as (_ & _ & _ & _ & [(_ & -> & _)|[(_ & _ & -> & _)|(_ & Hle & -> & _)]]);
      [exact Hcap | exact Hcap |].
    now rewrite length_app.
  - rewrite selectedFiles_removeFile.
    etransitivity; [apply List.filter_length_le | exact Hcap].
  - unfold maxFiles. simpl. lia.
  - exact Hcap.
Qed.

(** C10.  When the selected files and the valid files of a batch would
    together exceed ten, [processFiles] leaves the manager as it is and
    ends with the warning; in general a batch is either not admitted at
    all or its valid files are appended in full; every operation keeps
    [selectedFiles.length <= 10], and so does every run from the
    constructor. *)
Theorem selected_files_never_exceed_ten :
  (forall files m n,
     (length (selectedFiles m) <= maxFiles)%nat ->
     (maxFiles < length (selectedFiles m) +
                 length (List.filter acceptable files))%nat ->
     fst (processFiles files (m, n)) = m /\
     exists ts,
       Notif.notifications (snd (processFiles files (m, n))) =
       (Notif.notifications n ++ ts)%list /\
       List.last (map describe ts) ("", "") =
       ("Maximum 10 files allowed", "warning")) /\
  (forall files m n,
     fst (processFiles files (m, n)) = m \/
     selectedFiles (fst (processFiles files (m, n))) =
     (selectedFiles m ++ List.filter acceptable files)%list) /\
  (forall o x,
     (length (selectedFiles (fst x)) <= maxFiles)%nat ->
     (length (selectedFiles (fst (step o x))) <= maxFiles)%nat) /\
  (forall page_has_preview os,
     (length (selectedFiles
                (fst (steps os (constructor page_has_preview,
                                Notif.constructor)))) <= 10)%nat).
Proof.
  split; [|split; [|split]].
  - intros files m n Hcap Hover.
    destruct (processFiles_spec files m n)
      as (ts & warning & Hn & Hd &
          [(Hv & _)|[(_ & _ & Hm & ->)|(_ & Hle & _)]]).
    + rewrite Hv in Hover. simpl in Hover. lia.
    + split; [exact Hm|]. exists ts. split; [exact Hn|].
      rewrite Hd. apply last_last.
    + lia.
  - intros files m n.
    destruct (processFiles_spec files m n)
      as (_ & _ & _ & _ & [(_ & Hm & _)|[(_ & _ & Hm & _)|(_ & _ & Hm & _)]]);
      auto.
  - exact step_keeps_cap.
  - intros b os. unfold steps.
    assert (forall x,
              (length (selectedFiles (fst x)) <= maxFiles)%nat ->
              (length (selectedFiles
                         (fst (fold_left (fun acc o => step o acc) os x)))
               <= maxFiles)%nat) as H.
    { induction os as [|o os IH]; intros x Hx; [exact Hx|].
      simpl. apply IH, step_keeps_cap, Hx. }
    apply (H (constructor b, Notif.constructor)). simpl. unfold maxFiles. lia.
Qed.

End MediaFacts.

(** ** Instances *)

Lemma setState_last_write_and_notifications_witness :
  let s := Store.subscribe "theme" 1%nat Store.constructor in
  Store.wf s /\ Store.ordinary s /\ "theme" <> "__proto__" /\
  Store.getState "theme" (Store.setStates "theme" [Store.VStr "dark"] s) =
  Store.VStr "dark" /\
  Store.calls (Store.setStates "theme" [Store.VStr "dark"] s) =
  [Store.Invocation "theme" 1%nat (Store.VStr "dark") (Store.VStr "light")].
Proof.
  cbv zeta.
  assert (Hwf : Store.wf (Store.subscribe "theme" 1%nat Store.constructor))
    by apply store_wf_subscribe, store_wf_constructor.
  assert (Ho : Store.ordinary
                 (Store.subscribe "theme" 1%nat Store.constructor))
    by (left; reflexivity).
  assert (Hk : "theme" <> "__proto__") by discriminate.
  split; [exact Hwf|]. split; [exact Ho|]. split; [exact Hk|].
  destruct (setState_last_write_and_notifications
              (Store.subscribe "theme" 1%nat Store.constructor) "theme"
              [Store.VStr "dark"] Hwf Ho Hk) as (Hg & _ & _ & Hc).
  split; [exact Hg | exact Hc].
Defined.

Lemma unsubscribe_stops_notifications_witness :
  ~ In 2%nat (Store.subscribers "theme"
                (Store.subscribe "theme" 1%nat Store.constructor)) /\
  Store.unsubscribe "theme" 2%nat
    (Store.subscribe "theme" 1%nat Store.constructor) =
  Store.subscribe "theme" 1%nat Store.constructor.
Proof.
  assert (H : ~ In 2%nat (Store.subscribers "theme"
                            (Store.subscribe "theme" 1%nat Store.constructor))).
  { vm_compute. intros [H|[]]. discriminate H. }
  split; [exact H|].
  destruct (unsubscribe_stops_notifications
              (Store.subscribe "theme" 1%nat Store.constructor)
              "theme" 2%nat []) as [_ Hnoop].
  exact (Hnoop H).
Defined.

Lemma show_presence_and_expiry_witness :
  (0 < 5000 /\ 0 + 5000 + 300 <= 5300 /\
   Notif.tracked 0%nat
     (Notif.advance_to 5300
        (snd (Notif.show "Saved" "success" 5000 Notif.constructor))) = false) /\
  (0 <= 0 /\ Notif.wf Notif.constructor /\
   Notif.tracked 0%nat
     (Notif.steps [Notif.Elapse 100000]
        (snd (Notif.show "Connection lost" "danger" 0 Notif.constructor)))
   = true).
Proof.
  split.
  - split; [lia|]. split; [lia|].
    destruct (show_presence_and_expiry Notif.constructor "Saved" "success"
                5000 [] 5300) as (_ & H & _).
    apply H; simpl; lia.
  - split; [lia|]. split; [exact wf_constructor|].
    destruct (show_presence_and_expiry Notif.constructor "Connection lost"
                "danger" 0 [Notif.Elapse 100000] 0) as (_ & _ & H).
    apply H; [lia | exact wf_constructor | reflexivity].
Defined.

Lemma remove_is_idempotent_witness :
  let s := snd (Notif.show "Saved" "success" 0 Notif.constructor) in
  Notif.wf s /\ Notif.tracked 0%nat s = true /\ Notif.now s + 300 <= 300 /\
  let s' := Notif.advance_to 300
              (Notif.steps [Notif.Dismiss 0%nat; Notif.Dismiss 0%nat]
                           (Notif.remove 0%nat s)) in
  Notif.tracked 0%nat s' = false /\
  count_occ Nat.eq_dec (Notif.removals s') 0%nat = 1%nat.
Proof.
  cbv zeta.
  assert (Hwf : Notif.wf (snd (Notif.show "Saved" "success" 0
                                          Notif.constructor)))
    by apply wf_show, wf_constructor.
  split; [exact Hwf|]. split; [reflexivity|]. split; [simpl; lia|].
  destruct remove_is_idempotent as (_ & H & _).
  destruct (H (snd (Notif.show "Saved" "success" 0 Notif.constructor)) 0%nat
              [Notif.Dismiss 0%nat; Notif.Dismiss 0%nat] 300 Hwf eq_refl)
    as (Ht & _ & Hc); [simpl; lia|].
  split; [exact Ht | exact Hc].
Defined.

Lemma reconnect_backoff_schedule_witness :
  (length [Channel.ByClose; Channel.ByThrow; Channel.ByError; Channel.ByClose]
   < 5)%nat /\
  exists x,
    Channel.failures Channel.ByError
      [Channel.ByClose; Channel.ByThrow; Channel.ByError; Channel.ByClose]
    = Some x /\
    Channel.scheduled (fst x) = [1000; 2000; 4000; 8000; 16000].
Proof.
  assert (Hl : (length [Channel.ByClose; Channel.ByThrow; Channel.ByError;
                        Channel.ByClose] < 5)%nat) by (simpl; lia).
  split; [exact Hl|].
  destruct (reconnect_backoff_schedule Channel.ByError
              [Channel.ByClose; Channel.ByThrow; Channel.ByError;
               Channel.ByClose] Hl) as (_ & x & E & Hs & _).
  exists x. split; [exact E | exact Hs].
Defined.

Lemma retries_exhausted_is_final_witness :
  length [Channel.ByClose; Channel.ByClose; Channel.ByClose; Channel.ByClose;
          Channel.ByClose] = 5%nat /\
  exists x id,
    Channel.failures Channel.ByClose
      [Channel.ByClose; Channel.ByClose; Channel.ByClose; Channel.ByClose;
       Channel.ByClose] = Some x /\
    Channel.scheduled (fst x) = [1000; 2000; 4000; 8000; 16000] /\
    Channel.timeouts (fst x) = [] /\
    Channel.lost (fst x) = [id].
Proof.
  split; [reflexivity|].
  destruct retries_exhausted_is_final as (_ & _ & H).
  destruct (H Channel.ByClose
              [Channel.ByClose; Channel.ByClose; Channel.ByClose;
               Channel.ByClose; Channel.ByClose] eq_refl)
    as (x & id & E & Hs & Ht & Hl & _).
  exists x, id. now repeat split.
Defined.

Lemma heartbeat_only_while_open_witness :
  let x := Channel.connect false Channel.start in
  let x' := Channel.onopen
              (Channel.set_socket 0 Channel.OPEN (fst x), snd x) in
  Channel.reachable x /\
  Channel.automatic (Channel.EvOpen 0) = true /\
  Channel.exec (Channel.EvOpen 0) x = Some x' /\
  Channel.reconnectAttempts (fst x') = 0 /\
  Channel.heartbeat_ok (fst x').
Proof.
  cbv zeta.
  assert (Hr : Channel.reachable (Channel.connect false Channel.start)).
  { exists false, []. split; reflexivity. }
  split; [exact Hr|]. split; [reflexivity|]. split; [reflexivity|].
  destruct (heartbeat_only_while_open
              (Channel.connect false Channel.start) (Channel.EvOpen 0)
              (Channel.onopen
                 (Channel.set_socket 0 Channel.OPEN
                    (fst (Channel.connect false Channel.start)),
                  snd (Channel.connect false Channel.start)))
              Hr eq_refl eq_refl) as (_ & Hok & _ & Hopen & _).
  split; [|exact Hok].
  now destruct (Hopen 0%nat eq_refl).
Defined.

Lemma invalid_files_never_selected_witness :
  let files := [Media.File "tool.exe" 5 "application/octet-stream";
                Media.File "film.mp4" 99999999 "video/mp4"] in
  (forall f, In f files -> Media.acceptable f = false) /\
  fst (Media.processFiles files (Media.constructor true, Notif.constructor))
  = Media.constructor true.
Proof.
  cbv zeta.
  assert (H : forall f,
            In f [Media.File "tool.exe" 5 "application/octet-stream";
                  Media.File "film.mp4" 99999999 "video/mp4"] ->
            Media.acceptable f = false).
  { intros f [<-|[<-|[]]]; reflexivity. }
  split; [exact H|].
  destruct (invalid_files_never_selected
              [Media.File "tool.exe" 5 "application/octet-stream";
               Media.File "film.mp4" 99999999 "video/mp4"]
              (Media.constructor true) Notif.constructor)
    as (_ & _ & _ & Hsame & _).
  exact (Hsame H).
Defined.

Lemma selected_files_never_exceed_ten_witness :
  let m := {| Media.selectedFiles :=
                repeat (Media.File "a.png" 1 "image/png") 10;
              Media.mediaPreview := None |} in
  (length (Media.selectedFiles m) <= Media.maxFiles)%nat /\
  (Media.maxFiles <
   length (Media.selectedFiles m) +
   length (List.filter Media.acceptable [Media.File "b.png" 1 "image/png"]))%nat /\
  fst (Media.processFiles [Media.File "b.png" 1 "image/png"]
                          (m, Notif.constructor)) = m.
Proof.
  cbv zeta.
  split; [simpl; unfold Media.maxFiles; lia|].
  split; [simpl; unfold Media.maxFiles; lia|].
  destruct selected_files_never_exceed_ten as (H & _).
  destruct (H [Media.File "b.png" 1 "image/png"]
              {| Media.selectedFiles :=
                   repeat (Media.File "a.png" 1 "image/png") 10;
                 Media.mediaPreview := None |}
              Notif.constructor) as [Hm _].
  - simpl. unfold Media.maxFiles. lia.
  - simpl. unfold Media.maxFiles. lia.
  - exact Hm.
Defined.

(** * Further properties *)

(** ** More on the state store *)

Section StoreMore.
Import Store.

Lemma getState_setState_other (k k' : string) (v : value) (s : StateManager) :
  k <> k' -> k <> "__proto__" -> getState k' (setState k v s) = getState k' s.
Proof.
  intros Hne Hk. unfold getState.
  destruct (state_setState k v s Hk) as [-> ->].
  now rewrite lookup_insert_ne.
Qed.

(** X1.  Keys are independent.  On a store whose state object has
    [Object.prototype] or [null] as its prototype, a run of [setState]
    calls that does not write ["__proto__"] leaves the value of every
    key it does not write as it was (a key the object does not own,
    other than ["__proto__"] and the names of the methods of
    [Object.prototype], still reads as [undefined]), leaves the
    prototype and every listener set as they were, and invokes
    callbacks only for keys it writes. *)
Theorem setState_touches_only_its_key
    (s : StateManager) (kvs : list (string * value)) (k : string) :
  ~ In k (map fst kvs) -> ~ In "__proto__" (map fst kvs) -> ordinary s ->
  getState k (setMany kvs s) = getState k s /\
  (state s !! k = None -> k <> "__proto__" ->
   existsb (String.eqb k) members = false ->
   getState k (setMany kvs s) = VUndefined) /\
  proto (setMany kvs s) = proto s /\
  listeners (setMany kvs s) = listeners s /\
  exists extra,
    calls (setMany kvs s) = (calls s ++ extra)%list /\
    Forall (fun i => In (inv_key i) (map fst kvs)) extra.
Proof.
  intros Hk Hp Ho.
  assert (Hundef : state s !! k = None -> k <> "__proto__" ->
                   existsb (String.eqb k) members = false ->
                   getState k s = VUndefined).
  { intros H Hk' Hm. unfold getState. rewrite H. unfold inherited.
    apply String.eqb_neq in Hk'.
    destruct Ho as [-> | ->]; [now rewrite Hk', Hm | reflexivity]. }
  clear Ho. revert s Hundef.
  induction kvs as [|[k' v] kvs IH]; intros s Hundef.
  - simpl. split; [reflexivity|]. split; [exact Hundef|].
    split; [reflexivity|]. split; [reflexivity|].
    exists []. rewrite app_nil_r. split; [reflexivity | constructor].
  - change (setMany ((k', v) :: kvs) s) with (setMany kvs (setState k' v s)).
    simpl in Hk, Hp.
    assert (Hne : k' <> k) by tauto.
    assert (Hk' : ~ In k (map fst kvs)) by tauto.
    assert (Hnp : k' <> "__proto__") by tauto.
    assert (Hp' : ~ In "__proto__" (map fst kvs)) by tauto.
    assert (Hg0 : getState k (setState k' v s) = getState k s)
      by (now apply getState_setState_other).
    destruct (IH Hk' Hp' (setState k' v s))
      as (Hg & Hu & Hpr & Hl & extra & Hc & Hf).
    { intros H1 H2 H3. rewrite Hg0. apply Hundef; [|exact H2|exact H3].
      destruct (state_setState k' v s Hnp) as [E _]. rewrite E in H1.
      now rewrite lookup_insert_ne in H1. }
    destruct (state_setState k' v s Hnp) as [_ Epr].
    rewrite Hg, Hpr, Hl, Hg0, Epr, listeners_setState.
    split; [reflexivity|]. split; [exact Hundef|].
    split; [reflexivity|]. split; [reflexivity|].
    exists (owed k' (subscribers k' s) (v, getState k' s) ++ extra)%list.
    split.
    + rewrite Hc, calls_setState. now rewrite <- app_assoc.
    + apply Forall_app. split.
      * unfold owed. apply List.Forall_forall. intros i Hi.
        apply in_map_iff in Hi. destruct Hi as (c & <- & _). now left.
      * eapply List.Forall_impl; [|exact Hf]. intros i Hi. now right.
Qed.

Lemma set_add_present (cb : callback) (l : list callback) :
  In cb l -> set_add cb l = l.
Proof.
  intros H. unfold set_add.
  assert (existsb (Nat.eqb cb) l = true) as ->; [|reflexivity].
  apply existsb_exists. exists cb. split; [exact H | apply Nat.eqb_refl].
Qed.

Lemma set_add_In (cb : callback) (l : list callback) : In cb (set_add cb l).
Proof.
  unfold set_add. destruct (existsb (Nat.eqb cb) l) eqn:E.
  - apply existsb_exists in E. destruct E as (x & Hx & E).
    apply Nat.eqb_eq in E. now subst x.
  - apply in_or_app. right. now left.
Qed.

Lemma subscribers_subscribe (k : string) (cb : callback) (s : StateManager) :
  subscribers k (subscribe k cb s) = set_add cb (subscribers k s).
Proof.
  unfold subscribe, subscribers. simpl. rewrite lookup_insert_eq. simpl.
  destruct (listeners s !! k) as [l|] eqn:E.
  - now rewrite E.
  - now rewrite lookup_insert_eq.
Qed.

Lemma set_delete_set_add (cb : callback) (l : list callback) :
  ~ In cb l -> set_delete cb (set_add cb l) = l.
Proof.
  intros Hn. unfold set_add.
  destruct (existsb (Nat.eqb cb) l) eqn:E.
  - exfalso. apply Hn. apply existsb_exists in E.
    destruct E as (x & Hx & E). apply Nat.eqb_eq in E. now subst x.
  - unfold set_delete. rewrite List.filter_app. simpl. rewrite Nat.eqb_refl. simpl.
    rewrite app_nil_r. now apply set_delete_absent.
Qed.

Lemma listeners_subscribe (k : string) (cb : callback) (s : StateManager) :
  listeners (subscribe k cb s) !! k = Some (set_add cb (subscribers k s)).
Proof.
  unfold subscribe, subscribers. simpl. rewrite lookup_insert_eq. f_equal.
  destruct (listeners s !! k) as [l|] eqn:E; [now rewrite E|].
  now rewrite lookup_insert_eq.
Qed.

Lemma subscribe_present (k : string) (cb : callback) (l : list callback)
    (s : StateManager) :
  listeners s !! k = Some l -> In cb l -> subscribe k cb s = s.
Proof.
  intros E Hin. unfold subscribe. rewrite E. simpl. rewrite E. simpl.
  rewrite set_add_present by exact Hin.
  rewrite insert_id by exact E. now destruct s.
Qed.

(** X2.  Subscribing a callback that is already subscribed changes
    nothing (it stays at its place and is still invoked once per
    [setState]); subscribing a new callback puts it last; and
    unsubscribing a callback right after it was newly subscribed leaves
    the subscribers of the key as they were before. *)
Theorem subscribe_is_idempotent
    (s : StateManager) (k : string) (cb : callback) :
  subscribe k cb (subscribe k cb s) = subscribe k cb s /\
  (In cb (subscribers k s) ->
   subscribers k (subscribe k cb s) = subscribers k s) /\
  (~ In cb (subscribers k s) ->
   subscribers k (subscribe k cb s) = (subscribers k s ++ [cb])%list /\
   subscribers k (unsubscribe k cb (subscribe k cb s)) = subscribers k s).
Proof.
  split; [|split].
  - apply (subscribe_present k cb _ _ (listeners_subscribe k cb s)).
    apply set_add_In.
  - intros H. rewrite subscribers_subscribe. now apply set_add_present.
  - intros Hn. rewrite subscribers_subscribe. split.
    + unfold set_add.
      destruct (existsb (Nat.eqb cb) (subscribers k s)) eqn:E; [|reflexivity].
      exfalso. apply Hn. apply existsb_exists in E.
      destruct E as (x & Hx & E). apply Nat.eqb_eq in E. now subst x.
    + unfold unsubscribe. rewrite listeners_subscribe.
      unfold subscribers at 1. simpl. rewrite lookup_insert_eq.
      simpl. now apply set_delete_set_add.
Qed.

End StoreMore.

(** ** More on the notification queue *)

Section NotifMoreFacts.
Import Notif NotifMore.

Lemma lasting_tick (id : uuid) (start t : Z) (s s' : NotificationManager) :
  t < start + 300 ->
  lasting id start s -> tick t s = Some s' -> lasting id start s'.
Proof.
  intros Ht (Htr & Hpend) H. apply tick_Some in H.
  destruct H as (m & r & E & Hdue & ->).
  pose proof (extract_min_In _ _ _ E) as Hsplit.
  destruct (Hpend m) as [Hm1 Hm2]; [apply Hsplit; now left|].
  assert (Hr : forall x, In x r ->
                         (act x = Remove id -> start <= due x) /\
                         (act x = Finalize id -> start + 300 <= due x)).
  { intros x Hx. apply Hpend, Hsplit. now right. }
  split.
  - destruct (act m) as [i|i|i] eqn:Ea; simpl.
    + exact Htr.
    + rewrite tracked_remove. exact Htr.
    + rewrite tracked_finalize.
      change (tracked id (fired m r s)) with (tracked id s). rewrite Htr.
      simpl. apply negb_true_iff, Nat.eqb_neq. intros ->.
      specialize (Hm2 eq_refl). lia.
  - intros x Hx.
    destruct (timers_run_action (act m) (fired m r s))
      as [Eq|(i & Ha & Eq)]; rewrite Eq in Hx.
    + now apply Hr.
    + apply in_app_or in Hx. destruct Hx as [Hx|[<-|[]]]; [now apply Hr|].
      simpl. split; [discriminate|]. intros [= ->].
      specialize (Hm1 Ha). lia.
Qed.

Lemma lasting_advance_to (id : uuid) (start t : Z) (s : NotificationManager) :
  t < start + 300 -> lasting id start s -> lasting id start (advance_to t s).
Proof.
  intros Ht Hs.
  exact (run_invariant (lasting id start) t
           (fun a b => lasting_tick id start t a b Ht)
           (weight (timers s)) s Hs).
Qed.

Lemma lasting_after_show (m ty : string) (d : Z) (s : NotificationManager) :
  wf s -> 0 < d ->
  lasting (fst (show m ty d s)) (now s + timer_delay d)
          (snd (show m ty d s)).
Proof.
  intros (_ & _ & _ & _ & _ & H6) Hd. split.
  - rewrite tracked_show. unfold show. simpl.
    now rewrite Nat.eqb_refl, orb_true_r.
  - pose proof (timer_delay_nonneg d) as Hn.
    unfold show, setTimeout. cbn [generateUUID fst snd].
    apply Z.ltb_lt in Hd. rewrite Hd. cbn [timers now seed].
    intros x Hx.
    apply in_app_or in Hx. destruct Hx as [Hx|[<-|[]]].
    + apply in_app_or in Hx. destruct Hx as [Hx|[<-|[]]].
      * apply H6 in Hx.
        split; intros Ea; rewrite Ea in Hx; simpl in Hx; lia.
      * simpl. split; discriminate.
    + cbn [act due]. split; [lia | discriminate].
Qed.

Lemma doomed_after_show_exact (m ty : string) (d : Z)
    (s : NotificationManager) :
  0 < d ->
  doomed (fst (show m ty d s)) (now s + timer_delay d + 300)
         (snd (show m ty d s)).
Proof.
  intros Hd. pose proof (timer_delay_nonneg d) as Hn.
  unfold show, doomed, setTimeout. cbn [generateUUID fst snd].
  apply Z.ltb_lt in Hd. rewrite Hd.
  cbn [seed tracked notifications container has_id existsb timers now].
  split; [lia|].
  right. right. split; [lia|].
  exists (Timer (now s + timer_delay d) (Remove (seed s))).
  split; [|split; [reflexivity | cbn [due]; lia]].
  apply in_or_app. right. now left.
Qed.

(** X3.  On a well-formed queue, with nothing but time passing, a toast
    shown with a [duration] from 1 to [2^31 - 1] is tracked exactly as
    long as the clock is before creation time + [duration] + 300 ms: it
    is not dismissed early, and it is gone from then on. *)
Theorem toast_lifetime_is_exact
    (s : NotificationManager) (message type : string) (duration t : Z) :
  wf s -> 0 < duration < 2 ^ 31 ->
  (tracked (fst (show message type duration s))
           (advance_to t (snd (show message type duration s))) = true <->
   t < now s + duration + 300).
Proof.
  intros Hwf Hb. assert (Hd : 0 < duration) by lia.
  rewrite <- (timer_delay_small duration) at 3 by lia.
  split.
  - intros Ht.
    destruct (Z.lt_ge_cases t (now s + timer_delay duration + 300))
      as [H|H]; [exact H|].
    rewrite (doomed_gone _ (now s + timer_delay duration + 300)) in Ht;
      [discriminate | now apply doomed_after_show_exact | exact H].
  - intros Ht.
    now destruct (lasting_advance_to _ (now s + timer_delay duration) t _ Ht
                    (lasting_after_show message type duration s Hwf Hd)).
Qed.

Lemma notifications_remove (i : uuid) (s : NotificationManager) :
  notifications (remove i s) = notifications s.
Proof. unfold remove. now destruct (find_toast i s). Qed.

Lemma notifications_run_action (a : action) (s : NotificationManager) :
  forall n, In n (notifications (run_action a s)) -> In n (notifications s).
Proof.
  intros n. destruct a as [i|i|i]; simpl.
  - auto.
  - now rewrite notifications_remove.
  - intros H. now apply filter_In in H.
Qed.

Lemma notifications_shrink (t : Z) (s0 s : NotificationManager) :
  (forall n, In n (notifications s) -> In n (notifications s0)) ->
  forall n, In n (notifications (advance_to t s)) -> In n (notifications s0).
Proof.
  intros Hs.
  exact (run_invariant
           (fun x => forall n, In n (notifications x) ->
                               In n (notifications s0)) t
           (fun a b Ha Hb n Hn =>
              match tick_Some t a b Hb with
              | ex_intro _ m (ex_intro _ r (conj _ (conj _ Eb))) =>
                  Ha n (notifications_run_action (act m) (fired m r a) n
                          (eq_ind b (fun y => In n (notifications y)) Hn _ Eb))
              end)
           (weight (timers s)) s Hs).
Qed.

Lemma clear_dooms (l : list toast) :
  forall (a : NotificationManager) (id : uuid),
    (id < seed a)%nat -> In id (map toast_id l) ->
    doomed id (now a + 300)
           (fold_left (fun acc n => remove (toast_id n) acc) l a).
Proof.
  induction l as [|n l IH]; intros a id Hlt Hin; [destruct Hin|].
  simpl.
  assert (Hkeep : forall l' b,
            doomed id (now a + 300) b ->
            doomed id (now a + 300)
                   (fold_left (fun acc n => remove (toast_id n) acc) l' b)).
  { induction l' as [|n' l' IH']; intros b Hb; [exact Hb|].
    simpl. apply IH'. now apply doomed_remove. }
  destruct (Nat.eq_dec (toast_id n) id) as [E|E].
  - apply Hkeep. rewrite E. now apply doomed_after_remove.
  - destruct Hin as [Hin|Hin]; [contradiction|].
    pose proof (now_run_action (Remove (toast_id n)) a) as Hnow.
    pose proof (seed_run_action (Remove (toast_id n)) a) as Hseed.
    simpl in Hnow, Hseed. rewrite <- Hnow. apply IH; [|exact Hin].
    now rewrite Hseed.
Qed.

(** X4.  [clear()] on a well-formed queue empties it: once 300 ms have
    passed no toast is tracked, the container has no child, and every
    toast that was tracked has been detached exactly once. *)
Theorem clear_removes_everything (s : NotificationManager) (t : Z) :
  wf s -> now s + 300 <= t ->
  notifications (advance_to t (clear s)) = [] /\
  container (advance_to t (clear s)) = [] /\
  forall id, tracked id s = true ->
             count_occ Nat.eq_dec (removals (advance_to t (clear s))) id
             = 1%nat.
Proof.
  intros Hwf Ht.
  assert (Hwf' : wf (advance_to t (clear s))).
  { apply wf_advance_to.
    apply clear_invariant; [intros; now apply wf_remove | exact Hwf]. }
  assert (Hgone : forall id, tracked id s = true ->
                             tracked id (advance_to t (clear s)) = false).
  { intros id Hid. apply (doomed_gone _ (now s + 300)); [|exact Ht].
    apply tracked_In in Hid. unfold clear. apply clear_dooms; [|exact Hid].
    destruct Hwf as (H1 & _ & _ & H4 & _). apply H4. now rewrite <- H1. }
  assert (Hsub : forall n, In n (notifications (advance_to t (clear s))) ->
                           In n (notifications s)).
  { apply notifications_shrink.
    apply (clear_invariant
             (fun x => forall n, In n (notifications x) ->
                                 In n (notifications s))); [|auto].
    intros i x Hx n. rewrite notifications_remove. apply Hx. }
  assert (Hnil : notifications (advance_to t (clear s)) = []).
  { destruct (notifications (advance_to t (clear s))) as [|n l] eqn:E;
      [reflexivity|].
    assert (Hin : In n (notifications s)) by (apply Hsub; now left).
    assert (Htr : tracked (toast_id n) s = true).
    { apply tracked_In. unfold ids. apply in_map_iff. now exists n. }
    specialize (Hgone _ Htr). unfold tracked in Hgone. rewrite E in Hgone.
    simpl in Hgone. now rewrite Nat.eqb_refl in Hgone. }
  split; [exact Hnil|]. split.
  - destruct Hwf' as (H1 & _). rewrite <- H1. unfold ids. now rewrite Hnil.
  - intros id Hid.
    assert (Hk : kept id (advance_to t (clear s))).
    { apply kept_advance_to.
      apply clear_invariant; [intros; now apply kept_remove|].
      left. destruct Hwf as (H1 & _). rewrite <- H1. now apply tracked_In. }
    destruct (kept_exactly_once id _ Hwf' Hk) as [(H & _)|(_ & _ & H)];
      [|exact H].
    rewrite (Hgone id Hid) in H. discriminate.
Qed.

End NotifMoreFacts.

(** ** More on the channel client *)

Section ChannelMoreFacts.
Import Channel ChannelMore.

Local Arguments handleReconnect : simpl never.
Local Arguments Notif.show : simpl never.
Local Arguments Notif.advance_to : simpl never.
Local Arguments Z.pow : simpl never.
Local Arguments Z.mul : simpl never.
Local Arguments Z.add : simpl never.
Local Arguments Z.of_nat : simpl never.

Lemma handleReconnect_frame (y : world) :
  ws (fst (handleReconnect y)) = ws (fst y) /\
  sockets (fst (handleReconnect y)) = sockets (fst y) /\
  reconnectAttempts (fst (handleReconnect y)) = reconnectAttempts (fst y).
Proof.
  destruct y as [w n]. unfold handleReconnect.
  destruct (reconnectAttempts w <? maxReconnectAttempts); [now repeat split|].
  now destruct (Notif.show _ _ 0 n).
Qed.

Lemma stopHeartbeat_frame (w : WebSocketManager) :
  ws (stopHeartbeat w) = ws w /\
  sockets (stopHeartbeat w) = sockets w /\
  reconnectAttempts (stopHeartbeat w) = reconnectAttempts w.
Proof. unfold stopHeartbeat. now destruct (heartbeatInterval w). Qed.

Lemma send_frame (d : outbound) (w : WebSocketManager) :
  ws (send d w) = ws w /\
  sockets (send d w) = sockets w /\
  reconnectAttempts (send d w) = reconnectAttempts w.
Proof.
  unfold send. destruct (ws w) as [j|] eqn:E; [|now rewrite E].
  destruct (sockets w !! j) as [[| | |]|]; simpl; now rewrite ?E.
Qed.

Lemma disconnect_frame (w : WebSocketManager) :
  reconnectAttempts (disconnect w) = reconnectAttempts w /\
  ws (disconnect w) = ws w /\
  forall j, ws w = Some j -> sockets (disconnect w) !! j <> Some OPEN.
Proof.
  unfold disconnect.
  destruct (stopHeartbeat_frame w) as (F1 & F2 & F3).
  rewrite F1, F2.
  destruct (ws w) as [k|] eqn:Hw; [|repeat split; auto; discriminate].
  destruct (sockets w !! k) as [r|] eqn:Hr.
  - assert (Hk : (k < length (sockets w))%nat)
      by (now apply lookup_lt_Some in Hr).
    destruct r; simpl; rewrite ?F1, ?F2, ?F3;
      (split; [reflexivity|]); (split; [reflexivity|]);
      intros j [= <-]; rewrite ?list_lookup_insert_eq by exact Hk;
      rewrite ?Hr; discriminate.
  - rewrite F1, F2, F3. split; [reflexivity|]. split; [reflexivity|].
    intros j [= <-]. rewrite Hr. discriminate.
Qed.

Lemma fresh_after_close (j : nat) (w : WebSocketManager)
    (n : Notif.NotificationManager) :
  ws w = Some j ->
  fresh_while_open (fst (onclose (set_socket j CLOSED w, n))).
Proof.
  intros Hw i Hi Ho. unfold onclose in *.
  destruct (handleReconnect_frame (stopHeartbeat (set_socket j CLOSED w), n))
    as (E1 & E2 & _).
  destruct (stopHeartbeat_frame (set_socket j CLOSED w)) as (F1 & F2 & _).
  simpl fst in E1, E2. rewrite E1, F1 in Hi. rewrite E2, F2 in Ho.
  simpl in Hi, Ho. rewrite Hw in Hi. injection Hi as <-.
  apply list_lookup_insert_Some in Ho.
  destruct Ho as [(_ & Ho & _)|(Hne & _)]; [discriminate | congruence].
Qed.

Lemma fresh_exec (e : event) (x x' : world) :
  inv x -> fresh_while_open (fst x) -> automatic e = true ->
  exec e x = Some x' -> fresh_while_open (fst x').
Proof.
  destruct x as [w n]. intros Hinv Hf Ha He. simpl in Hf.
  pose proof Hinv as (Hb & H2 & H3 & H4 & Hwf & Hs).
  destruct e as [i|i data|i|i|h b|h|data| |b|t]; unfold exec in He;
    try discriminate Ha.
  - destruct (sockets w !! i) as [[| | |]|]; try discriminate.
    injection He as <-. now intros j _ _.
  - destruct (sockets w !! i) as [[| | |]|]; try discriminate.
    injection He as <-. now destruct data.
  - destruct (sockets w !! i) as [r|] eqn:Hr; [|discriminate].
    assert (r <> CLOSED) as Hne by (intros ->; discriminate).
    assert (x' = onclose (set_socket i CLOSED w, n)) as ->
      by (destruct r; congruence).
    apply fresh_after_close. now destruct (H2 i r Hr Hne).
  - destruct (sockets w !! i) as [r|] eqn:Hr; [|discriminate].
    assert (r <> CLOSED) as Hne by (intros ->; discriminate).
    unfold onerror in He.
    assert (x' = onclose (set_socket i CLOSED w, n)) as ->
      by (destruct r; congruence).
    apply fresh_after_close. now destruct (H2 i r Hr Hne).
  - destruct (existsb _ (timeouts w)) eqn:Hex; [|discriminate].
    injection He as <-.
    assert (Hne : timeouts w <> []) by (intros E; now rewrite E in Hex).
    assert (Hc : all_closed w).
    { intros j q Hq. destruct q; try reflexivity;
        (destruct (H2 j _ Hq) as [_ Ht]; [discriminate | contradiction]). }
    unfold reconnect_callback, take_timeout, connect. destruct b.
    + intros j Hj Ho.
      match type of Hj with ws (fst (handleReconnect ?y)) = _ =>
        destruct (handleReconnect_frame y) as (_ & E2 & _) end.
      rewrite E2 in Ho. simpl in Ho. now specialize (Hc j _ Ho).
    + intros j Hj Ho. simpl in Hj, Ho. injection Hj as <-.
      rewrite lookup_app_r in Ho by lia.
      replace (length (sockets w) - length (sockets w))%nat with 0%nat in Ho
        by lia.
      discriminate.
  - destruct (existsb _ (intervals w)); [|discriminate].
    injection He as <-. intros j Hj Ho. simpl in *.
    destruct (send_frame OPing w) as (E1 & E2 & E3).
    rewrite E1 in Hj. rewrite E2 in Ho. rewrite E3. now apply (Hf j).
  - injection He as <-. intros j Hj Ho. simpl in *.
    destruct (send_frame data w) as (E1 & E2 & E3).
    rewrite E1 in Hj. rewrite E2 in Ho. rewrite E3. now apply (Hf j).
  - injection He as <-. intros j Hj Ho. simpl in *.
    destruct (disconnect_frame w) as (E1 & E2 & E3).
    rewrite E2 in Hj. now destruct (E3 j Hj).
  - injection He as <-. exact Hf.
Qed.

Lemma fresh_reachable (x : world) :
  reachable x -> fresh_while_open (fst x).
Proof.
  intros (b & es & Ha & He).
  assert (H0 : fresh_while_open (fst (connect b start))).
  { destruct b; intros i Hi Ho; simpl in *; [discriminate|].
    injection Hi as <-. discriminate. }
  pose proof (inv_connect_start b) as Hinv.
  revert Ha He Hinv H0. generalize (connect b start) as y.
  induction es as [|e es IH]; intros y Ha He Hinv H0; simpl in *.
  - now injection He as <-.
  - apply andb_true_iff in Ha. destruct Ha as [Ha Has].
    destruct (exec e y) as [y1|] eqn:E; [|discriminate].
    apply (IH y1); try assumption.
    + now apply (inv_exec e y).
    + now apply (fresh_exec e y).
Qed.

Lemma timeout_fires (w : WebSocketManager) (n : Notif.NotificationManager)
    (h : nat) (d : Z) :
  timeouts w = [(h, d)] ->
  exists w1,
    exec (EvTimeout h false) (w, n) = Some (w1, n) /\
    sockets w1 = (sockets w ++ [CONNECTING])%list /\
    timeouts w1 = [] /\
    scheduled w1 = scheduled w /\
    next_handle w1 = next_handle w /\
    heartbeatInterval w1 = heartbeatInterval w.
Proof.
  intros Ht. unfold exec. rewrite Ht. cbn [existsb fst].
  rewrite Nat.eqb_refl. cbn [orb].
  unfold reconnect_callback, take_timeout, connect. rewrite Ht.
  cbn [List.filter fst]. rewrite Nat.eqb_refl. cbn [negb].
  eexists. split; [reflexivity|]. now repeat split.
Qed.

Lemma open_fires (w : WebSocketManager) (n : Notif.NotificationManager)
    (i : nat) :
  sockets w !! i = Some CONNECTING ->
  exists w1 n1,
    exec (EvOpen i) (w, n) = Some (w1, n1) /\
    sockets w1 = <[i := OPEN]> (sockets w) /\
    reconnectAttempts w1 = 0 /\
    timeouts w1 = timeouts w /\
    scheduled w1 = scheduled w /\
    heartbeatInterval w1 = Some (next_handle w) /\
    next_handle w1 = S (next_handle w).
Proof.
  intros Hi. unfold exec. rewrite Hi. unfold onopen, set_socket, startHeartbeat.
  eexists. eexists. split; [reflexivity|]. now repeat split.
Qed.

Lemma close_fires (w : WebSocketManager) (n : Notif.NotificationManager)
    (i : nat) (r : readyState) :
  sockets w !! i = Some r -> r <> CLOSED ->
  reconnectAttempts w = 0 ->
  exists w1,
    exec (EvClose i) (w, n) = Some (w1, n) /\
    reconnectAttempts w1 = 0 /\
    timeouts w1 = (timeouts w ++ [(next_handle w, 1000)])%list /\
    scheduled w1 = (scheduled w ++ [1000])%list /\
    heartbeatInterval w1 = None.
Proof.
  intros Hi Hr Ha. unfold exec. rewrite Hi.
  exists (fst (onclose (set_socket i CLOSED w, n))).
  assert (E : onclose (set_socket i CLOSED w, n) =
              (fst (onclose (set_socket i CLOSED w, n)), n) /\
              reconnectAttempts (fst (onclose (set_socket i CLOSED w, n))) = 0 /\
              timeouts (fst (onclose (set_socket i CLOSED w, n))) =
              (timeouts w ++ [(next_handle w, 1000)])%list /\
              scheduled (fst (onclose (set_socket i CLOSED w, n))) =
              (scheduled w ++ [1000])%list /\
              heartbeatInterval (fst (onclose (set_socket i CLOSED w, n))) =
              None).
  { unfold onclose. rewrite handleReconnect_arms.
    2:{ assert (E : reconnectAttempts (stopHeartbeat (set_socket i CLOSED w)) =
                    reconnectAttempts w)
          by (unfold stopHeartbeat, set_socket; cbn [heartbeatInterval];
              now destruct (heartbeatInterval w)).
        rewrite E, Ha. unfold maxReconnectAttempts. lia. }
    unfold stopHeartbeat, set_socket. cbn [heartbeatInterval].
    destruct (heartbeatInterval w);
      cbn [fst reconnectAttempts timeouts scheduled heartbeatInterval
           next_handle];
      rewrite Ha; now repeat split. }
  destruct E as (E0 & E).
  split; [|exact E]. destruct r; try contradiction; now rewrite <- E0.
Qed.

(** After [j + 1] failures the reconnect goes through and is then closed:
    the next delay is the base delay again. *)
Lemma recover_resets (j : nat) (x : world) :
  backing_off j x ->
  exists x' h,
    recover x = Some x' /\
    reconnectAttempts (fst x') = 0 /\
    scheduled (fst x') = (backoff (S j) ++ [1000])%list /\
    timeouts (fst x') = [(h, 1000)] /\
    heartbeatInterval (fst x') = None.
Proof.
  destruct x as [w n]. intros (Ha & (h & Ht) & Hs & Hc & Hh & Hl & ->).
  unfold recover. cbn [fst]. rewrite Ht.
  destruct (timeout_fires w Notif.constructor h _ Ht)
    as (w1 & E1 & S1 & T1 & C1 & N1 & B1).
  assert (Hi : sockets w1 !! length (sockets w) = Some CONNECTING).
  { rewrite S1, lookup_app_r by lia.
    now replace (length (sockets w) - length (sockets w))%nat with 0%nat
      by lia. }
  destruct (open_fires w1 Notif.constructor _ Hi)
    as (w2 & n2 & E2 & S2 & A2 & T2 & C2 & B2 & N2).
  assert (Ho : sockets w2 !! length (sockets w) = Some OPEN).
  { rewrite S2. apply list_lookup_insert_eq.
    now apply lookup_lt_Some in Hi. }
  assert (Hno : OPEN <> CLOSED) by discriminate.
  destruct (close_fires w2 n2 _ _ Ho Hno A2) as (w3 & E3 & A3 & T3 & C3 & B3).
  exists (w3, n2), (next_handle w2).
  cbn [execs]. rewrite E1, E2, E3. cbn [fst].
  rewrite A3, C3, C2, C1, Hs, T3, T2, T1, B3. now repeat split.
Qed.

(** X5.  A successful open resets the backoff.  After [connect()] and
    up to five failures in a row, when the pending reconnect goes
    through (the socket opens) and that connection is closed later, the
    retry counter is 0 and the reconnect armed next has the base delay
    of 1000 ms again, whatever the delay reached before. *)
Theorem open_resets_backoff (f : failure) (fs : list failure) :
  (length fs <= 4)%nat ->
  exists x x' h,
    failures f fs = Some x /\
    recover x = Some x' /\
    reconnectAttempts (fst x') = 0 /\
    scheduled (fst x') = (backoff (S (length fs)) ++ [1000])%list /\
    timeouts (fst x') = [(h, 1000)].
Proof.
  intros Hl. destruct (failures_back_off f fs Hl) as (x & E & Hx).
  destruct (recover_resets _ x Hx) as (x' & h & Hr & Ha & Hs & Ht & _).
  now exists x, x', h.
Qed.

(** X6.  [disconnect()] does not end the reconnect cycle.  In every run
    after [connect()], when the current socket is open the retry counter
    is 0 and nothing is pending; [disconnect()] stops the heartbeat and
    puts the socket in the closing state, and the close event that
    follows arms a reconnect with the base delay of 1000 ms. *)
Theorem disconnect_still_reconnects (x : world) (i : nat) :
  reachable x -> open_socket (fst x) = Some i ->
  reconnectAttempts (fst x) = 0 /\
  timeouts (fst x) = [] /\
  exists x1 x2 h,
    exec EvDisconnect x = Some x1 /\
    heartbeatInterval (fst x1) = None /\
    intervals (fst x1) = [] /\
    sockets (fst x1) !! i = Some CLOSING /\
    exec (EvClose i) x1 = Some x2 /\
    timeouts (fst x2) = [(h, 1000)] /\
    scheduled (fst x2) = (scheduled (fst x) ++ [1000])%list.
Proof.
  intros Hr Ho. pose proof (inv_reachable x Hr) as Hinv.
  pose proof (fresh_reachable x Hr) as Hf.
  destruct x as [w n]. simpl in *.
  unfold open_socket in Ho.
  destruct (ws w) as [k|] eqn:Hw; [|discriminate].
  destruct (sockets w !! k) as [[| | |]|] eqn:Hk; try discriminate.
  injection Ho as ->.
  pose proof (Hf i Hw Hk) as Ha.
  destruct Hinv as (Hb & H2 & _).
  destruct (H2 i _ Hk) as [_ Ht]; [discriminate|].
  split; [exact Ha|]. split; [exact Ht|].
  assert (Hlen : (i < length (sockets w))%nat)
    by (now apply lookup_lt_Some in Hk).
  assert (Hd : disconnect w = set_socket i CLOSING (stopHeartbeat w)).
  { unfold disconnect. destruct (stopHeartbeat_frame w) as (F1 & F2 & _).
    now rewrite F1, F2, Hw, Hk. }
  pose proof (stopHeartbeat_off w (heartbeat_ok_shape w Hb)) as Hoff.
  assert (O1 : heartbeatInterval (set_socket i CLOSING (stopHeartbeat w)) =
               None) by (now rewrite Hoff).
  assert (O2 : intervals (set_socket i CLOSING (stopHeartbeat w)) = [])
    by (now rewrite Hoff).
  destruct (stopHeartbeat_frame w) as (F1 & F2 & F3).
  assert (Hc : sockets (disconnect w) !! i = Some CLOSING).
  { rewrite Hd. unfold set_socket. cbn [sockets]. rewrite F2.
    now apply list_lookup_insert_eq. }
  assert (Hno : CLOSING <> CLOSED) by discriminate.
  assert (Hz : reconnectAttempts (disconnect w) = 0).
  { rewrite Hd. unfold set_socket. cbn [reconnectAttempts]. now rewrite F3. }
  destruct (close_fires (disconnect w) n i _ Hc Hno Hz)
    as (w3 & E3 & A3 & T3 & C3 & B3).
  exists (disconnect w, n), (w3, n), (next_handle (disconnect w)).
  split; [reflexivity|]. cbn [fst].
  split; [rewrite Hd; exact O1|]. split; [rewrite Hd; exact O2|].
  split; [exact Hc|]. split; [exact E3|].
  rewrite T3, C3, Hd. unfold set_socket. cbn [timeouts scheduled].
  assert (timeouts (stopHeartbeat w) = timeouts w /\
          scheduled (stopHeartbeat w) = scheduled w) as [-> ->]
    by (unfold stopHeartbeat; now destruct (heartbeatInterval w)).
  now rewrite Ht.
Qed.

End ChannelMoreFacts.

(** ** More on the media selection *)

Section MediaMoreFacts.
Import Media MediaMore.

Lemma split_dot_nonempty (s : string) : split_dot s <> [].
Proof.
  destruct s as [|c s]; simpl; [discriminate|].
  destruct (Ascii.eqb c "."); [discriminate|].
  destruct (split_dot s); discriminate.
Qed.

Lemma split_dot_dotless (s : string) :
  dotless s = true -> split_dot s = [s].
Proof.
  induction s as [|c s IH]; simpl; [reflexivity|].
  intros H. apply andb_true_iff in H. destruct H as [Hc Hs].
  apply negb_true_iff in Hc. rewrite Hc, (IH Hs). reflexivity.
Qed.

Lemma pop_cons (h x : string) (t : list string) :
  pop (h :: x :: t) = pop (x :: t).
Proof. reflexivity. Qed.

Lemma pop_split_dot_app (a b : string) :
  pop (split_dot (a ++ String "." b)) = pop (split_dot b).
Proof.
  induction a as [|c a IH]; simpl.
  - destruct (split_dot b) eqn:E; [now apply split_dot_nonempty in E|].
    reflexivity.
  - destruct (Ascii.eqb c ".").
    + destruct (split_dot (a ++ String "." b)) eqn:E;
        [now apply split_dot_nonempty in E|].
      rewrite <- IH. reflexivity.
    + destruct (split_dot (a ++ String "." b)) as [|h t] eqn:E;
        [now apply split_dot_nonempty in E|].
      rewrite <- IH. destruct t as [|x t]; [|reflexivity].
      exfalso.
      assert (Hlen : (2 <= length (split_dot (a ++ String "." b)))%nat).
      { clear. induction a as [|c a IH]; simpl.
        - destruct (split_dot b) eqn:E; [now apply split_dot_nonempty in E|].
          simpl. lia.
        - destruct (Ascii.eqb c "."); [simpl; lia|].
          destruct (split_dot (a ++ String "." b)); simpl in *; lia. }
      rewrite E in Hlen. simpl in Hlen. lia.
Qed.

Lemma lower_dot (c : ascii) :
  Ascii.eqb (lower c) "." = Ascii.eqb c ".".
Proof. destruct c as [[] [] [] [] [] [] [] []]; reflexivity. Qed.

Lemma lower_lower (c : ascii) : lower (lower c) = lower c.
Proof. destruct c as [[] [] [] [] [] [] [] []]; reflexivity. Qed.

Lemma toLowerCase_idempotent (s : string) :
  toLowerCase (toLowerCase s) = toLowerCase s.
Proof.
  induction s as [|c s IH]; simpl; [reflexivity|].
  now rewrite lower_lower, IH.
Qed.

Lemma split_dot_toLowerCase (s : string) :
  split_dot (toLowerCase s) = map toLowerCase (split_dot s).
Proof.
  induction s as [|c s IH]; simpl; [reflexivity|].
  rewrite lower_dot, IH. destruct (Ascii.eqb c "."); [reflexivity|].
  now destruct (split_dot s).
Qed.

Lemma pop_map (l : list string) :
  l <> [] -> pop (map toLowerCase l) = toLowerCase (pop l).
Proof.
  unfold pop. induction l as [|h t IH]; intros Hne; [contradiction|].
  destruct t as [|x t]; [reflexivity|].
  change (List.last (map toLowerCase (h :: x :: t)) EmptyString)
    with (List.last (map toLowerCase (x :: t)) EmptyString).
  rewrite IH by discriminate. reflexivity.
Qed.

(** X7.  The extension [validateFile] looks at is the text after the
    last dot of the name, lower-cased; a name without a dot is its own
    extension; and the verdict does not depend on the case of the name. *)
Theorem extension_is_text_after_last_dot
    (a b : string) (sz : Z) (ty : string) :
  (dotless b = true ->
   extension (File (a ++ String "." b) sz ty) = toLowerCase b) /\
  (dotless a = true -> extension (File a sz ty) = toLowerCase a) /\
  extension (File (toLowerCase a) sz ty) = extension (File a sz ty) /\
  acceptable (File (toLowerCase a) sz ty) = acceptable (File a sz ty).
Proof.
  assert (Hcase : extension (File (toLowerCase a) sz ty) =
                  extension (File a sz ty)).
  { unfold extension. simpl.
    rewrite split_dot_toLowerCase, pop_map by apply split_dot_nonempty.
    apply toLowerCase_idempotent. }
  split; [|split; [|split]].
  - intros Hb. unfold extension. simpl.
    rewrite pop_split_dot_app, split_dot_dotless by exact Hb. reflexivity.
  - intros Ha. unfold extension. simpl.
    rewrite split_dot_dotless by exact Ha. reflexivity.
  - exact Hcase.
  - unfold acceptable. now rewrite Hcase.
Qed.

Lemma previews_named_remove_same (n : string) (l : list preview) :
  previews_named n (remove_first_preview n l) = pred (previews_named n l).
Proof.
  unfold previews_named. induction l as [|p l IH]; [reflexivity|].
  simpl. destruct (String.eqb (data_file_name p) n) eqn:E; simpl.
  - reflexivity.
  - rewrite E. exact IH.
Qed.

Lemma previews_named_remove_other (n n' : string) (l : list preview) :
  n <> n' ->
  previews_named n' (remove_first_preview n l) = previews_named n' l.
Proof.
  intros Hne. unfold previews_named. induction l as [|p l IH]; [reflexivity|].
  simpl. destruct (String.eqb_spec (data_file_name p) n) as [E|E]; simpl.
  - destruct (String.eqb_spec (data_file_name p) n'); [congruence|reflexivity].
  - destruct (String.eqb (data_file_name p) n'); simpl; now rewrite IH.
Qed.

(** X8.  [removeFile(name)] drops every selected file of that name and
    keeps the files of other names.  When the name can stand in the
    selector as it is (no quote, backslash, line break or null
    character), it takes away at most one preview, the first of that
    name, and no preview of another name: two selected files of the
    same name lose both entries but only one preview. *)
Theorem removeFile_drops_all_of_a_name
    (fileName : string) (m : MediaManager) :
  let m' := after (removeFile fileName m) in
  files_named fileName (selectedFiles m') = 0%nat /\
  (forall f, In f (selectedFiles m') <->
             In f (selectedFiles m) /\ name f <> fileName) /\
  (selector_safe fileName = true ->
   (previews_named fileName (previews m) - 1 <=
    previews_named fileName (previews m'))%nat /\
   (forall n, n <> fileName ->
              previews_named n (previews m') = previews_named n (previews m))).
Proof.
  cbv zeta. split; [|split].
  - rewrite selectedFiles_removeFile. unfold files_named.
    apply length_zero_iff_nil.
    destruct (List.filter _ (List.filter _ _)) as [|f l] eqn:E; [reflexivity|].
    assert (Hin : In f (List.filter
                          (fun f => String.eqb (name f) fileName)
                          (List.filter
                             (fun f => negb (String.eqb (name f) fileName))
                             (selectedFiles m)))) by (rewrite E; now left).
    apply filter_In in Hin. destruct Hin as [Hin H1].
    apply filter_In in Hin. destruct Hin as [_ H2].
    now rewrite H1 in H2.
  - intros f. rewrite selectedFiles_removeFile, filter_In, negb_true_iff.
    destruct (String.eqb_spec (name f) fileName); intuition congruence.
  - intros _. split.
    + unfold removeFile, previews.
      destruct (mediaPreview m) as [children|]; simpl; [|lia].
      destruct (List.find _ children) as [p|]; simpl; [|lia].
      destruct (has_media p); simpl; [|lia].
      rewrite previews_named_remove_same. lia.
    + intros n Hn. unfold removeFile, previews.
      destruct (mediaPreview m) as [children|]; simpl; [|reflexivity].
      destruct (List.find _ children) as [p|]; simpl; [|reflexivity].
      destruct (has_media p); simpl; [|reflexivity].
      apply previews_named_remove_other. congruence.
Qed.

End MediaMoreFacts.

(** ** More on the post pipeline *)

Section PostsMoreFacts.
Import Posts PostsMore.

Local Arguments Notif.show : simpl never.

Lemma filter_all_other (id : uuid) (l : list post) :
  (forall q, In q l -> post_id q <> id) ->
  List.filter (fun p => negb (Nat.eqb (post_id p) id)) l = l.
Proof.
  induction l as [|q l IH]; intros H; [reflexivity|]. simpl.
  destruct (Nat.eqb_spec (post_id q) id) as [E|E].
  - exfalso. apply (H q); [now left | exact E].
  - simpl. f_equal. apply IH. intros q' Hq'. apply H. now right.
Qed.

(** X9.  A rejected [createPost] undoes exactly what the call did: when
    no post has the id drawn for the new one, the posts and the rendered
    articles after the rollback are those from before the call.  When
    the record is gone already the rollback leaves the posts alone. *)
Theorem createPost_rejected_restores_feed
    (text priv : string) (m : PostManager) (n : Notif.NotificationManager)
    (w : Channel.WebSocketManager) :
  (forall q, In q (posts m) -> post_id q <> Notif.seed n) ->
  let p := fst (createPost_begin text priv (m, n)) in
  let m1 := fst (snd (createPost_begin text priv (m, n))) in
  let n1 := snd (snd (createPost_begin text priv (m, n))) in
  fst (fst (createPost_settle p Rejected (m1, n1, w))) = m /\
  posts (fst (fst (createPost_settle p Rejected (m, n1, w)))) = posts m.
Proof.
  intros Hp. cbv zeta.
  unfold createPost_begin, Notif.draw, createPost_settle, renderPost_prepend.
  cbn [fst snd posts articles post_id generateUUID
       List.filter remove_first_article data_post_id].
  rewrite Nat.eqb_refl. cbn [negb].
  rewrite filter_all_other by exact Hp. split; [now destruct m | reflexivity].
Qed.

Lemma find_post_set_likes (id : uuid) (v : Z) (l : list post) (p : post) :
  List.find (fun q => Nat.eqb (post_id q) id) l = Some p ->
  List.find (fun q => Nat.eqb (post_id q) id) (set_likes id v l) =
  Some (Post (post_id p) (content p) (privacy p) v (comments p) (shares p)).
Proof.
  induction l as [|q l IH]; [discriminate|]. simpl.
  destruct (Nat.eqb (post_id q) id) eqn:E; simpl.
  - intros [= <-]. now rewrite E.
  - rewrite E. exact IH.
Qed.

Lemma set_likes_twice (id : uuid) (v v' : Z) (l : list post) :
  set_likes id v' (set_likes id v l) = set_likes id v' l.
Proof.
  induction l as [|q l IH]; [reflexivity|]. simpl.
  destruct (Nat.eqb (post_id q) id) eqn:E; simpl; rewrite E;
    [reflexivity | now rewrite IH].
Qed.

Lemma set_likes_same (id : uuid) (l : list post) (p : post) :
  List.find (fun q => Nat.eqb (post_id q) id) l = Some p ->
  set_likes id (likes p) l = l.
Proof.
  induction l as [|q l IH]; [discriminate|]. simpl.
  destruct (Nat.eqb (post_id q) id) eqn:E.
  - intros [= <-]. now destruct q.
  - intros H. now rewrite IH.
Qed.

Lemma find_article_set_article (id : uuid) (b : bool) (c : Z)
    (l : list article) (a : article) :
  List.find (fun q => Nat.eqb (data_post_id q) id) l = Some a ->
  List.find (fun q => Nat.eqb (data_post_id q) id) (set_article id b c l) =
  Some (Article id b c).
Proof.
  induction l as [|q l IH]; [discriminate|]. simpl.
  destruct (Nat.eqb (data_post_id q) id) eqn:E; simpl.
  - intros _. now rewrite Nat.eqb_refl.
  - rewrite E. exact IH.
Qed.

(** X10.  Toggling a reaction twice gives the like back.  For a post
    with a rendered article and a like count that is not negative (and
    at least 1 when the button is active) and below [2^53], up to where
    a number counts exactly, two [toggleReaction] calls change the
    count by one and then return every post to what it was, with the
    button in its first state again. *)
Theorem toggleReaction_twice_restores
    (m : PostManager) (postId : uuid) (reactionType : string)
    (p : post) (b : article) :
  find_post postId m = Some p ->
  find_article postId m = Some b ->
  0 <= likes p < 2 ^ 53 ->
  (active b = true -> 1 <= likes p) ->
  exists m1 m2,
    toggleReaction_begin postId reactionType m = Awaiting (active b) m1 /\
    likes_of postId m1 =
    Some (if active b then likes p - 1 else likes p + 1) /\
    toggleReaction_begin postId reactionType m1 =
    Awaiting (negb (active b)) m2 /\
    posts m2 = posts m /\
    option_map active (find_article postId m2) = Some (active b).
Proof.
  intros Hp Hb Hl Ha.
  unfold toggleReaction_begin. rewrite Hp, Hb.
  eexists. eexists. split; [reflexivity|].
  unfold likes_of. unfold find_post, find_article in *. cbn [posts articles].
  rewrite (find_post_set_likes _ _ _ _ Hp).
  rewrite (find_article_set_article _ _ _ _ _ Hb).
  cbn [option_map likes active].
  split.
  { f_equal. destruct (active b); [|reflexivity].
    specialize (Ha eq_refl). lia. }
  split; [reflexivity|]. cbn [posts articles].
  rewrite set_likes_twice, negb_involutive. split.
  - replace (if negb (active b) then _ else _) with (likes p).
    + now apply set_likes_same.
    + destruct (active b); cbn [negb].
      * specialize (Ha eq_refl). lia.
      * lia.
  - erewrite find_article_set_article; [reflexivity|].
    now apply (find_article_set_article _ _ _ _ _ Hb).
Qed.

Lemma set_likes_nonneg (id : uuid) (v : Z) (l : list post) :
  0 <= v -> Forall (fun q => 0 <= likes q) l ->
  Forall (fun q => 0 <= likes q) (set_likes id v l).
Proof.
  intros Hv Hl. induction Hl as [|q l Hq Hl IH]; simpl; [constructor|].
  destruct (Nat.eqb (post_id q) id); constructor; auto.
Qed.

Lemma step_nonneg (o : op) (x : feed) :
  Forall (fun q => 0 <= likes q) (posts (fst (fst x))) ->
  Forall (fun q => 0 <= likes q) (posts (fst (fst (step o x)))).
Proof.
  destruct x as [[m n] w]. cbn [fst]. intros H.
  destruct o as [text priv|p r|id ty]; unfold step.
  - unfold createPost_begin, Notif.draw. cbn [generateUUID fst snd].
    cbn [fst posts renderPost_prepend]. constructor; [simpl; lia | exact H].
  - unfold createPost_settle. destruct r as [[|]|]; cbn [fst posts]; try exact H.
    apply List.Forall_forall. intros q Hq. apply filter_In in Hq.
    destruct Hq as [Hq _]. revert q Hq. now apply List.Forall_forall.
  - unfold toggleReaction_begin.
    destruct (find_post id m) as [p|] eqn:Ep; [|exact H].
    destruct (find_article id m) as [b|]; [|exact H].
    cbn [fst posts]. apply set_likes_nonneg; [|exact H].
    assert (0 <= likes p).
    { unfold find_post in Ep. apply find_some in Ep. destruct Ep as [Hin _].
      revert p Hin. now apply List.Forall_forall. }
    destruct (active b); lia.
Qed.

(** X11.  Like counts never go below 0: every step of the pipeline
    (creating a post, settling its request either way, toggling a
    reaction on or off) keeps all counts non-negative, so they are
    non-negative throughout every run from the empty feed. *)
Theorem likes_never_negative (os : list op) (x : feed) :
  Forall (fun q => 0 <= likes q) (posts (fst (fst x))) ->
  Forall (fun q => 0 <= likes q) (posts (fst (fst (steps os x)))) /\
  Forall (fun q => 0 <= likes q) (posts (fst (fst (steps os start)))).
Proof.
  assert (H : forall os x,
            Forall (fun q => 0 <= likes q) (posts (fst (fst x))) ->
            Forall (fun q => 0 <= likes q) (posts (fst (fst (steps os x))))).
  { clear. induction os as [|o os IH]; intros x Hx; [exact Hx|].
    apply (IH (step o x)), step_nonneg, Hx. }
  intros Hx. split; [now apply H|]. apply H. constructor.
Qed.

End PostsMoreFacts.

(** ** Utility functions *)

Section DebounceFacts.
Import Debounce.
Variable A : Type.

Lemma elapse_before_due (wait : Z) (immediate : bool) (c : Z * A) (t : Z)
    (s : debounced A) :
  armed A wait c s -> fst c <= t -> t < fst c + wait ->
  timeout A (elapse A immediate t s) = timeout A s /\
  pending A (elapse A immediate t s) = pending A s /\
  next_handle A (elapse A immediate t s) = next_handle A s /\
  now A (elapse A immediate t s) = t /\
  calls A (elapse A immediate t s) = calls A s.
Proof.
  intros (h & Ht & Hp & Hn) H1 H2. unfold elapse. rewrite Hp. simpl.
  destruct (Z.leb_spec (fst c + wait) t); [lia|]. simpl.
  repeat split. lia.
Qed.

Lemma call_rearms (wait : Z) (immediate : bool) (c c' : Z * A)
    (s : debounced A) :
  timer_delay wait = wait ->
  armed A wait c s -> fst c <= fst c' -> fst c' < fst c + wait ->
  armed A wait c' (call A wait immediate c' s) /\
  calls A (call A wait immediate c' s) = calls A s.
Proof.
  intros Hw Ha H1 H2.
  destruct (elapse_before_due wait immediate c (fst c') s Ha H1 H2)
    as (Et & Ep & _ & En & Ec).
  destruct Ha as (h & Ht & Hp & Hn).
  unfold call, executedFunction. rewrite Hw, Et, Ep, En, Ec, Ht, Hp. simpl.
  rewrite Nat.eqb_refl, andb_false_r. simpl.
  split; [|reflexivity]. eexists. simpl. repeat split.
Qed.

Lemma run_rearms (wait : Z) (immediate : bool) (cs : list (Z * A)) :
  timer_delay wait = wait ->
  forall (c : Z * A) (s : debounced A),
    armed A wait c s -> burst A wait (fst c) cs ->
    armed A wait (final A c cs) (run A wait immediate cs s) /\
    calls A (run A wait immediate cs s) = calls A s.
Proof.
  intros Hw. induction cs as [|c' cs IH]; intros c s Ha Hb.
  - now split.
  - destruct Hb as (H1 & H2 & Hb).
    destruct (call_rearms wait immediate c c' s Hw Ha H1 H2) as [Ha' Hc'].
    destruct (IH c' _ Ha' Hb) as [Hf Hc].
    change (run A wait immediate (c' :: cs) s)
      with (run A wait immediate cs (call A wait immediate c' s)).
    unfold final in *. rewrite last_cons_default.
    split; [exact Hf | congruence].
Qed.

Lemma first_call_arms (wait : Z) (immediate : bool) (c : Z * A)
    (s : debounced A) :
  timer_delay wait = wait ->
  idle A s -> now A s <= fst c ->
  armed A wait c (call A wait immediate c s) /\
  calls A (call A wait immediate c s) =
  if immediate then (calls A s ++ [c])%list else calls A s.
Proof.
  intros Hw [Ht Hp] Hn. unfold call, executedFunction, elapse.
  rewrite Hw, Hp, Ht. simpl. rewrite andb_true_r.
  replace (Z.max (now A s) (fst c)) with (fst c) by lia.
  split; [eexists; simpl; repeat split|].
  destruct immediate; [|reflexivity]. now destruct c.
Qed.

Lemma elapse_fires (wait : Z) (immediate : bool) (c : Z * A) (t : Z)
    (s : debounced A) :
  armed A wait c s -> 0 <= wait -> fst c + wait <= t ->
  idle A (elapse A immediate t s) /\
  calls A (elapse A immediate t s) =
  if immediate then calls A s
  else (calls A s ++ [(fst c + wait, snd c)])%list.
Proof.
  intros (h & Ht & Hp & Hn) Hw Hdue. unfold elapse, idle. rewrite Hp. simpl.
  destruct (Z.leb_spec (fst c + wait) t); [|lia]. simpl.
  split; [now split|]. destruct immediate; [reflexivity|].
  rewrite Hn. now replace (Z.max (fst c) (fst c + wait)) with (fst c + wait)
    by lia.
Qed.

(** X12.  Trailing debounce, for a [wait] from 0 to [2^31 - 1].  From
    a state with nothing armed, a burst of calls with less than [wait]
    ms between one and the next runs [func] not at all while the burst
    lasts, and exactly once when [wait] ms have passed after the last
    call, with the arguments of that last call; then nothing is armed
    again. *)
Theorem debounce_runs_once_after_the_burst
    (wait : Z) (c : Z * A) (cs : list (Z * A)) (t : Z) (s : debounced A) :
  0 <= wait < 2 ^ 31 -> idle A s -> now A s <= fst c ->
  burst A wait (fst c) cs ->
  fst (final A c cs) + wait <= t ->
  calls A (run A wait false (c :: cs) s) = calls A s /\
  calls A (elapse A false t (run A wait false (c :: cs) s)) =
  (calls A s ++ [(fst (final A c cs) + wait, snd (final A c cs))])%list /\
  idle A (elapse A false t (run A wait false (c :: cs) s)).
Proof.
  intros Hwait Hi Hn Hb Ht.
  assert (Hw : 0 <= wait) by lia.
  pose proof (timer_delay_small wait Hwait) as Hd.
  destruct (first_call_arms wait false c s Hd Hi Hn) as [Ha Hc].
  destruct (run_rearms wait false cs Hd c _ Ha Hb) as [Hf Hc'].
  change (run A wait false (c :: cs) s)
    with (run A wait false cs (call A wait false c s)).
  destruct (elapse_fires wait false _ t _ Hf Hw Ht) as [Hidle He].
  split; [congruence|]. split; [|exact Hidle].
  rewrite He. congruence.
Qed.

(** X13.  Leading debounce ([immediate] set), for a [wait] from 0 to
    [2^31 - 1].  From a state with nothing armed, a burst of calls with
    less than [wait] ms between one and the next runs [func] exactly
    once, at the first call and with its arguments; the later calls of
    the burst and the timeout run it no more, and once [wait] ms have
    passed after the last call nothing is armed, so that the next call
    runs [func] at once again. *)
Theorem debounce_immediate_runs_first_call_only
    (wait : Z) (c : Z * A) (cs : list (Z * A)) (t : Z) (s : debounced A) :
  0 <= wait < 2 ^ 31 -> idle A s -> now A s <= fst c ->
  burst A wait (fst c) cs ->
  fst (final A c cs) + wait <= t ->
  calls A (run A wait true (c :: cs) s) = (calls A s ++ [c])%list /\
  calls A (elapse A true t (run A wait true (c :: cs) s)) =
  (calls A s ++ [c])%list /\
  idle A (elapse A true t (run A wait true (c :: cs) s)).
Proof.
  intros Hwait Hi Hn Hb Ht.
  assert (Hw : 0 <= wait) by lia.
  pose proof (timer_delay_small wait Hwait) as Hd.
  destruct (first_call_arms wait true c s Hd Hi Hn) as [Ha Hc].
  destruct (run_rearms wait true cs Hd c _ Ha Hb) as [Hf Hc'].
  change (run A wait true (c :: cs) s)
    with (run A wait true cs (call A wait true c s)).
  destruct (elapse_fires wait true _ t _ Hf Hw Ht) as [Hidle He].
  split; [congruence|]. split; [|exact Hidle].
  rewrite He. congruence.
Qed.

End DebounceFacts.

Section ThrottleFacts.
Import Throttle.
Variable A : Type.






End ThrottleFacts.

Section TimeAgoFacts.
Import TimeAgo.

Lemma count_at_least_one (d s : Z) :
  0 < s -> (1 <=? d / s) = (s <=? d).
Proof.
  intros Hs. destruct (Z.leb_spec s d) as [H|H].
  - apply Z.leb_le. apply Z.div_le_lower_bound; lia.
  - apply Z.leb_gt.
    destruct (Z.lt_ge_cases d 0) as [Hn|Hp].
    + assert (d / s < 0); [|lia]. apply Z.div_lt_upper_bound; lia.
    + rewrite Z.div_small; lia.
Qed.

Ltac bounds :=
  repeat split; try discriminate; try lia;
  try (intros _; apply Z.lt_succ_r, Z.div_lt_upper_bound; lia);
  try (apply Z.div_le_lower_bound; lia).

Ltac others :=
  intros l' s' Hin Hlt; simpl in Hin;
  repeat (destruct Hin as [Hin|Hin]; [injection Hin as <- <-; lia|]);
  destruct Hin.

(** X15.  [timeAgo] names the largest unit that fits.  With [d] the
    whole seconds from [date] to [now]: below 60 (dates in the future
    included) the answer is "Just now"; otherwise it is the count of the
    largest unit not longer than [d], rounded down, with a plural "s"
    exactly when the count is above 1.  The count is at least 1 and at
    most 59 minutes, 23 hours, 6 days, 4 weeks or 12 months. *)
Theorem timeAgo_picks_largest_unit (now date : Z) :
  let d := (now - date) / 1000 in
  (d < 60 -> timeAgo now date = "Just now") /\
  (60 <= d ->
   exists label secs,
     In (label, secs) intervals /\
     secs <= d /\
     (forall label' secs', In (label', secs') intervals ->
                           secs < secs' -> d < secs') /\
     timeAgo now date = phrase (d / secs) label /\
     1 <= d / secs /\
     (label = "minute" -> d / secs <= 59) /\
     (label = "hour" -> d / secs <= 23) /\
     (label = "day" -> d / secs <= 6) /\
     (label = "week" -> d / secs <= 4) /\
     (label = "month" -> d / secs <= 12)).
Proof.
  cbv zeta. unfold timeAgo. generalize ((now - date) / 1000) as d. intros d.
  unfold intervals. cbn [scan].
  rewrite !count_at_least_one by lia.
  split.
  - intros Hd.
    repeat match goal with
           | |- context [?a <=? d] =>
               destruct (Z.leb_spec a d); [lia|]
           end.
    reflexivity.
  - intros Hd.
    destruct (Z.leb_spec 31536000 d).
    { exists "year", 31536000. split; [simpl; tauto|]. split; [lia|].
      split; [others|]. bounds. }
    destruct (Z.leb_spec 2592000 d).
    { exists "month", 2592000. split; [simpl; tauto|]. split; [lia|].
      split; [others|]. bounds. }
    destruct (Z.leb_spec 604800 d).
    { exists "week", 604800. split; [simpl; tauto|]. split; [lia|].
      split; [others|]. bounds. }
    destruct (Z.leb_spec 86400 d).
    { exists "day", 86400. split; [simpl; tauto|]. split; [lia|].
      split; [others|]. bounds. }
    destruct (Z.leb_spec 3600 d).
    { exists "hour", 3600. split; [simpl; tauto|]. split; [lia|].
      split; [others|]. bounds. }
    destruct (Z.leb_spec 60 d); [|lia].
    exists "minute", 60. split; [simpl; tauto|]. split; [lia|].
    split; [others|]. bounds.
Qed.

End TimeAgoFacts.

(** ** Theme *)

Section ThemeFacts.
Import Theme.

(** X16.  [toggleTheme] leaves the manager, the state store, the page
    and the stored preference in agreement on a theme that is [light] or
    [dark]; the subscribers of [theme] are told once, with the new and
    the old value; a reload then starts with the same theme; and two
    toggles bring back a theme that was [light] or [dark]. *)
Theorem toggleTheme_keeps_everything_in_step
    (tm : ThemeManager) (st : Store.StateManager) :
  let tm' := fst (toggleTheme (tm, st)) in
  let st' := snd (toggleTheme (tm, st)) in
  (currentTheme tm' = "light" \/ currentTheme tm' = "dark") /\
  Store.getState "theme" st' = Store.VStr (currentTheme tm') /\
  data_bs_theme tm' = Some (currentTheme tm') /\
  stored tm' = Some (currentTheme tm') /\
  Store.calls st' =
  (Store.calls st ++
   Store.owed "theme" (Store.subscribers "theme" st)
              (Store.VStr (currentTheme tm'), Store.getState "theme" st))%list /\
  currentTheme (fst (reload tm' st')) = currentTheme tm' /\
  (currentTheme tm = "light" \/ currentTheme tm = "dark" ->
   currentTheme (fst (toggleTheme (toggleTheme (tm, st)))) = currentTheme tm).
Proof.
  cbv zeta. unfold toggleTheme, applyTheme, saveTheme, reload, constructor,
    page, preference. cbn [fst snd currentTheme stored data_bs_theme].
  rewrite getState_setState, calls_setState by discriminate.
  destruct (String.eqb_spec (currentTheme tm) "light") as [E|E].
  - split; [now right|]. do 5 (split; [reflexivity|]).
    intros _. now rewrite E.
  - split; [now left|]. do 5 (split; [reflexivity|]).
    intros [H|H]; [contradiction|]. now rewrite H.
Qed.

End ThemeFacts.

(** ** Loading further posts *)

Section FeedFacts.
Import Feed.

Local Arguments Notif.show : simpl never.

Lemma generateDemoPosts_step (count : nat) (random : nat -> demo) (i : nat)
    (n : Notif.NotificationManager) :
  let n2 := snd (Notif.draw (snd (Notif.draw n))) in
  generateDemoPosts (S count) random i n =
  (Posts.Post (Notif.seed n) (demo_content (random i)) ""
              (demo_likes (random i)) (demo_comments (random i))
              (demo_shares (random i))
   :: fst (generateDemoPosts count random (S i) n2),
   snd (generateDemoPosts count random (S i) n2)).
Proof.
  cbv zeta. simpl. now destruct (generateDemoPosts count random (S i) _).
Qed.

Lemma generateDemoPosts_spec (count : nat) (random : nat -> demo) :
  forall i n,
    length (fst (generateDemoPosts count random i n)) = count /\
    (Notif.seed n <= Notif.seed (snd (generateDemoPosts count random i n)))%nat /\
    forall p, In p (fst (generateDemoPosts count random i n)) ->
              (Notif.seed n <= Posts.post_id p <
               Notif.seed (snd (generateDemoPosts count random i n)))%nat.
Proof.
  induction count as [|count IH]; intros i n.
  - simpl. split; [reflexivity|]. split; [lia|]. intros p [].
  - rewrite generateDemoPosts_step. cbv zeta.
    destruct (IH (S i) (snd (Notif.draw (snd (Notif.draw n)))))
      as (H1 & H2 & H3).
    assert (E : Notif.seed (snd (Notif.draw (snd (Notif.draw n)))) =
                S (S (Notif.seed n))) by reflexivity.
    rewrite E in H2, H3. cbn [fst snd length].
    split; [now rewrite H1|]. split; [lia|]. intros p [<-|Hp].
    + cbn [Posts.post_id]. lia.
    + specialize (H3 p Hp). lia.
Qed.

Lemma render_all (ps : list Posts.post) :
  forall m : Posts.PostManager,
    Posts.posts (fold_left (fun m p => renderPost p m) ps m) = Posts.posts m.
Proof.
  induction ps as [|p ps IH]; intros m; simpl; [reflexivity|].
  now rewrite IH.
Qed.





Lemma stuck_exec (f f' : FeedState) (e : event) :
  usable (loadMoreBtn f) = false -> suspended f = 0%nat ->
  exec e f = Some f' ->
  usable (loadMoreBtn f') = false /\ suspended f' = 0%nat /\
  currentPage f' = currentPage f /\ loaded f' = loaded f /\
  hasMore f' = hasMore f /\
  (isLoading f = true -> isLoading f' = true) /\
  (e = Call -> hasMore f = true -> isLoading f' = true).
Proof.
  intros Hu Hs He. destruct e as [|random|o]; simpl in He.
  - injection He as <-. unfold loadMore_begin.
    destruct (isLoading f) eqn:El; cbn [orb].
    { cbn [snd]. rewrite El. now repeat split. }
    destruct (hasMore f) eqn:Eh; cbn [negb].
    2:{ cbn [snd]. rewrite El, Eh. repeat split; auto; discriminate. }
    unfold usable in Hu.
    destruct (loadMoreBtn f) as [b|]; [destruct (spinner b) eqn:Es|];
      try discriminate; cbn [snd loadMoreBtn suspended currentPage loaded
                             hasMore isLoading usable];
      rewrite ?Es; now repeat split.
  - rewrite Hs in He. discriminate.
  - injection He as <-. simpl. repeat split; auto; discriminate.
Qed.

(** X18.  Without a usable button nothing is ever loaded, and the
    first call blocks [loadMore] for good.  On a page whose [#loadMore]
    button or spinner is missing, no run renders a demo post or moves
    the page counter, and once [loadMore] has been called [isLoading]
    stays set although no call is under way. *)
Theorem loadMore_without_button_never_loads
    (es : list event) (button : option Button) (f : FeedState) :
  usable button = false ->
  execs es (constructor button) = Some f ->
  loaded f = [] /\ currentPage f = 1 /\ hasMore f = true /\
  suspended f = 0%nat /\
  (In Call es -> isLoading f = true).
Proof.
  intros Hu.
  assert (G : forall es f0 f,
             usable (loadMoreBtn f0) = false -> suspended f0 = 0%nat ->
             hasMore f0 = true ->
             execs es f0 = Some f ->
             loaded f = loaded f0 /\ currentPage f = currentPage f0 /\
             hasMore f = true /\ suspended f = 0%nat /\
             (isLoading f0 = true \/ In Call es -> isLoading f = true)).
  { clear. induction es as [|e es IH]; intros f0 f Hu Hs Hh He; simpl in He.
    - injection He as <-. repeat split; auto. now intros [H|[]].
    - destruct (exec e f0) as [f1|] eqn:E1; [|discriminate].
      destruct (stuck_exec f0 f1 e Hu Hs E1)
        as (Hu1 & Hs1 & Hc1 & Hl1 & Hh1 & Hi1 & Hk1).
      rewrite Hh in Hh1.
      destruct (IH f1 f Hu1 Hs1 Hh1 He) as (A1 & A2 & A3 & A4 & A5).
      rewrite A1, A2, Hc1, Hl1. repeat split; auto.
      intros [H|[->|H]]; apply A5; auto. }
  intros He.
  destruct (G es (constructor button) f Hu eq_refl eq_refl He)
    as (A1 & A2 & A3 & A4 & A5).
  repeat split; auto.
Qed.

Lemma seed_show (message type : string) (d : Z)
    (n : Notif.NotificationManager) :
  Notif.seed (snd (Notif.show message type d n)) = S (Notif.seed n).
Proof.
  unfold Notif.show, Notif.setTimeout. cbn [generateUUID].
  now destruct (0 <? d).
Qed.

Lemma set_likes_ids (id : uuid) (v : Z) (l : list Posts.post) :
  map Posts.post_id (Posts.set_likes id v l) = map Posts.post_id l.
Proof.
  induction l as [|q l IH]; [reflexivity|]. simpl.
  destruct (Nat.eqb (Posts.post_id q) id); simpl; [reflexivity|].
  now rewrite IH.
Qed.

(** A step of the feed uses ids that are in use already or the next
    one of the generator. *)
Lemma step_ids (o : PostsMore.op) (x : PostsMore.feed) :
  (Notif.seed (snd (fst x)) <=
   Notif.seed (snd (fst (PostsMore.step o x))))%nat /\
  forall id,
    In id (map Posts.post_id (Posts.posts (fst (fst (PostsMore.step o x))))) ->
    In id (map Posts.post_id (Posts.posts (fst (fst x)))) \/
    (id = Notif.seed (snd (fst x)) /\
     (id < Notif.seed (snd (fst (PostsMore.step o x))))%nat).
Proof.
  destruct x as [[m n] w]. cbn [fst snd].
  destruct o as [text priv|p r|id ty]; unfold PostsMore.step.
  - unfold Posts.createPost_begin, Notif.draw. cbn [generateUUID].
    cbn [fst snd Posts.renderPost_prepend Posts.posts Notif.seed map
         Posts.post_id].
    split; [lia|]. intros id [<-|H]; [right; split; [reflexivity|lia]|].
    now left.
  - unfold Posts.createPost_settle, Notif.show_default.
    destruct r as [[|]|]; cbn [fst snd Posts.posts]; rewrite ?seed_show.
    + split; [lia|]. intros id H. now left.
    + split; [lia|]. intros id H. now left.
    + split; [lia|]. intros id H. left.
      apply in_map_iff in H. destruct H as (q & <- & Hq).
      apply filter_In in Hq. destruct Hq as [Hq _]. now apply in_map.
  - unfold Posts.toggleReaction_begin.
    destruct (Posts.find_post id m) as [p|]; cbn [fst snd];
      [|split; [lia | now left]].
    destruct (Posts.find_article id m) as [b|]; cbn [fst snd];
      [|split; [lia | now left]].
    cbn [Posts.posts]. rewrite set_likes_ids. split; [lia | now left].
Qed.

Lemma feed_fresh_exec (f f' : FeedState) (e : event) :
  fresh f -> exec e f = Some f' -> fresh f'.
Proof.
  unfold fresh, manager, notifier. intros [Hp Hl] He.
  destruct e as [|random|o]; simpl in He.
  - injection He as <-. unfold loadMore_begin.
    destruct (isLoading f || negb (hasMore f)); cbn [snd]; [now split|].
    destruct (loadMoreBtn f) as [b|]; [destruct (spinner b)|];
      cbn [world loaded]; now split.
  - destruct (suspended f) as [|k]; [discriminate|]. injection He as <-.
    unfold loadMore_resume. destruct (world f) as [[m n] w].
    cbn [fst snd] in Hp, Hl.
    destruct (generateDemoPosts_spec POSTS_PER_PAGE random 0 n)
      as (_ & Hs & Hn).
    destruct (generateDemoPosts POSTS_PER_PAGE random 0 n) as [newPosts n'].
    cbn [fst snd] in Hs, Hn. cbn [world loaded fst snd].
    rewrite render_all. split.
    + intros p Hin. specialize (Hp p Hin). lia.
    + intros id Hin. apply in_app_or in Hin. destruct Hin as [Hin|Hin].
      * destruct (Hl id Hin) as [H1 H2]. split; [lia | exact H2].
      * apply in_map_iff in Hin. destruct Hin as (q & <- & Hq).
        specialize (Hn q Hq). split; [lia|].
        intros Hin. apply in_map_iff in Hin. destruct Hin as (p & E & Hin).
        specialize (Hp p Hin). lia.
  - injection He as <-. cbn [world loaded].
    destruct (step_ids o (world f)) as [Hs Hi]. split.
    + intros p Hin.
      destruct (Hi (Posts.post_id p) (in_map _ _ _ Hin)) as [H|[_ H]];
        [|exact H].
      apply in_map_iff in H. destruct H as (q & E & Hq).
      specialize (Hp q Hq). lia.
    + intros id Hin. destruct (Hl id Hin) as [H1 H2]. split; [lia|].
      intros H. destruct (Hi id H) as [H'|[H' _]]; [contradiction | lia].
Qed.

Lemma feed_fresh_execs (es : list event) :
  forall f f', fresh f -> execs es f = Some f' -> fresh f'.
Proof.
  induction es as [|e es IH]; intros f f' Hf He; simpl in He.
  - now injection He as <-.
  - destruct (exec e f) as [f1|] eqn:E1; [|discriminate].
    exact (IH f1 f' (feed_fresh_exec f f1 e Hf E1) He).
Qed.

(** X19.  The posts that [loadMore] renders are not put in
    [this.posts].  In every run from a fresh page, however loading is
    mixed with creating posts and toggling reactions, no post in
    [this.posts] has the id of a post rendered by [loadMore]; so
    [toggleReaction] on such a post returns at its first check and
    changes nothing. *)
Theorem loaded_posts_cannot_be_reacted_to
    (es : list event) (button : option Button) (f : FeedState)
    (id : uuid) (reactionType : string) :
  execs es (constructor button) = Some f ->
  In id (loaded f) ->
  Posts.has_post id (manager f) = false /\
  Posts.toggleReaction_begin id reactionType (manager f) = Posts.NotFound /\
  exec (Page (PostsMore.Toggle id reactionType)) f = Some f.
Proof.
  intros He Hin.
  assert (H0 : fresh (constructor button)) by (split; intros ? []).
  destruct (feed_fresh_execs es _ _ H0 He) as [_ Hl].
  destruct (Hl id Hin) as [_ Hno].
  assert (Hf : Posts.find_post id (manager f) = None).
  { unfold Posts.find_post.
    destruct (List.find _ (Posts.posts (manager f))) as [p|] eqn:E;
      [|reflexivity].
    apply find_some in E. destruct E as [Hp E].
    apply Nat.eqb_eq in E. subst id. destruct Hno. now apply in_map. }
  assert (Ht : Posts.toggleReaction_begin id reactionType (manager f) =
               Posts.NotFound)
    by (unfold Posts.toggleReaction_begin; now rewrite Hf).
  split; [|split; [exact Ht|]].
  - unfold Posts.has_post.
    destruct (existsb _ (Posts.posts (manager f))) eqn:E; [|reflexivity].
    apply existsb_exists in E. destruct E as (p & Hp & E).
    apply Nat.eqb_eq in E. subst id. destruct Hno. now apply in_map.
  - unfold exec, PostsMore.step. unfold manager in Ht.
    destruct f as [[[m n] w] ? ? ? ? ? ?]. cbn [world fst] in *.
    now rewrite Ht.
Qed.

End FeedFacts.

(** ** Presence messages *)

Section PresenceFacts.
Import Presence.

Lemma update_spec (key : string) (f : gset string -> gset string)
    (p : page) (r : nat) (s : gset string) :
  Store.getState key (store p) = Store.VRef r -> sets p !! r = Some s ->
  update key f p = {| store := store p; sets := <[r := f s]> (sets p) |}.
Proof. intros Hk Hs. unfold update. now rewrite Hk, Hs. Qed.

Lemma has_spec (key u : string) (st : Store.StateManager)
    (h : gmap nat (gset string)) (r : nat) (s : gset string) :
  Store.getState key st = Store.VRef r -> h !! r = Some s ->
  has key u {| store := st; sets := h |} = bool_decide (u ∈ s).
Proof. intros Hk Hs. unfold has. cbn [store sets]. now rewrite Hk, Hs. Qed.

Lemma has_add (u v : string) (s : gset string) :
  bool_decide (u ∈ s ∪ {[v]}) =
  if String.eqb u v then true else bool_decide (u ∈ s).
Proof.
  destruct (String.eqb_spec u v) as [->|Hne].
  - apply bool_decide_eq_true, elem_of_union. right.
    now apply elem_of_singleton.
  - apply bool_decide_ext. rewrite elem_of_union, elem_of_singleton. tauto.
Qed.

Lemma has_delete (u v : string) (s : gset string) :
  bool_decide (u ∈ s ∖ {[v]}) =
  if String.eqb u v then false else bool_decide (u ∈ s).
Proof.
  destruct (String.eqb_spec u v) as [->|Hne].
  - apply bool_decide_eq_false.
    rewrite elem_of_difference, elem_of_singleton. tauto.
  - apply bool_decide_ext.
    rewrite elem_of_difference, elem_of_singleton. tauto.
Qed.

Lemma handleMessage_step (m : presence) (p : page) (u : string) :
  wired p ->
  wired (handleMessage m p) /\
  store (handleMessage m p) = store p /\
  has "onlineUsers" u (handleMessage m p) =
  online u [m] (has "onlineUsers" u p) /\
  has "typingUsers" u (handleMessage m p) =
  typing u [m] (has "typingUsers" u p).
Proof.
  intros (a & b & Ha & Hb & Hab & [sa Hsa] & [sb Hsb]).
  assert (Hoa : has "onlineUsers" u p = bool_decide (u ∈ sa))
    by (destruct p; now apply (has_spec _ _ _ _ a)).
  assert (Hob : has "typingUsers" u p = bool_decide (u ∈ sb))
    by (destruct p; now apply (has_spec _ _ _ _ b)).
  rewrite Hoa, Hob.
  destruct m as [v|v|v|v]; unfold handleMessage;
    [rewrite (update_spec _ _ p a sa Ha Hsa)
    |rewrite (update_spec _ _ p a sa Ha Hsa)
    |rewrite (update_spec _ _ p b sb Hb Hsb)
    |rewrite (update_spec _ _ p b sb Hb Hsb)];
    cbn [store online typing].
  - split.
    { exists a, b. cbn [store sets]. rewrite lookup_insert_eq.
      rewrite lookup_insert_ne by exact Hab. rewrite Hsb. eauto 10. }
    split; [reflexivity|]. split.
    + rewrite (has_spec _ _ _ _ a (sa ∪ {[v]}) Ha)
        by apply lookup_insert_eq.
      apply has_add.
    + apply (has_spec _ _ _ _ b sb Hb).
      now rewrite lookup_insert_ne by exact Hab.
  - split.
    { exists a, b. cbn [store sets]. rewrite lookup_insert_eq.
      rewrite lookup_insert_ne by exact Hab. rewrite Hsb. eauto 10. }
    split; [reflexivity|]. split.
    + rewrite (has_spec _ _ _ _ a (sa ∖ {[v]}) Ha)
        by apply lookup_insert_eq.
      apply has_delete.
    + apply (has_spec _ _ _ _ b sb Hb).
      now rewrite lookup_insert_ne by exact Hab.
  - split.
    { exists a, b. cbn [store sets]. rewrite lookup_insert_eq.
      rewrite lookup_insert_ne by congruence. rewrite Hsa. eauto 10. }
    split; [reflexivity|]. split.
    + apply (has_spec _ _ _ _ a sa Ha).
      now rewrite lookup_insert_ne by congruence.
    + rewrite (has_spec _ _ _ _ b (sb ∪ {[v]}) Hb)
        by apply lookup_insert_eq.
      apply has_add.
  - split.
    { exists a, b. cbn [store sets]. rewrite lookup_insert_eq.
      rewrite lookup_insert_ne by congruence. rewrite Hsa. eauto 10. }
    split; [reflexivity|]. split.
    + apply (has_spec _ _ _ _ a sa Ha).
      now rewrite lookup_insert_ne by congruence.
    + rewrite (has_spec _ _ _ _ b (sb ∖ {[v]}) Hb)
        by apply lookup_insert_eq.
      apply has_delete.
Qed.

Lemma wired_start : wired start.
Proof.
  exists 3%nat, 2%nat. unfold start. cbn [store sets].
  split; [reflexivity|]. split; [reflexivity|]. split; [lia|].
  split; eexists; reflexivity.
Qed.

(** X20.  Presence follows the last message, and nobody is told.  On a
    page where [onlineUsers] and [typingUsers] hold two [Set] objects
    (as they do after the constructor), after any sequence of presence
    messages a user is in the online set exactly when the last
    [user_online] or [user_offline] message naming the user was
    [user_online] (and as before when there was none), likewise for the
    typing set; the store itself is never written, so no subscriber of
    these keys is called. *)
Theorem presence_follows_last_message
    (ms : list presence) (p : page) (u : string) :
  wired p ->
  has "onlineUsers" u (handleMessages ms p) =
  online u ms (has "onlineUsers" u p) /\
  has "typingUsers" u (handleMessages ms p) =
  typing u ms (has "typingUsers" u p) /\
  store (handleMessages ms p) = store p /\
  Store.calls (store (handleMessages ms p)) = Store.calls (store p) /\
  wired (handleMessages ms p).
Proof.
  revert p. induction ms as [|m ms IH]; intros p Hw.
  - now repeat split.
  - destruct (handleMessage_step m p u Hw) as (Hw1 & Hs1 & Ho1 & Ht1).
    destruct (IH _ Hw1) as (Ho & Ht & Hs & Hc & Hw').
    change (handleMessages (m :: ms) p)
      with (handleMessages ms (handleMessage m p)).
    rewrite Ho, Ht, Hs, Ho1, Ht1, Hs1.
    split; [now destruct m|]. split; [now destruct m|].
    split; [reflexivity|]. split; [reflexivity | exact Hw'].
Qed.

End PresenceFacts.

(** ** Submitting the post form *)

Section SubmitFacts.
Import Submit.
Variable trim : string -> string.

Local Arguments Notif.show : simpl never.
Local Arguments Notif.show_default : simpl never.

Lemma submit_posts (r : Posts.settled) (x : page) :
  trim (value (form x)) <> "" \/ Media.selectedFiles (media x) <> [] ->
  submit trim r x =
  createPost_finish (textContent (form x))
    (fst (Posts.createPost_begin (trim (value (form x))) "public"
            (manager x, notifier x)))
    r
    {| form := {| value := value (form x);
                  disabled := true;
                  textContent := "Posting...";
                  charCount := charCount (form x) |};
       media := media x;
       world := (fst (snd (Posts.createPost_begin
                             (trim (value (form x))) "public"
                             (manager x, notifier x))),
                 snd (snd (Posts.createPost_begin
                             (trim (value (form x))) "public"
                             (manager x, notifier x))),
                 snd (world x)) |}.
Proof.
  intros H. unfold submit, createPost_begin, manager, notifier.
  assert (E : String.eqb (trim (value (form x))) "" &&
              Nat.eqb (length (Media.selectedFiles (media x))) 0 = false).
  { destruct H as [H|H].
    - apply andb_false_iff. left. now apply String.eqb_neq.
    - apply andb_false_iff. right.
      destruct (Media.selectedFiles (media x)); [contradiction|reflexivity]. }
  rewrite E. unfold createPost_uploaded, post, Media.uploadFiles.
  cbn [form media world].
  destruct (world x) as [[m n] w]. cbn [fst snd].
  destruct (Nat.ltb 0 (length (Media.selectedFiles (media x))));
    cbn [form media world];
    now destruct (Posts.createPost_begin (trim (value (form x))) "public"
                    (m, n)) as [postData [m1 n1]].
Qed.

(** X21.  A submission that the server rejects still clears the draft.
    When there is text or a selected file, and the names of the
    selected files can stand in a selector as they are (no quote,
    backslash, line break or null character), one run of the global
    [createPost] ends with the same form and media selection however
    the request settles: the textarea is empty, no file is selected, the
    button is enabled and has its text back.  After a rejection the
    post is taken out again, so that (the id drawn being new) the posts
    and the rendered articles are those from before, and the only
    trace is the toast of [PostManager.createPost]. *)
Theorem rejected_submission_clears_the_draft
    (r : Posts.settled) (x : page) :
  trim (value (form x)) <> "" \/ Media.selectedFiles (media x) <> [] ->
  Forall (fun f => MediaMore.selector_safe (Media.name f) = true)
         (Media.selectedFiles (media x)) ->
  (forall q, In q (Posts.posts (manager x)) ->
             Posts.post_id q <> Notif.seed (notifier x)) ->
  form (submit trim r x) = form (submit trim Posts.Rejected x) /\
  media (submit trim r x) = media (submit trim Posts.Rejected x) /\
  value (form (submit trim Posts.Rejected x)) = "" /\
  disabled (form (submit trim Posts.Rejected x)) = false /\
  textContent (form (submit trim Posts.Rejected x)) = textContent (form x) /\
  Media.selectedFiles (media (submit trim Posts.Rejected x)) = [] /\
  manager (submit trim Posts.Rejected x) = manager x /\
  Notif.notifications (notifier (submit trim Posts.Rejected x)) =
  (Notif.notifications (notifier x) ++
   [Notif.Toast (S (Notif.seed (notifier x)))
                "Failed to create post. Please try again." "danger"])%list.
Proof.
  intros H _ Hp. rewrite !(submit_posts _ x H).
  unfold createPost_finish. cbn [form media world value disabled textContent
                                 charCount].
  split; [reflexivity|]. split; [reflexivity|].
  split; [unfold updateCharacterCount; cbn [charCount value];
          now destruct (charCount (form x))|].
  split; [reflexivity|]. split; [reflexivity|]. split; [reflexivity|].
  unfold manager, notifier in *. destruct (world x) as [[m n] w].
  cbn [fst snd] in *.
  unfold Posts.createPost_settle, Posts.createPost_begin, Notif.draw,
    Posts.renderPost_prepend.
  cbn [generateUUID fst snd Posts.posts Posts.articles Posts.post_id
       List.filter Posts.remove_first_article Posts.data_post_id].
  rewrite Nat.eqb_refl. cbn [negb].
  rewrite filter_all_other by exact Hp.
  split; [now destruct m|]. cbn [world fst snd].
  rewrite notifications_show_default. reflexivity.
Qed.

End SubmitFacts.

(** ** Loading screen *)

Section LoadingFacts.
Import Loading.

Lemma elapse_idle (t : Z) (s : LoadingManager) :
  timers s = [] -> now s <= t ->
  elapse t s = {| loadingScreen := loadingScreen s;
                  isLoading := isLoading s;
                  timers := [];
                  now := t |}.
Proof.
  intros Ht Hn. unfold elapse. rewrite Ht. cbn.
  now replace (Z.max (now s) t) with t by lia.
Qed.

Lemma elapse_single (t d : Z) (sc : option screen) (b : bool) (n : Z) :
  n <= t ->
  elapse t {| loadingScreen := sc; isLoading := b; timers := [d]; now := n |} =
  if d <=? t
  then {| loadingScreen :=
            match sc with
            | Some e => Some {| display := Some "none"; fade_out := fade_out e |}
            | None => None
            end;
          isLoading := false;
          timers := [];
          now := t |}
  else {| loadingScreen := sc; isLoading := b; timers := [d]; now := t |}.
Proof.
  intros Hn. unfold elapse. cbn [timers List.filter].
  destruct (d <=? t); cbn [negb fold_left hidden loadingScreen isLoading
                           timers now];
    now replace (Z.max n t) with t by lia.
Qed.

(** X22.  [show()] does not cancel a pending [hide()].  On a page with
    the loading screen and no timeout pending, when [hide()] is called
    while loading and [show()] follows less than 500 ms later, the
    timeout of [hide] still fires: 500 ms after the [hide] the screen is
    set to [display: none] and [isLoading] is cleared, although [show]
    was the last call.  When [show()] comes 500 ms or more after the
    [hide], the screen stays on view. *)
Theorem show_does_not_cancel_hide
    (s : LoadingManager) (e : screen) (t0 t1 t2 : Z) :
  loadingScreen s = Some e -> isLoading s = true -> timers s = [] ->
  now s <= t0 -> t0 <= t1 -> t1 <= t2 -> t0 + 500 <= t2 ->
  let s' := steps [Hide t0; ShowScreen t1; Elapse t2] s in
  timers s' = [] /\
  (t1 < t0 + 500 ->
   visible (steps [Hide t0; ShowScreen t1] s) = true /\
   isLoading (steps [Hide t0; ShowScreen t1] s) = true /\
   visible s' = false /\ isLoading s' = false) /\
  (t0 + 500 <= t1 -> visible s' = true /\ isLoading s' = true).
Proof.
  intros He Hl Ht H0 H1 H2 H3. cbv zeta. unfold steps. cbn [fold_left step].
  rewrite (elapse_idle t0 s Ht H0). unfold hide.
  cbn [loadingScreen isLoading timers now]. rewrite He, Hl.
  cbn [display app].
  rewrite (elapse_single t1) by lia.
  destruct (Z.leb_spec (t0 + 500) t1) as [Hx|Hx].
  - unfold show. cbn [loadingScreen isLoading timers now].
    rewrite elapse_idle by (cbn [timers now]; (reflexivity || lia)).
    cbn [loadingScreen isLoading timers now]. unfold visible.
    cbn [loadingScreen display String.eqb negb].
    split; [reflexivity|]. split; [intros; lia | intros _; now split].
  - unfold show. cbn [loadingScreen isLoading timers now].
    rewrite (elapse_single t2) by lia.
    destruct (Z.leb_spec (t0 + 500) t2); [|lia].
    unfold visible. cbn [loadingScreen isLoading timers display].
    split; [reflexivity|]. split; [intros _; now repeat split | intros; lia].
Qed.

End LoadingFacts.

(** ** Typing indicator *)

Section ChatFacts.
Import Chat.

Lemma typing_snoc (u : string) (l : list (string * string))
    (m : string * string) :
  typing u (l ++ [m]) =
  if String.eqb (snd m) u then String.eqb (fst m) "typing_start"
  else typing u l.
Proof. unfold typing. now rewrite fold_left_app. Qed.

Lemma In_clearTimeout (h : nat) (l : list (nat * (Z * string)))
    (p : nat * (Z * string)) :
  In p (clearTimeout h l) <-> In p l /\ fst p <> h.
Proof.
  unfold clearTimeout. rewrite filter_In, negb_true_iff, Nat.eqb_neq.
  split; intros [H1 H2]; split; auto.
Qed.

Lemma inv_sendTypingIndicator (userId : string) (s : ChatManager) :
  inv s -> inv (sendTypingIndicator userId s).
Proof.
  intros (Ha & Hb & Hc & Hd).
  assert (Hold : forall p,
             In p (match typingTimeouts s !! userId with
                   | Some h => clearTimeout h (pending s)
                   | None => pending s
                   end) <->
             In p (pending s) /\ snd (snd p) <> userId).
  { intros [h [d u]]. cbn [snd].
    destruct (typingTimeouts s !! userId) as [h0|] eqn:E.
    - rewrite In_clearTimeout. cbn [fst]. apply Ha in E.
      split; intros [H1 H2]; (split; [exact H1|]).
      + intros ->. destruct (Hb _ _ _ H1) as [_ ->].
        apply Ha in H1. apply Ha in E. congruence.
      + intros ->. apply H2. exact (Hc _ _ _ _ _ H1 E).
    - split; [|tauto]. intros H1. split; [exact H1|]. intros ->.
      destruct (Hb _ _ _ H1) as [_ ->]. apply Ha in H1. congruence. }
  unfold inv, sendTypingIndicator.
  cbn [typingTimeouts pending next_handle sends].
  split; [|split; [|split]].
  - intros u h. rewrite in_app_iff, Hold. cbn [In snd].
    destruct (decide (u = userId)) as [->|Hne].
    + rewrite lookup_insert_eq. split.
      * intros [= <-]. right. now left.
      * intros [[_ H]|[H|[]]]; [contradiction | congruence].
    + rewrite lookup_insert_ne by congruence. rewrite Ha. split.
      * intros H. left. split; [exact H|]. cbn [snd]. congruence.
      * intros [[H _]|[H|[]]]; [exact H | congruence].
  - intros h d u. rewrite in_app_iff, Hold. cbn [In].
    intros [[H _]|[H|[]]].
    + destruct (Hb _ _ _ H). split; [lia | assumption].
    + injection H as <- <- <-. split; [lia | reflexivity].
  - intros h d u d' u'. rewrite !in_app_iff, !Hold. cbn [In].
    intros [[H _]|[H|[]]] [[H' _]|[H'|[]]].
    + exact (Hc _ _ _ _ _ H H').
    + injection H' as <- <- <-. destruct (Hb _ _ _ H). lia.
    + injection H as <- <- <-. destruct (Hb _ _ _ H'). lia.
    + congruence.
  - intros u. rewrite typing_snoc. cbn [fst snd].
    destruct (String.eqb_spec userId u) as [->|Hne].
    + rewrite lookup_insert_eq. split; [eauto | reflexivity].
    + rewrite lookup_insert_ne by congruence. apply Hd.
Qed.

Lemma chat_inv_exec (e : event) (s s' : ChatManager) :
  inv s -> exec e s = Some s' -> inv s'.
Proof.
  intros Hinv He. destruct e as [userId|h]; simpl in He.
  - injection He as <-. now apply inv_sendTypingIndicator.
  - destruct (List.find _ (pending s)) as [[h' [d userId]]|] eqn:E;
      [|discriminate].
    injection He as <-. apply find_some in E. destruct E as [Hin E].
    apply Nat.eqb_eq in E. cbn [fst] in E. subst h'.
    destruct Hinv as (Ha & Hb & Hc & Hd).
    destruct (Hb _ _ _ Hin) as [Hlt ->].
    unfold inv, callback. cbn [typingTimeouts pending next_handle sends].
    split; [|split; [|split]].
    + intros u h'. rewrite In_clearTimeout. cbn [fst].
      destruct (decide (u = userId)) as [->|Hne].
      * rewrite lookup_delete_eq. split; [discriminate|].
        intros [H1 H2]. apply Ha in H1. apply Ha in Hin. congruence.
      * rewrite lookup_delete_ne by congruence. rewrite Ha.
        split; [|tauto]. intros H. split; [exact H|]. intros ->.
        apply Hne. exact (Hc _ _ _ _ _ H Hin).
    + intros h' d u. rewrite In_clearTimeout. intros [H _].
      exact (Hb _ _ _ H).
    + intros h' d u d' u'. rewrite !In_clearTimeout. intros [H _] [H' _].
      exact (Hc _ _ _ _ _ H H').
    + intros u. rewrite typing_snoc. cbn [fst snd].
      destruct (String.eqb_spec userId u) as [->|Hne].
      * rewrite lookup_delete_eq. split; [discriminate|].
        intros [x Hx]. discriminate.
      * rewrite lookup_delete_ne by congruence. apply Hd.
Qed.

Lemma chat_inv_execs (es : list event) :
  forall s s', inv s -> execs es s = Some s' -> inv s'.
Proof.
  induction es as [|e es IH]; intros s s' Hs He; simpl in He.
  - now injection He as <-.
  - destruct (exec e s) as [s1|] eqn:E1; [|discriminate].
    exact (IH s1 s' (chat_inv_exec e s s1 Hs E1) He).
Qed.

(** X23.  The typing indicator is withdrawn for everyone it was sent
    for.  However calls of [sendTypingIndicator] for any users are
    mixed with the firing of pending timeouts, the last envelope sent
    about a user is [typing_start] exactly while a timeout is held for
    that user; a user has at most one timeout pending, the one in
    [typingTimeouts]; so once no timeout is pending, everyone's last
    envelope is [typing_stop] and the map is empty. *)
Theorem typing_indicator_is_withdrawn
    (es : list event) (s : ChatManager) (u : string) :
  execs es constructor = Some s ->
  (typing u (sends s) = true <-> is_Some (typingTimeouts s !! u)) /\
  (forall h, typingTimeouts s !! u = Some h <->
             In (h, (TYPING_TIMEOUT, u)) (pending s)) /\
  (forall h h' d d', In (h, (d, u)) (pending s) ->
                     In (h', (d', u)) (pending s) -> h = h') /\
  (pending s = [] -> typing u (sends s) = false /\ typingTimeouts s = ∅).
Proof.
  intros He.
  assert (H0 : inv constructor).
  { unfold inv, constructor. cbn [typingTimeouts pending sends].
    split; [|split; [|split]].
    - intros u' h. rewrite lookup_empty. split; [discriminate | intros []].
    - intros h d u' [].
    - intros h d u' d' u'' [].
    - intros u'. rewrite lookup_empty. cbn. split; [discriminate|].
      intros [x Hx]. discriminate. }
  destruct (chat_inv_execs es _ _ H0 He) as (Ha & Hb & Hc & Hd).
  split; [apply Hd|]. split; [apply Ha|]. split.
  - intros h h' d d' H H'.
    destruct (Hb _ _ _ H) as [_ ->]. destruct (Hb _ _ _ H') as [_ ->].
    apply Ha in H. apply Ha in H'. congruence.
  - intros Hp. split.
    + destruct (typing u (sends s)) eqn:E; [|reflexivity].
      apply Hd in E. destruct E as [h E]. apply Ha in E.
      rewrite Hp in E. destruct E.
    + apply map_eq. intros u'. rewrite lookup_empty.
      destruct (typingTimeouts s !! u') as [h|] eqn:E; [|reflexivity].
      apply Ha in E. rewrite Hp in E. destruct E.
Qed.

End ChatFacts.

(** ** Instances of the further properties *)

Lemma setState_touches_only_its_key_witness :
  ~ In "user" (map fst [("theme", Store.VStr "dark")]) /\
  ~ In "__proto__" (map fst [("theme", Store.VStr "dark")]) /\
  Store.ordinary Store.constructor /\
  Store.getState "user"
    (Store.setMany [("theme", Store.VStr "dark")] Store.constructor) =
  Store.getState "user" Store.constructor.
Proof.
  assert (H : ~ In "user" (map fst [("theme", Store.VStr "dark")]))
    by (simpl; intros [H|[]]; discriminate H).
  assert (Hp : ~ In "__proto__" (map fst [("theme", Store.VStr "dark")]))
    by (simpl; intros [H'|[]]; discriminate H').
  assert (Ho : Store.ordinary Store.constructor) by (left; reflexivity).
  split; [exact H|]. split; [exact Hp|]. split; [exact Ho|].
  destruct (setState_touches_only_its_key Store.constructor
              [("theme", Store.VStr "dark")] "user" H Hp Ho) as (Hg & _).
  exact Hg.
Defined.

Lemma subscribe_is_idempotent_witness :
  ~ In 1%nat (Store.subscribers "theme" Store.constructor) /\
  Store.subscribers "theme" (Store.subscribe "theme" 1%nat Store.constructor) =
  (Store.subscribers "theme" Store.constructor ++ [1%nat])%list.
Proof.
  assert (H : ~ In 1%nat (Store.subscribers "theme" Store.constructor))
    by (vm_compute; intros []).
  split; [exact H|].
  destruct (subscribe_is_idempotent Store.constructor "theme" 1%nat)
    as (_ & _ & Hnew).
  now destruct (Hnew H).
Defined.

Lemma toast_lifetime_is_exact_witness :
  Notif.wf Notif.constructor /\ 0 < 5000 < 2 ^ 31 /\
  5299 < Notif.now Notif.constructor + 5000 + 300 /\
  Notif.tracked (fst (Notif.show "Saved" "success" 5000 Notif.constructor))
    (Notif.advance_to 5299
       (snd (Notif.show "Saved" "success" 5000 Notif.constructor))) = true.
Proof.
  assert (Hd : 0 < 5000 < 2 ^ 31) by (split; [lia | reflexivity]).
  assert (Ht : 5299 < Notif.now Notif.constructor + 5000 + 300)
    by (simpl; lia).
  split; [exact wf_constructor|]. split; [exact Hd|]. split; [exact Ht|].
  apply (toast_lifetime_is_exact Notif.constructor "Saved" "success" 5000 5299
           wf_constructor Hd).
  exact Ht.
Defined.

Lemma clear_removes_everything_witness :
  let s := snd (Notif.show "Saved" "success" 0 Notif.constructor) in
  Notif.wf s /\ Notif.now s + 300 <= 300 /\
  Notif.notifications (Notif.advance_to 300 (Notif.clear s)) = [].
Proof.
  cbv zeta.
  assert (Hwf : Notif.wf (snd (Notif.show "Saved" "success" 0
                                          Notif.constructor)))
    by apply wf_show, wf_constructor.
  assert (Ht : Notif.now (snd (Notif.show "Saved" "success" 0
                                          Notif.constructor)) + 300 <= 300)
    by (simpl; lia).
  split; [exact Hwf|]. split; [exact Ht|].
  now destruct (clear_removes_everything _ 300 Hwf Ht).
Defined.

Lemma open_resets_backoff_witness :
  (length [Channel.ByError; Channel.ByThrow] <= 4)%nat /\
  exists x x',
    Channel.failures Channel.ByClose [Channel.ByError; Channel.ByThrow] =
    Some x /\
    ChannelMore.recover x = Some x' /\
    Channel.reconnectAttempts (fst x') = 0 /\
    Channel.scheduled (fst x') = [1000; 2000; 4000; 1000].
Proof.
  assert (Hl : (length [Channel.ByError; Channel.ByThrow] <= 4)%nat)
    by (simpl; lia).
  split; [exact Hl|].
  destruct (open_resets_backoff Channel.ByClose
              [Channel.ByError; Channel.ByThrow] Hl)
    as (x & x' & h & E & Hr & Ha & Hs & _).
  exists x, x'. split; [exact E|]. split; [exact Hr|]. split; [exact Ha|].
  exact Hs.
Defined.

Lemma disconnect_still_reconnects_witness :
  let x := Channel.onopen
             (Channel.set_socket 0 Channel.OPEN
                (fst (Channel.connect false Channel.start)),
              snd (Channel.connect false Channel.start)) in
  Channel.reachable x /\
  ChannelMore.open_socket (fst x) = Some 0%nat /\
  Channel.reconnectAttempts (fst x) = 0 /\
  Channel.timeouts (fst x) = [].
Proof.
  cbv zeta.
  assert (Hr : Channel.reachable
                 (Channel.onopen
                    (Channel.set_socket 0 Channel.OPEN
                       (fst (Channel.connect false Channel.start)),
                     snd (Channel.connect false Channel.start)))).
  { exists false, [Channel.EvOpen 0]. split; reflexivity. }
  split; [exact Hr|]. split; [reflexivity|].
  destruct (disconnect_still_reconnects _ 0%nat Hr eq_refl) as (Ha & Ht & _).
  split; [exact Ha | exact Ht].
Defined.

Lemma extension_is_text_after_last_dot_witness :
  MediaMore.dotless "PNG" = true /\
  Media.extension (Media.File ("holiday.2024" ++ String "." "PNG") 1
                              "image/png") =
  Media.toLowerCase "PNG".
Proof.
  split; [reflexivity|].
  destruct (extension_is_text_after_last_dot "holiday.2024" "PNG" 1
              "image/png") as (H & _).
  exact (H eq_refl).
Defined.

Lemma removeFile_drops_all_of_a_name_witness :
  let m := {| Media.selectedFiles := [Media.File "a.png" 1 "image/png";
                                      Media.File "b.png" 1 "image/png";
                                      Media.File "a.png" 2 "image/png"];
              Media.mediaPreview := Some [Media.Preview "a.png" true;
                                          Media.Preview "b.png" true;
                                          Media.Preview "a.png" true] |} in
  MediaMore.selector_safe "a.png" = true /\ "b.png" <> "a.png" /\
  MediaMore.files_named "a.png"
    (Media.selectedFiles (Media.after (Media.removeFile "a.png" m))) = 0%nat /\
  MediaMore.previews_named "b.png"
    (MediaMore.previews (Media.after (Media.removeFile "a.png" m))) =
  MediaMore.previews_named "b.png" (MediaMore.previews m).
Proof.
  cbv zeta.
  assert (Hs : MediaMore.selector_safe "a.png" = true) by reflexivity.
  assert (Hne : "b.png" <> "a.png") by discriminate.
  split; [exact Hs|]. split; [exact Hne|].
  destruct (removeFile_drops_all_of_a_name "a.png"
              {| Media.selectedFiles := [Media.File "a.png" 1 "image/png";
                                         Media.File "b.png" 1 "image/png";
                                         Media.File "a.png" 2 "image/png"];
                 Media.mediaPreview := Some [Media.Preview "a.png" true;
                                             Media.Preview "b.png" true;
                                             Media.Preview "a.png" true] |})
    as (H0 & _ & Hp).
  destruct (Hp Hs) as [_ Hother].
  split; [exact H0 | exact (Hother "b.png" Hne)].
Defined.

Lemma createPost_rejected_restores_feed_witness :
  let x := snd (Posts.createPost_begin "first" "public"
                  (Posts.constructor, Notif.constructor)) in
  (forall q, In q (Posts.posts (fst x)) ->
             Posts.post_id q <> Notif.seed (snd x)) /\
  fst (fst (Posts.createPost_settle
              (fst (Posts.createPost_begin "second" "public" x))
              Posts.Rejected
              (fst (snd (Posts.createPost_begin "second" "public" x)),
               snd (snd (Posts.createPost_begin "second" "public" x)),
               Channel.constructor))) = fst x.
Proof.
  cbv zeta.
  assert (H : forall q,
            In q (Posts.posts
                    (fst (snd (Posts.createPost_begin "first" "public"
                                 (Posts.constructor, Notif.constructor))))) ->
            Posts.post_id q <>
            Notif.seed (snd (snd (Posts.createPost_begin "first" "public"
                                    (Posts.constructor, Notif.constructor)))))
    by (intros q [<-|[]]; simpl; lia).
  split; [exact H|].
  destruct (createPost_rejected_restores_feed "second" "public" _ _
              Channel.constructor H) as [E _].
  exact E.
Defined.

Lemma toggleReaction_twice_restores_witness :
  let m := fst (snd (Posts.createPost_begin "first" "public"
                       (Posts.constructor, Notif.constructor))) in
  Posts.find_post 0%nat m = Some (Posts.Post 0%nat "first" "public" 0 0 0) /\
  Posts.find_article 0%nat m = Some (Posts.Article 0%nat false 0) /\
  exists m1 m2,
    Posts.toggleReaction_begin 0%nat "like" m = Posts.Awaiting false m1 /\
    Posts.likes_of 0%nat m1 = Some 1 /\
    Posts.toggleReaction_begin 0%nat "like" m1 = Posts.Awaiting true m2 /\
    Posts.posts m2 = Posts.posts m.
Proof.
  cbv zeta. split; [reflexivity|]. split; [reflexivity|].
  destruct (toggleReaction_twice_restores
              (fst (snd (Posts.createPost_begin "first" "public"
                           (Posts.constructor, Notif.constructor))))
              0%nat "like" (Posts.Post 0%nat "first" "public" 0 0 0)
              (Posts.Article 0%nat false 0) eq_refl eq_refl)
    as (m1 & m2 & H1 & H2 & H3 & H4 & _).
  - simpl. lia.
  - intros H. discriminate H.
  - exists m1, m2. split; [exact H1|]. split; [exact H2|].
    split; [exact H3 | exact H4].
Defined.

Lemma likes_never_negative_witness :
  Forall (fun q => 0 <= Posts.likes q)
         (Posts.posts (fst (fst PostsMore.start))) /\
  Forall (fun q => 0 <= Posts.likes q)
         (Posts.posts
            (fst (fst (PostsMore.steps
                         [PostsMore.Create "first" "public";
                          PostsMore.Toggle 0%nat "like";
                          PostsMore.Toggle 0%nat "like";
                          PostsMore.Toggle 0%nat "like"]
                         PostsMore.start)))).
Proof.
  assert (H : Forall (fun q => 0 <= Posts.likes q)
                     (Posts.posts (fst (fst PostsMore.start))))
    by constructor.
  split; [exact H|].
  now destruct (likes_never_negative
                  [PostsMore.Create "first" "public";
                   PostsMore.Toggle 0%nat "like";
                   PostsMore.Toggle 0%nat "like";
                   PostsMore.Toggle 0%nat "like"] PostsMore.start H).
Defined.

Lemma debounce_runs_once_after_the_burst_witness :
  0 <= 300 < 2 ^ 31 /\
  Debounce.idle string (Debounce.create string) /\
  Debounce.now string (Debounce.create string) <= 0 /\
  Debounce.burst string 300 0 [(100, "ch"); (250, "cha")] /\
  250 + 300 <= 550 /\
  Debounce.calls string
    (Debounce.elapse string false 550
       (Debounce.run string 300 false [(0, "c"); (100, "ch"); (250, "cha")]
                     (Debounce.create string))) =
  [(550, "cha")].
Proof.
  assert (Hw : 0 <= 300 < 2 ^ 31) by (split; [lia | reflexivity]).
  assert (Hi : Debounce.idle string (Debounce.create string)) by (now split).
  assert (Hn : Debounce.now string (Debounce.create string) <= 0)
    by (simpl; lia).
  assert (Hb : Debounce.burst string 300 0 [(100, "ch"); (250, "cha")])
    by (simpl; lia).
  assert (Ht : 250 + 300 <= 550) by lia.
  split; [exact Hw|]. split; [exact Hi|]. split; [exact Hn|].
  split; [exact Hb|]. split; [exact Ht|].
  destruct (debounce_runs_once_after_the_burst string 300 (0, "c")
              [(100, "ch"); (250, "cha")] 550 (Debounce.create string)
              Hw Hi Hn Hb Ht) as (_ & H & _).
  exact H.
Defined.

Lemma debounce_immediate_runs_first_call_only_witness :
  0 <= 300 < 2 ^ 31 /\
  Debounce.idle string (Debounce.create string) /\
  Debounce.now string (Debounce.create string) <= 0 /\
  Debounce.burst string 300 0 [(100, "ch"); (250, "cha")] /\
  250 + 300 <= 550 /\
  Debounce.calls string
    (Debounce.elapse string true 550
       (Debounce.run string 300 true [(0, "c"); (100, "ch"); (250, "cha")]
                     (Debounce.create string))) =
  [(0, "c")].
Proof.
  assert (Hw : 0 <= 300 < 2 ^ 31) by (split; [lia | reflexivity]).
  assert (Hi : Debounce.idle string (Debounce.create string)) by (now split).
  assert (Hn : Debounce.now string (Debounce.create string) <= 0)
    by (simpl; lia).
  assert (Hb : Debounce.burst string 300 0 [(100, "ch"); (250, "cha")])
    by (simpl; lia).
  assert (Ht : 250 + 300 <= 550) by lia.
  split; [exact Hw|]. split; [exact Hi|]. split; [exact Hn|].
  split; [exact Hb|]. split; [exact Ht|].
  destruct (debounce_immediate_runs_first_call_only string 300 (0, "c")
              [(100, "ch"); (250, "cha")] 550 (Debounce.create string)
              Hw Hi Hn Hb Ht) as (_ & H & _).
  exact H.
Defined.


Lemma timeAgo_picks_largest_unit_witness :
  60 <= (7200000 - 0) / 1000 /\
  exists label secs,
    In (label, secs) TimeAgo.intervals /\
    secs <= (7200000 - 0) / 1000 /\
    TimeAgo.timeAgo 7200000 0 =
    TimeAgo.phrase ((7200000 - 0) / 1000 / secs) label.
Proof.
  assert (H : 60 <= (7200000 - 0) / 1000) by (vm_compute; discriminate).
  split; [exact H|].
  destruct (timeAgo_picks_largest_unit 7200000 0) as (_ & Hd).
  destruct (Hd H) as (label & secs & Hin & Hle & _ & Ht & _).
  exists label, secs. split; [exact Hin|]. split; [exact Hle | exact Ht].
Defined.

Lemma toggleTheme_keeps_everything_in_step_witness :
  let x := Theme.constructor (Theme.page None true, Store.constructor) in
  (Theme.currentTheme (fst x) = "light" \/
   Theme.currentTheme (fst x) = "dark") /\
  Theme.currentTheme (fst (Theme.toggleTheme (Theme.toggleTheme x))) =
  Theme.currentTheme (fst x).
Proof.
  cbv zeta.
  assert (H : Theme.currentTheme
                (fst (Theme.constructor
                        (Theme.page None true, Store.constructor))) = "light" \/
              Theme.currentTheme
                (fst (Theme.constructor
                        (Theme.page None true, Store.constructor))) = "dark")
    by (left; reflexivity).
  split; [exact H|].
  destruct (toggleTheme_keeps_everything_in_step
              (fst (Theme.constructor
                      (Theme.page None true, Store.constructor)))
              (snd (Theme.constructor
                      (Theme.page None true, Store.constructor))))
    as (_ & _ & _ & _ & _ & _ & Hback).
  exact (Hback H).
Defined.


Lemma loadMore_without_button_never_loads_witness :
  Feed.usable None = false /\
  exists f,
    Feed.execs [Feed.Call; Feed.Call] (Feed.constructor None) = Some f /\
    Feed.loaded f = [] /\ Feed.isLoading f = true.
Proof.
  split; [reflexivity|].
  destruct (Feed.execs [Feed.Call; Feed.Call] (Feed.constructor None))
    as [f|] eqn:E.
  - exists f. split; [reflexivity|].
    destruct (loadMore_without_button_never_loads _ None f eq_refl E)
      as (H1 & _ & _ & _ & H5).
    split; [exact H1|]. apply H5. now left.
  - vm_compute in E. discriminate E.
Defined.

Lemma loaded_posts_cannot_be_reacted_to_witness :
  let button := Some {| Feed.disabled := false;
                        Feed.textContent := "Load more";
                        Feed.spinner := Some true |} in
  let es := [Feed.Page (PostsMore.Create "first" "public"); Feed.Call;
             Feed.Loaded (fun i => Feed.Demo "post" (Z.of_nat i) 0 0)] in
  exists f,
    Feed.execs es (Feed.constructor button) = Some f /\
    In 1%nat (Feed.loaded f) /\
    Posts.toggleReaction_begin 1%nat "like" (Feed.manager f) = Posts.NotFound.
Proof.
  cbv zeta.
  assert (Hl : exists rest,
            option_map Feed.loaded
              (Feed.execs
                 [Feed.Page (PostsMore.Create "first" "public"); Feed.Call;
                  Feed.Loaded (fun i => Feed.Demo "post" (Z.of_nat i) 0 0)]
                 (Feed.constructor
                    (Some {| Feed.disabled := false;
                             Feed.textContent := "Load more";
                             Feed.spinner := Some true |}))) =
            Some (1%nat :: rest))
    by (eexists; vm_compute; reflexivity).
  destruct Hl as [rest Hl].
  destruct (Feed.execs
              [Feed.Page (PostsMore.Create "first" "public"); Feed.Call;
               Feed.Loaded (fun i => Feed.Demo "post" (Z.of_nat i) 0 0)]
              (Feed.constructor
                 (Some {| Feed.disabled := false;
                          Feed.textContent := "Load more";
                          Feed.spinner := Some true |}))) as [f|] eqn:E;
    [|discriminate Hl].
  injection Hl as Hl.
  assert (Hin : In 1%nat (Feed.loaded f)) by (rewrite Hl; now left).
  exists f. split; [reflexivity|]. split; [exact Hin|].
  now destruct (loaded_posts_cannot_be_reacted_to _ _ f 1%nat "like" E Hin)
    as (_ & H & _).
Defined.

Lemma presence_follows_last_message_witness :
  Presence.wired Presence.start /\
  Presence.has "onlineUsers" "ann"
    (Presence.handleMessages
       [Presence.user_online "ann"; Presence.typing_start "ann";
        Presence.user_offline "bob"] Presence.start) = true /\
  Store.calls
    (Presence.store
       (Presence.handleMessages
          [Presence.user_online "ann"; Presence.typing_start "ann";
           Presence.user_offline "bob"] Presence.start)) = [].
Proof.
  split; [exact wired_start|].
  destruct (presence_follows_last_message
              [Presence.user_online "ann"; Presence.typing_start "ann";
               Presence.user_offline "bob"] Presence.start "ann" wired_start)
    as (Ho & _ & _ & Hc & _).
  split; [rewrite Ho; reflexivity | exact Hc].
Defined.

Lemma rejected_submission_clears_the_draft_witness :
  let x := {| Submit.form := {| Submit.value := "hello";
                                Submit.disabled := false;
                                Submit.textContent := "Post";
                                Submit.charCount := Some (275, "text-muted") |};
              Submit.media :=
                {| Media.selectedFiles := [Media.File "a.png" 1 "image/png"];
                   Media.mediaPreview := Some [Media.Preview "a.png" true] |};
              Submit.world := PostsMore.step
                                (PostsMore.Create "first" "public")
                                PostsMore.start |} in
  (Submit.value (Submit.form x) <> "" \/
   Media.selectedFiles (Submit.media x) <> []) /\
  Forall (fun f => MediaMore.selector_safe (Media.name f) = true)
         (Media.selectedFiles (Submit.media x)) /\
  (forall q, In q (Posts.posts (Submit.manager x)) ->
             Posts.post_id q <> Notif.seed (Submit.notifier x)) /\
  Submit.value (Submit.form (Submit.submit (fun s => s) Posts.Rejected x)) =
  "" /\
  Media.selectedFiles
    (Submit.media (Submit.submit (fun s => s) Posts.Rejected x)) = [] /\
  Submit.manager (Submit.submit (fun s => s) Posts.Rejected x) =
  Submit.manager x.
Proof.
  cbv zeta.
  set (x := {| Submit.form := {| Submit.value := "hello";
                                 Submit.disabled := false;
                                 Submit.textContent := "Post";
                                 Submit.charCount := Some (275, "text-muted") |};
               Submit.media :=
                 {| Media.selectedFiles := [Media.File "a.png" 1 "image/png"];
                    Media.mediaPreview := Some [Media.Preview "a.png" true] |};
               Submit.world := PostsMore.step
                                 (PostsMore.Create "first" "public")
                                 PostsMore.start |}).
  assert (H : Submit.value (Submit.form x) <> "" \/
              Media.selectedFiles (Submit.media x) <> [])
    by (left; discriminate).
  assert (Hs : Forall (fun f => MediaMore.selector_safe (Media.name f) = true)
                      (Media.selectedFiles (Submit.media x)))
    by (repeat constructor).
  assert (Hp : forall q, In q (Posts.posts (Submit.manager x)) ->
                         Posts.post_id q <> Notif.seed (Submit.notifier x))
    by (intros q [<-|[]]; simpl; lia).
  split; [exact H|]. split; [exact Hs|]. split; [exact Hp|].
  destruct (rejected_submission_clears_the_draft (fun s => s) Posts.Rejected
              x H Hs Hp) as (_ & _ & Hv & _ & _ & Hf & Hm & _).
  split; [exact Hv|]. split; [exact Hf | exact Hm].
Defined.

Lemma show_does_not_cancel_hide_witness :
  let e := {| Loading.display := None; Loading.fade_out := false |} in
  let s := Loading.constructor (Some e) in
  Loading.loadingScreen s = Some e /\ Loading.isLoading s = true /\
  Loading.timers s = [] /\ Loading.now s <= 0 /\ 0 <= 100 /\ 100 <= 500 /\
  0 + 500 <= 500 /\ 100 < 0 + 500 /\
  Loading.visible
    (Loading.steps [Loading.Hide 0; Loading.ShowScreen 100; Loading.Elapse 500]
                   s) = false.
Proof.
  cbv zeta.
  assert (H0 : Loading.now
                 (Loading.constructor
                    (Some {| Loading.display := None;
                             Loading.fade_out := false |})) <= 0)
    by (simpl; lia).
  assert (H1 : 0 <= 100) by lia. assert (H2 : 100 <= 500) by lia.
  assert (H3 : 0 + 500 <= 500) by lia. assert (H4 : 100 < 0 + 500) by lia.
  split; [reflexivity|]. split; [reflexivity|]. split; [reflexivity|].
  split; [exact H0|]. split; [exact H1|]. split; [exact H2|].
  split; [exact H3|]. split; [exact H4|].
  destruct (show_does_not_cancel_hide
              (Loading.constructor
                 (Some {| Loading.display := None;
                          Loading.fade_out := false |}))
              {| Loading.display := None; Loading.fade_out := false |}
              0 100 500 eq_refl eq_refl eq_refl H0 H1 H2 H3)
    as (_ & Hrace & _).
  now destruct (Hrace H4) as (_ & _ & Hv & _).
Defined.

Lemma typing_indicator_is_withdrawn_witness :
  exists s,
    Chat.execs [Chat.Typing "ann"; Chat.Typing "ann"; Chat.Fires 2%nat]
               Chat.constructor = Some s /\
    Chat.pending s = [] /\
    Chat.typing "ann" (Chat.sends s) = false.
Proof.
  assert (Hp : option_map Chat.pending
                 (Chat.execs
                    [Chat.Typing "ann"; Chat.Typing "ann"; Chat.Fires 2%nat]
                    Chat.constructor) = Some [])
    by (vm_compute; reflexivity).
  destruct (Chat.execs [Chat.Typing "ann"; Chat.Typing "ann"; Chat.Fires 2%nat]
                       Chat.constructor) as [s|] eqn:E; [|discriminate Hp].
  injection Hp as Hp.
  exists s. split; [reflexivity|]. split; [exact Hp|].
  destruct (typing_indicator_is_withdrawn _ s "ann" E) as (_ & _ & _ & H).
  now destruct (H Hp).
Defined.
